(** * TopRacer geographic quiz: the core engine of [assets/js/script.js]

    A shallow embedding of the [QuizEngine] class (data normalisation,
    difficulty pools, question generation, scoring and session flow) and
    the properties its specification states about it; then of the loading
    of the countries and of the page controller [QuizUI], with further
    properties read off the code.

    Conventions of the embedding.
    - A JavaScript number is an IEEE double.  Finite doubles are modelled by
      the exact rational they denote ([Fin q]); [NaN] and the two infinities
      are kept apart.  Arithmetic on finite values is exact rational
      arithmetic, which agrees with double arithmetic whenever every
      intermediate value is representable (all integers below 2^53 are).
      The sign of zero is not modelled.
    - Strings are byte strings; non-ASCII text of the source is its UTF-8
      encoding.
    - [Math.random] is a stream of draws ([rng]); [Math.floor(Math.random()
      * n)] reads the next draw and reduces it to an index below [n], so a
      statement quantified over every [rng] covers every run.
    - A call that raises a JavaScript exception ends in [Raised], or in
      [Throws s] where the state [s] mutated before the throw matters. *)

From Stdlib Require Import List String Ascii Bool Arith ZArith QArith Qabs Qround Lia.
From Stdlib Require Import Permutation Sorted DecimalString.
Import ListNotations.

Close Scope Q_scope.
Local Open Scope string_scope.
Local Open Scope list_scope.

(** ** Host-language primitives *)

Module JS.

(** Numbers. *)
Inductive number : Type :=
| NaN
| PosInf
| NegInf
| Fin (q : Q).

Definition of_Z (z : Z) : number := Fin (inject_Z z).

(** [x >= c], [x < c] and [x > c] against a finite constant. *)
Definition ge (x : number) (c : Q) : bool :=
  match x with
  | NaN => false
  | PosInf => true
  | NegInf => false
  | Fin q => Qle_bool c q
  end.

Definition lt (x : number) (c : Q) : bool :=
  match x with
  | NaN => false
  | PosInf => false
  | NegInf => true
  | Fin q => negb (Qle_bool c q)
  end.

Definition gt (x : number) (c : Q) : bool :=
  match x with
  | NaN => false
  | PosInf => true
  | NegInf => false
  | Fin q => negb (Qle_bool q c)
  end.

(** [x * c] and [x / c] for a finite constant [c]. *)
Definition mul (x : number) (c : Q) : number :=
  match x with
  | NaN => NaN
  | PosInf => if Qle_bool c 0 then (if Qle_bool 0 c then NaN else NegInf) else PosInf
  | NegInf => if Qle_bool c 0 then (if Qle_bool 0 c then NaN else PosInf) else NegInf
  | Fin q => Fin (q * c)%Q
  end.

Definition div (x : number) (c : Q) : number := mul x (/ c)%Q.

(** [Math.floor] and [Math.round] (ties go up). *)
Definition Math_floor (x : number) : number :=
  match x with
  | Fin q => of_Z (Qfloor q)
  | _ => x
  end.

Definition Math_round (x : number) : number :=
  match x with
  | Fin q => of_Z (Qfloor (q + (1 # 2))%Q)
  | _ => x
  end.

(** ToBoolean on a number: [0] and [NaN] are falsy. *)
Definition truthy (x : number) : bool :=
  match x with
  | NaN => false
  | Fin q => negb (Qeq_bool q 0)
  | _ => true
  end.

(** [x || d] on numbers. *)
Definition or_else (x d : number) : number := if truthy x then x else d.

(** Being a non-negative integer. *)
Definition is_nonneg_integer (x : number) : Prop :=
  exists z : Z, (0 <= z)%Z /\ x = of_Z z.

(** *** Decimal text *)

Definition digits_of_N (n : N) : string :=
  NilEmpty.string_of_uint (N.to_uint n).

Fixpoint pad_left (width : nat) (s : string) : string :=
  if Nat.ltb (String.length s) width
  then match width with
       | O => s
       | S w => "0" ++ pad_left w s
       end
  else s.

(** Splits a text [k] characters before its end. *)
Definition split_at_end (k : nat) (s : string) : string * string :=
  let n := String.length s in
  (substring 0 (n - k) s, substring (n - k) k s).

(** [x.toFixed(d)] for |x| < 10^21 (beyond that JavaScript switches to
    exponent notation, which is outside the model): the nearest decimal
    with [d] fraction digits, ties away from zero. *)
Definition toFixed (d : nat) (x : number) : string :=
  match x with
  | NaN => "NaN"
  | PosInf => "Infinity"
  | NegInf => "-Infinity"
  | Fin q =>
      let sign := if Qle_bool 0 q then EmptyString else "-" in
      let scaled := (Qabs q * inject_Z (10 ^ Z.of_nat d) + (1 # 2))%Q in
      let n := Z.to_N (Qfloor scaled) in
      let txt := pad_left (S d) (digits_of_N n) in
      let (ip, fp) := split_at_end d txt in
      match d with
      | O => sign ++ ip
      | _ => sign ++ ip ++ "." ++ fp
      end
  end.

(** Groups the digits of an integer in threes. *)
Fixpoint group_from_right (fuel : nat) (s : string) : string :=
  match fuel with
  | O => s
  | S f =>
      if Nat.leb (String.length s) 3 then s
      else let (hd, tl) := split_at_end 3 s in
           group_from_right f hd ++ "," ++ tl
  end.

Definition group_thousands (s : string) : string :=
  group_from_right (String.length s) s.

Fixpoint strip_trailing_zeros (fuel : nat) (s : string) : string :=
  match fuel with
  | O => s
  | S f =>
      let n := String.length s in
      if String.eqb (substring (n - 1) 1 s) "0"
      then strip_trailing_zeros f (substring 0 (n - 1) s)
      else s
  end.

(** [x.toLocaleString()] with no argument, for a host whose default locale
    is en-US: grouping by commas, at most three fraction digits (ties away
    from zero), trailing zeros dropped. *)
Definition toLocaleString (x : number) : string :=
  match x with
  | NaN => "NaN"
  | PosInf => "∞"
  | NegInf => "-∞"
  | Fin q =>
      let sign := if Qle_bool 0 q then EmptyString else "-" in
      let n := Z.to_N (Qfloor (Qabs q * 1000 + (1 # 2))%Q) in
      let ip := group_thousands (digits_of_N (n / 1000)) in
      let fp := strip_trailing_zeros 3 (pad_left 3 (digits_of_N (n mod 1000))) in
      if String.eqb fp EmptyString then sign ++ ip else sign ++ ip ++ "." ++ fp
  end.

(** *** Text *)

Definition is_digit (c : ascii) : bool :=
  let n := nat_of_ascii c in Nat.leb 48 n && Nat.leb n 57.

Definition digit_val (c : ascii) : Z := Z.of_nat (nat_of_ascii c - 48).

(** The ASCII members of the regular-expression class [\s] (tab, line feed,
    vertical tab, form feed, carriage return, space); its non-ASCII members
    are not recognised by the model. *)
Definition is_space (c : ascii) : bool :=
  let n := nat_of_ascii c in Nat.eqb n 32 || (Nat.leb 9 n && Nat.leb n 13).

Fixpoint remove_chars (p : ascii -> bool) (s : string) : string :=
  match s with
  | EmptyString => EmptyString
  | String c r => if p c then remove_chars p r else String c (remove_chars p r)
  end.

Fixpoint drop_while (p : ascii -> bool) (s : string) : string :=
  match s with
  | EmptyString => EmptyString
  | String c r => if p c then drop_while p r else s
  end.

Fixpoint rev_string (s : string) : string :=
  match s with
  | EmptyString => EmptyString
  | String c r => rev_string r ++ String c EmptyString
  end.

(** [s.trim()] *)
Definition trim (s : string) : string :=
  rev_string (drop_while is_space (rev_string (drop_while is_space s))).

(** [s.split(sep)] for a one-character separator. *)
Fixpoint split (sep : ascii) (s : string) : list string :=
  match s with
  | EmptyString => [EmptyString]
  | String c r =>
      let parts := split sep r in
      if Ascii.eqb c sep then EmptyString :: parts
      else match parts with
           | p :: ps => String c p :: ps
           | [] => [String c EmptyString]
           end
  end.

(** ToBoolean on a string: only the empty string is falsy. *)
Definition nonempty (s : string) : bool := negb (String.eqb s EmptyString).

(** Reads a run of decimal digits, accumulating its value and its length. *)
Fixpoint read_digits (s : string) (acc : Z) (cnt : nat) : Z * nat * string :=
  match s with
  | String c r =>
      if is_digit c then read_digits r (10 * acc + digit_val c)%Z (S cnt)
      else (acc, cnt, s)
  | EmptyString => (acc, cnt, s)
  end.

Definition read_sign (s : string) : bool * string :=
  match s with
  | String "-" r => (true, r)
  | String "+" r => (false, r)
  | _ => (false, s)
  end.

(** The exponent part [e±ddd], read only when at least one digit follows. *)
Definition read_exponent (s : string) : Z :=
  match s with
  | String c r =>
      if Ascii.eqb c "e" || Ascii.eqb c "E" then
        let (neg, r') := read_sign r in
        let '(e, cnt, _) := read_digits r' 0%Z 0%nat in
        match cnt with
        | O => 0%Z
        | _ => if neg then (- e)%Z else e
        end
      else 0%Z
  | EmptyString => 0%Z
  end.

Definition scale10 (m e : Z) : Q :=
  if (0 <=? e)%Z then inject_Z (m * 10 ^ e)
  else Qmake m (Z.to_pos (10 ^ (- e))).

(** [parseFloat(s)]: the longest prefix of [s] that is a decimal literal,
    [NaN] when there is none. *)
Definition parseFloat (s : string) : number :=
  let (neg, body) := read_sign (drop_while is_space s) in
  if prefix "Infinity" body then (if neg then NegInf else PosInf)
  else
    let '(ip, ni, r1) := read_digits body 0%Z 0%nat in
    let '(m, nf, r2) :=
      match r1 with
      | String "." r => read_digits r ip 0%nat
      | _ => (ip, 0%nat, r1)
      end in
    match (ni + nf)%nat with
    | O => NaN
    | _ => let e := (read_exponent r2 - Z.of_nat nf)%Z in
           Fin (scale10 (if neg then (- m)%Z else m) e)
    end.

End JS.

Import JS.

(** ** Values and records *)

(** What a field, an answer or an option can hold: [undefined], a string,
    or the object [{ name, flag, alt }] of a flag question. *)
Inductive value : Type :=
| Undefined
| Str (s : string)
| FlagOption (name flag alt : string).

Definition value_eq_dec (a b : value) : {a = b} + {a <> b}.
Proof. decide equality; apply string_dec. Defined.

(** [a === b].  An object is identified with its content: the engine
    compares answers and options with strings and [undefined] only, never
    two objects with each other. *)
Definition strict_eq (a b : value) : bool :=
  match a, b with
  | Undefined, Undefined => true
  | Str s, Str t => String.eqb s t
  | FlagOption n f a, FlagOption n' f' a' =>
      String.eqb n n' && String.eqb f f' && String.eqb a a'
  | _, _ => false
  end.

(** [options.includes(x)] *)
Definition includes (x : value) (options : list value) : bool :=
  existsb (strict_eq x) options.

(** Interpolation of a value in a template literal. *)
Definition to_text (v : value) : string :=
  match v with
  | Undefined => "undefined"
  | Str s => s
  | FlagOption _ _ _ => "[object Object]"
  end.

(** [xs[0]] *)
Definition first (xs : list string) : value :=
  match xs with
  | [] => Undefined
  | x :: _ => Str x
  end.

(** [v || d], for a string default. *)
Definition or_default (v : value) (d : string) : value :=
  match v with
  | Undefined => Str d
  | Str s => if nonempty s then v else Str d
  | FlagOption _ _ _ => v
  end.

Record CountryRecord : Type := {
  name : string;
  capital : value;
  population : number;
  area : number;
  region : string;
  currencies : list string;
  gdp : number;
  languages : list string;
  timezones : list string;
  flag : string;
  flagAlt : string;
  popularity : number
}.

(** ** Country data provider *)

(** A population as the primary source delivers it. *)
Inductive jsval : Type :=
| JUndefined
| JNull
| JBoolean (b : bool)
| JNumber (n : number)
| JString (s : string)
| JObject.

(** The unit heuristic that ends [normalizePopulation], once [n] is known
    to be a number. *)
Definition scale_population (n : number) : number :=
  if ge n 1000000 then Math_round n
  else if lt n 10 then Math_round (mul n 1000000)
  else if lt n 10000 then Math_round (mul n 1000)
  else Math_round n.

(** [value.replace(/[,\s]/g, '')] *)
Definition cleaned (s : string) : string :=
  remove_chars (fun c => Ascii.eqb c "," || is_space c) s.

Definition normalizePopulation (v : jsval) : number :=
  match v with
  | JUndefined | JNull => of_Z 0
  | JString s =>
      match parseFloat (cleaned s) with
      | NaN => of_Z 0
      | n => scale_population n
      end
  | JNumber n => scale_population n
  | JBoolean _ | JObject => of_Z 0
  end.

(** The name-to-ISO-code table of [getCountryCode]. *)
Definition countryCodes : list (string * string) := [
    ("United States", "us"); ("China", "cn"); ("India", "in");
    ("Brazil", "br"); ("Russia", "ru"); ("Japan", "jp");
    ("Germany", "de"); ("United Kingdom", "gb"); ("France", "fr");
    ("Italy", "it"); ("Canada", "ca"); ("South Korea", "kr");
    ("Spain", "es"); ("Australia", "au"); ("Mexico", "mx");
    ("Indonesia", "id"); ("Netherlands", "nl"); ("Saudi Arabia", "sa");
    ("Turkey", "tr"); ("Switzerland", "ch"); ("Poland", "pl");
    ("Belgium", "be"); ("Sweden", "se"); ("Argentina", "ar");
    ("Norway", "no"); ("Austria", "at"); ("United Arab Emirates", "ae");
    ("Ireland", "ie"); ("Israel", "il"); ("Singapore", "sg");
    ("Denmark", "dk"); ("South Africa", "za"); ("Egypt", "eg");
    ("Philippines", "ph"); ("Pakistan", "pk"); ("Vietnam", "vn");
    ("Bangladesh", "bd"); ("Chile", "cl"); ("Colombia", "co");
    ("Finland", "fi"); ("Portugal", "pt"); ("Greece", "gr");
    ("New Zealand", "nz"); ("Peru", "pe"); ("Czech Republic", "cz");
    ("Romania", "ro"); ("Iraq", "iq"); ("Qatar", "qa");
    ("Kazakhstan", "kz"); ("Hungary", "hu"); ("Kuwait", "kw");
    ("Morocco", "ma"); ("Ukraine", "ua"); ("Ethiopia", "et");
    ("Kenya", "ke"); ("Ecuador", "ec"); ("Dominican Republic", "do");
    ("Guatemala", "gt"); ("Oman", "om"); ("Venezuela", "ve");
    ("Luxembourg", "lu"); ("Bulgaria", "bg"); ("Costa Rica", "cr");
    ("Uruguay", "uy"); ("Croatia", "hr"); ("Tanzania", "tz");
    ("Lithuania", "lt"); ("Slovenia", "si"); ("Serbia", "rs");
    ("Ghana", "gh"); ("Jordan", "jo"); ("Tunisia", "tn");
    ("Bolivia", "bo"); ("Ivory Coast", "ci"); ("Paraguay", "py");
    ("Libya", "ly"); ("Uganda", "ug"); ("Panama", "pa");
    ("Latvia", "lv"); ("Estonia", "ee"); ("Nepal", "np");
    ("Cameroon", "cm"); ("Bahrain", "bh"); ("Honduras", "hn");
    ("Iceland", "is"); ("Trinidad and Tobago", "tt"); ("Senegal", "sn");
    ("Cambodia", "kh"); ("Cyprus", "cy"); ("Zimbabwe", "zw");
    ("Papua New Guinea", "pg"); ("Zambia", "zm"); ("Albania", "al");
    ("Mozambique", "mz"); ("Botswana", "bw"); ("Gabon", "ga");
    ("Jamaica", "jm"); ("Malta", "mt"); ("Mauritius", "mu");
    ("Brunei", "bn"); ("Mongolia", "mn"); ("Armenia", "am");
    ("Namibia", "na"); ("Madagascar", "mg"); ("Nicaragua", "ni");
    ("Macedonia", "mk"); ("Burkina Faso", "bf"); ("Mali", "ml");
    ("Bahamas", "bs"); ("Haiti", "ht"); ("Benin", "bj");
    ("Rwanda", "rw"); ("Niger", "ne"); ("Guinea", "gn");
    ("Malawi", "mw"); ("Tajikistan", "tj"); ("Montenegro", "me");
    ("Kosovo", "xk"); ("Kyrgyzstan", "kg"); ("Moldova", "md");
    ("Barbados", "bb"); ("Fiji", "fj"); ("Togo", "tg");
    ("Liberia", "lr"); ("Mauritania", "mr"); ("Suriname", "sr");
    ("Maldives", "mv"); ("Guyana", "gy")
  ].

Fixpoint assoc (k : string) (table : list (string * string)) : option string :=
  match table with
  | [] => None
  | (k', v) :: rest => if String.eqb k k' then Some v else assoc k rest
  end.

(** [countryCodes[countryName] || 'un'], for the country names the loader
    asks for (none of them names a member of [Object.prototype]). *)
Definition getCountryCode (countryName : string) : string :=
  match assoc countryName countryCodes with
  | Some code => code
  | None => "un"
  end.

(** One row of the primary source's answer.  [None] is an absent (or
    [null]) field. *)
Inductive ninja_languages : Type :=
| LanguagesArray (l : list string)
| LanguagesString (s : string)
| LanguagesOther.

Inductive ninja_currency : Type :=
| CurrencyObject (cname : option string)
| CurrencyString (s : string)
| CurrencyOther.

Record NinjaCountry : Type := {
  n_name : option string;
  n_capital : option string;
  n_population : jsval;
  n_surface_area : option number;
  n_region : option string;
  n_currency : ninja_currency;
  n_gdp : option number;
  n_languages : ninja_languages;
  n_timezone : option string
}.

Inductive ninja_data : Type :=
| NotAnArray
| Rows (rows : list NinjaCountry).

(** [o || d] on an optional string and on an optional number. *)
Definition str_or (o : option string) (d : string) : string :=
  match o with
  | Some s => if nonempty s then s else d
  | None => d
  end.

Definition num_or (o : option number) (d : number) : number :=
  match o with
  | Some n => or_else n d
  | None => d
  end.

(** [None] is the [null] the function returns for an unusable answer. *)
Definition mapNinjaCountry (data : ninja_data) (countryName : string)
  : option CountryRecord :=
  match data with
  | NotAnArray | Rows [] => None
  | Rows (country :: _) =>
      let normalizedPopulation := normalizePopulation (n_population country) in
      let languages :=
        match n_languages country with
        | LanguagesArray l => l
        | LanguagesString s =>
            if Nat.ltb 0 (String.length s)
            then filter nonempty (map trim (split "," s))
            else ["Unknown"]
        | LanguagesOther => ["Unknown"]
        end in
      let currencyName :=
        match n_currency country with
        | CurrencyObject cname => str_or cname "Unknown"
        | CurrencyString s => s
        | CurrencyOther => "Unknown"
        end in
      Some {|
        name := str_or (n_name country) countryName;
        capital := Str (str_or (n_capital country) "N/A");
        population := normalizedPopulation;
        area := num_or (n_surface_area country) (of_Z 0);
        region := str_or (n_region country) "Unknown";
        currencies := if nonempty currencyName then [currencyName] else ["Unknown"];
        gdp := num_or (n_gdp country) (of_Z 0);
        languages := languages;
        timezones := [str_or (n_timezone country) "UTC"];
        flag := "https://flagcdn.com/w320/" ++ getCountryCode countryName ++ ".png";
        flagAlt := "Flag of " ++ countryName;
        popularity := normalizedPopulation
      |}
  end.

(** One entry of the bulk source's answer. *)
Record RestFlags : Type := {
  png : option string;
  svg : option string;
  alt : option string
}.

Record RestCurrency : Type := {
  c_name : string;
  c_symbol : string
}.

Record RestCountry : Type := {
  r_common : string;
  r_capital : option (list string);
  r_population : option number;
  r_area : option number;
  r_region : option string;
  r_languages : option (list (string * string));
  r_currencies : option (list (string * RestCurrency));
  r_timezones : option (list string);
  r_flags : option RestFlags
}.

(** [Object.values] of an object given by its entries. *)
Definition Object_values {A : Type} (entries : list (string * A)) : list A :=
  map snd entries.

Definition flags_field (f : RestFlags -> option string) (o : option RestFlags)
  : option string :=
  match o with
  | Some fl => f fl
  | None => None
  end.

(** The arrow function [loadFromRestCountries] maps over the answer. *)
Definition mapRestCountry (country : RestCountry) : CountryRecord := {|
  name := r_common country;
  capital := match r_capital country with
             | Some cs => first cs
             | None => Str "N/A"
             end;
  population := num_or (r_population country) (of_Z 0);
  area := num_or (r_area country) (of_Z 0);
  region := str_or (r_region country) "Unknown";
  languages := match r_languages country with
               | Some o => Object_values o
               | None => []
               end;
  currencies := match r_currencies country with
                | Some o => map c_name (Object_values o)
                | None => []
                end;
  timezones := match r_timezones country with
               | Some tz => tz
               | None => []
               end;
  flag := str_or (flags_field png (r_flags country))
            (str_or (flags_field svg (r_flags country)) EmptyString);
  flagAlt := str_or (flags_field alt (r_flags country))
               ("Flag of " ++ r_common country);
  gdp := of_Z 0;
  popularity := num_or (r_population country) (of_Z 0)
|}.

(** [loadFromRestCountries], given the answer of the bulk source: the value
    it stores in [this.countries]. *)
Definition loadFromRestCountries (data : list RestCountry) : list CountryRecord :=
  filter (fun c => gt (population c) 0) (map mapRestCountry data).

(** ** Formatting *)

Definition formatPopulation (pop : number) : string :=
  if ge pop 1000000000 then toFixed 2 (div pop 1000000000) ++ " billion"
  else if ge pop 1000000 then toFixed 1 (div pop 1000000) ++ " million"
  else toLocaleString pop.

Definition formatArea (area : number) : string :=
  toLocaleString area ++ " km²".

Definition formatGDP (gdp : number) : string :=
  if ge gdp 1000000000000 then "$" ++ toFixed 2 (div gdp 1000000000000) ++ " trillion"
  else if ge gdp 1000000000 then "$" ++ toFixed 1 (div gdp 1000000000) ++ " billion"
  else if ge gdp 1000000 then "$" ++ toFixed 0 (div gdp 1000000) ++ " million"
  else "$" ++ toLocaleString gdp.

(** ** Randomness and array helpers *)

(** The draws [Math.random] will deliver, in order. *)
Definition rng : Type := nat -> nat.

(** [Math.floor(Math.random() * n)]: an index below [n] ([0] when [n] is
    [0]), and the remaining draws. *)
Definition random (n : nat) (g : rng) : nat * rng :=
  (match n with O => O | _ => Nat.modulo (g O) n end, fun k => g (S k)).

Section Arrays.
Context {A : Type}.

(** [xs[i] = v] for an index within the array. *)
Fixpoint set_nth (i : nat) (v : A) (xs : list A) : list A :=
  match xs, i with
  | [], _ => []
  | _ :: r, O => v :: r
  | x :: r, S j => x :: set_nth j v r
  end.

(** The array left by [xs.splice(i, 1)]. *)
Definition remove_nth (i : nat) (xs : list A) : list A :=
  firstn i xs ++ skipn (S i) xs.

(** [[xs[i], xs[j]] = [xs[j], xs[i]]] *)
Definition swap (i j : nat) (xs : list A) : list A :=
  match nth_error xs i, nth_error xs j with
  | Some x, Some y => set_nth j x (set_nth i y xs)
  | _, _ => xs
  end.

(** The loop of [shuffleArray], [i] running down to [1]; the index [j] is
    drawn below [i + 1], so that [j = i] leaves the entry in place. *)
Fixpoint shuffle_from (i : nat) (xs : list A) (g : rng) : list A * rng :=
  match i with
  | O => (xs, g)
  | S i' =>
      let (j, g') := random (S i' + 1) g in
      shuffle_from i' (swap (S i') j xs) g'
  end.

Definition shuffleArray (array : list A) (g : rng) : list A * rng :=
  shuffle_from (List.length array - 1) array g.
End Arrays.

(** [[...new Set(xs)]]: first occurrences, in order. *)
Definition dedupe (xs : list value) : list value :=
  fold_left (fun seen x => if includes x seen then seen else seen ++ [x]) xs [].

(** The sampling loop the capital, currency, language and timezone
    generators share:
    [while (options.length < 4 && others.length > 0) {
       idx = random index; x = others.splice(idx, 1)[0];
       if (!options.includes(x)) options.push(x) }].
    Every turn shortens [others], so [length others] turns are enough. *)
Fixpoint sample_loop (turns : nat) (options others : list value) (g : rng)
  : list value * rng :=
  match turns with
  | O => (options, g)
  | S t =>
      if Nat.ltb (List.length options) 4 && Nat.ltb 0 (List.length others) then
        let (idx, g') := random (List.length others) g in
        let x := nth idx others Undefined in
        sample_loop t (if includes x options then options else options ++ [x])
                    (remove_nth idx others) g'
      else (options, g)
  end.

Definition sample_distinct (options others : list value) (g : rng)
  : list value * rng :=
  sample_loop (List.length others) options others g.

(** ** Question generation *)

Inductive category : Type :=
| Population | Area | GDP | Capital | Currency | Languages | Timezone | Flag.

Definition questionTypes : list category :=
  [Population; Area; GDP; Capital; Currency; Languages; Timezone; Flag].

Record Question : Type := {
  type : category;
  question : string;
  correctAnswer : value;
  options : list value;
  explanation : string;
  media : option (list value);
  country : string
}.

(** How a call ends: with a result, with a [TypeError], or still inside the
    fallback loop of the timezone generator when the turns granted to it
    are used up. *)
Inductive outcome (A : Type) : Type :=
| Done (a : A)
| Raised
| Unfinished.
Arguments Done {A} a.
Arguments Raised {A}.
Arguments Unfinished {A}.

Definition commonLanguages : list string :=
  ["English"; "Spanish"; "French"; "Arabic"; "Hindi"; "Bengali"; "Portuguese";
   "Russian"; "German"; "Japanese"; "Turkish"; "Italian"; "Korean";
   "Vietnamese"; "Urdu"; "Persian"].

Definition commonTimezones : list string :=
  ["UTC"; "UTC+01:00"; "UTC+02:00"; "UTC+03:00"; "UTC+04:00"; "UTC+05:00";
   "UTC+05:30"; "UTC+06:00"; "UTC+07:00"; "UTC+08:00"; "UTC+09:00"; "UTC+10:00";
   "UTC-05:00"; "UTC-04:00"; "UTC-03:00"; "UTC-06:00"; "UTC-07:00"; "UTC-08:00";
   "America/New_York"; "America/Chicago"; "America/Denver"; "America/Los_Angeles";
   "Europe/London"; "Europe/Paris"; "Europe/Berlin"; "Europe/Moscow";
   "Asia/Tokyo"; "Asia/Shanghai"; "Asia/Dubai"; "Asia/Kolkata";
   "Australia/Sydney"; "Pacific/Auckland"].

Section Generators.
(** [this.difficulty] *)
Variable difficulty : string.

Definition by_difficulty (easy medium hard : list Q) : list Q :=
  if String.eqb difficulty "easy" then easy
  else if String.eqb difficulty "medium" then medium
  else hard.

Definition generatePopulationOptions (correctPop : number) (pool : list CountryRecord)
  : list value :=
  let multipliers := by_difficulty [1 # 2; 2; 5]%Q [7 # 10; 3 # 2; 3]%Q
                                   [85 # 100; 115 # 100; 14 # 10]%Q in
  [Str (formatPopulation correctPop)]
  ++ map (fun mult => Str (formatPopulation (Math_floor (mul correctPop mult))))
         multipliers.

Definition generateAreaOptions (correctArea : number) (pool : list CountryRecord)
  : list value :=
  let multipliers := by_difficulty [4 # 10; 5 # 2; 6]%Q [6 # 10; 17 # 10; 7 # 2]%Q
                                   [8 # 10; 12 # 10; 16 # 10]%Q in
  [Str (formatArea correctArea)]
  ++ map (fun mult => Str (formatArea (Math_floor (mul correctArea mult))))
         multipliers.

Definition generateGDPOptions (correctGDP : number) (pool : list CountryRecord)
  : list value :=
  let multipliers := by_difficulty [3 # 10; 2; 7]%Q [1 # 2; 18 # 10; 4]%Q
                                   [75 # 100; 125 # 100; 19 # 10]%Q in
  [Str (formatGDP correctGDP)]
  ++ map (fun mult => Str (formatGDP (Math_floor (mul correctGDP mult))))
         multipliers.

(** [c.name !== country.name] *)
Definition other_than (subject c : CountryRecord) : bool :=
  negb (String.eqb (name c) (name subject)).

Definition generateCapitalOptions (subject : CountryRecord)
  (pool : list CountryRecord) (g : rng) : list value * rng :=
  let otherCapitals :=
    map capital
        (filter (fun c => other_than subject c
                          && negb (strict_eq (capital c) (Str "N/A"))) pool) in
  sample_distinct [capital subject] otherCapitals g.

Definition generateCurrencyOptions (subject : CountryRecord)
  (pool : list CountryRecord) (g : rng) : list value * rng :=
  let otherCurrencies :=
    flat_map currencies
        (filter (fun c => other_than subject c
                          && Nat.ltb 0 (List.length (currencies c))) pool) in
  sample_distinct [first (currencies subject)] (map Str otherCurrencies) g.

(** The padding loop of the language generator:
    [while (options.length < 4 && i < common.length) { l = common[i++]; ... }],
    [rest] being the part of [common] from index [i] on. *)
Fixpoint pad_common (correct : value) (options : list value) (rest : list string)
  : list value :=
  match rest with
  | [] => options
  | l :: rest' =>
      if Nat.ltb (List.length options) 4 then
        pad_common correct
          (if negb (strict_eq (Str l) correct) && negb (includes (Str l) options)
           then options ++ [Str l] else options)
          rest'
      else options
  end.

Definition generateLanguageOptions (subject : CountryRecord)
  (pool : list CountryRecord) (g : rng) : list value * rng :=
  let correct := or_default (first (languages subject)) "Unknown" in
  let options := if negb (strict_eq correct (Str "Unknown")) then [correct] else [] in
  let otherLanguages :=
    filter (fun l => nonempty l && negb (String.eqb l "Unknown"))
      (flat_map languages
         (filter (fun c => other_than subject c
                           && Nat.ltb 0 (List.length (languages c))) pool)) in
  let languagePool :=
    filter (fun l => negb (strict_eq l correct))
           (dedupe (map Str (otherLanguages ++ commonLanguages))) in
  let (picked, g') := sample_distinct options languagePool g in
  let padded := pad_common correct picked commonLanguages in
  (if strict_eq correct (Str "Unknown")
      && Nat.ltb 0 (List.length padded)
      && negb (includes (Str "English") padded)
   then set_nth 0 (Str "English") padded
   else padded,
   g').

(** The last loop of the timezone generator, which has no bound of its
    own: [while (options.length < 4) { fallback = `UTC+${random(12)}:00`; ... }]. *)
Fixpoint fallback_loop (turns : nat) (options : list value) (g : rng)
  : outcome (list value * rng) :=
  if Nat.ltb (List.length options) 4 then
    match turns with
    | O => Unfinished
    | S t =>
        let (k, g') := random 12 g in
        let fallback := Str ("UTC+" ++ digits_of_N (N.of_nat k) ++ ":00") in
        fallback_loop t (if includes fallback options then options
                         else options ++ [fallback]) g'
    end
  else Done (options, g).

(** [turns]: how many turns the fallback loop is granted. *)
Definition generateTimezoneOptions (turns : nat) (subject : CountryRecord)
  (pool : list CountryRecord) (g : rng) : outcome (list value * rng) :=
  let otherTimezones :=
    flat_map timezones
      (filter (fun c => other_than subject c
                        && Nat.ltb 0 (List.length (timezones c))) pool) in
  let allTimezones := dedupe (map Str (otherTimezones ++ commonTimezones)) in
  let (picked, g') := sample_distinct [first (timezones subject)] allTimezones g in
  fallback_loop turns picked g'.

(** The loop of the flag generator, which pushes without looking for
    duplicates.  ([idx] is below the length of [others], so the entry
    read at [idx] exists.) *)
Fixpoint flag_loop (turns : nat) (options : list value)
  (others : list CountryRecord) (g : rng) : list value * rng :=
  match turns with
  | O => (options, g)
  | S t =>
      if Nat.ltb (List.length options) 4 && Nat.ltb 0 (List.length others) then
        let (idx, g') := random (List.length others) g in
        match nth_error others idx with
        | Some other =>
            flag_loop t (options ++ [FlagOption (name other) (flag other) (flagAlt other)])
                      (remove_nth idx others) g'
        | None => (options, g)
        end
      else (options, g)
  end.

Definition generateFlagOptions (subject : CountryRecord)
  (pool : list CountryRecord) (g : rng) : list value * rng :=
  let otherCountries :=
    filter (fun c => other_than subject c && nonempty (flag c)) pool in
  flag_loop (List.length otherCountries)
    [FlagOption (name subject) (flag subject) (flagAlt subject)]
    otherCountries g.

(** The [switch] of [generateMultipleChoiceQuestion]: question text,
    correct answer, unshuffled options, explanation and media. *)
Definition build (turns : nat) (ty : category) (subject : CountryRecord)
  (pool : list CountryRecord) (g : rng)
  : outcome (string * value * list value * string * option (list value) * rng) :=
  match ty with
  | Population =>
      let correctAnswer := formatPopulation (population subject) in
      Done (("What is the approximate population of " ++ name subject ++ "?")%string,
            Str correctAnswer,
            generatePopulationOptions (population subject) pool,
            (name subject ++ " has a population of approximately "
              ++ correctAnswer ++ ".")%string,
            None, g)
  | Area =>
      let correctAnswer := formatArea (area subject) in
      Done (("What is the total land area of " ++ name subject
              ++ " in square kilometers?")%string,
            Str correctAnswer,
            generateAreaOptions (area subject) pool,
            (name subject ++ " has a total area of " ++ correctAnswer ++ ".")%string,
            None, g)
  | GDP =>
      let correctAnswer := formatGDP (mul (population subject) 15000) in
      Done (("What is the approximate GDP of " ++ name subject ++ "?")%string,
            Str correctAnswer,
            generateGDPOptions (mul (population subject) 15000) pool,
            (name subject ++ " has an estimated GDP of approximately "
              ++ correctAnswer ++ ".")%string,
            None, g)
  | Capital =>
      let correctAnswer := capital subject in
      let (options, g') := generateCapitalOptions subject pool g in
      Done (("What is the capital city of " ++ name subject ++ "?")%string,
            correctAnswer, options,
            ("The capital of " ++ name subject ++ " is "
              ++ to_text correctAnswer ++ ".")%string,
            None, g')
  | Currency =>
      let correctAnswer := or_default (first (currencies subject)) "Unknown" in
      let (options, g') := generateCurrencyOptions subject pool g in
      Done (("What currency is used in " ++ name subject ++ "?")%string,
            correctAnswer, options,
            (name subject ++ " uses " ++ to_text correctAnswer ++ ".")%string,
            None, g')
  | Languages =>
      let correctAnswer := or_default (first (languages subject)) "Unknown" in
      let (options, g') := generateLanguageOptions subject pool g in
      Done (("Which languages are spoken in " ++ name subject ++ "?")%string,
            correctAnswer, options,
            (to_text correctAnswer
              ++ " is one of the official languages spoken in "
              ++ name subject ++ ".")%string,
            None, g')
  | Timezone =>
      let correctAnswer := first (timezones subject) in
      match generateTimezoneOptions turns subject pool g with
      | Done (options, g') =>
          Done (("What is the time zone of " ++ name subject ++ "?")%string,
                correctAnswer, options,
                ("The time zone of " ++ name subject ++ " is "
                  ++ to_text correctAnswer ++ ".")%string,
                None, g')
      | Raised => Raised
      | Unfinished => Unfinished
      end
  | Flag =>
      let (options, g') := generateFlagOptions subject pool g in
      Done (("What does the flag of " ++ name subject ++ " look like?")%string,
            Str (flag subject), options,
            ("This is what the flag of " ++ name subject ++ " looks like.")%string,
            Some options, g')
  end.

(** [pool[Math.floor(Math.random() * pool.length)]]; reading a property
    of the [undefined] an empty pool yields raises. *)
Definition generateMultipleChoiceQuestion (turns : nat) (ty : category)
  (pool : list CountryRecord) (g : rng) : outcome (Question * rng) :=
  let (idx, g1) := random (List.length pool) g in
  match nth_error pool idx with
  | None => Raised
  | Some subject =>
      match build turns ty subject pool g1 with
      | Done (question, correctAnswer, options, explanation, media, g2) =>
          let (shuffled, g3) := shuffleArray options g2 in
          Done ({| type := ty;
                   question := question;
                   correctAnswer := correctAnswer;
                   options := shuffled;
                   explanation := explanation;
                   media := media;
                   country := name subject |}, g3)
      | Raised => Raised
      | Unfinished => Unfinished
      end
  end.
End Generators.

(** ** Session engine *)

(** The fields of a [QuizEngine] that change or are read by the engine's
    methods.  Counters are JavaScript numbers holding integers. *)
Record Engine : Type := {
  countries : list CountryRecord;
  currentQuestion : option Question;
  score : Z;
  wrong : Z;
  streak : Z;
  questionNumber : Z;
  totalQuestions : Z;
  difficulty : string;
  answeredCurrentQuestion : bool
}.

(** The state the constructor leaves. *)
Definition new_engine : Engine := {|
  countries := [];
  currentQuestion := None;
  score := 0;
  wrong := 0;
  streak := 0;
  questionNumber := 0;
  totalQuestions := 10;
  difficulty := "easy";
  answeredCurrentQuestion := false
|}.

(** What [this.difficultySettings[level]] evaluates to: one of the three
    entries of the object literal, a member inherited from
    [Object.prototype] (a function or an object, hence truthy, with neither
    a [countries] nor a [popularOnly] property), or [undefined] ([None]). *)
Inductive setting : Type :=
| Own (cap : nat) (popularOnly : bool)
| Inherited.

Definition Object_prototype_names : list string :=
  ["constructor"; "hasOwnProperty"; "isPrototypeOf"; "propertyIsEnumerable";
   "toLocaleString"; "toString"; "valueOf"; "__proto__";
   "__defineGetter__"; "__defineSetter__"; "__lookupGetter__"; "__lookupSetter__"].

Definition difficultySettings (level : string) : option setting :=
  if String.eqb level "easy" then Some (Own 30 true)
  else if String.eqb level "medium" then Some (Own 100 false)
  else if String.eqb level "hard" then Some (Own 200 false)
  else if existsb (String.eqb level) Object_prototype_names then Some Inherited
  else None.

(** How a method call ends: it returns a value and leaves a state, it
    throws leaving a state, or it is still running (see [outcome]). *)
Inductive effect (A : Type) : Type :=
| Returns (a : A) (s : Engine)
| Throws (s : Engine)
| Hangs.
Arguments Returns {A} a s.
Arguments Throws {A} s.
Arguments Hangs {A}.

(** [slice(0, 50)] and [slice(0, settings.countries)]; with an inherited
    member for [settings], [popularOnly] is [undefined] and
    [slice(0, undefined)] copies the whole array.  [Raised]: property read
    on an [undefined] [settings]. *)
Definition getCountriesForDifficulty (s : Engine) : outcome (list CountryRecord) :=
  match difficultySettings (difficulty s) with
  | None => Raised
  | Some (Own cap popularOnly) =>
      let pool := if popularOnly then firstn 50 (countries s) else countries s in
      Done (firstn cap pool)
  | Some Inherited => Done (countries s)
  end.

Definition generateQuestion (turns : nat) (s : Engine) (g : rng)
  : outcome (Question * rng) :=
  let (idx, g1) := random (List.length questionTypes) g in
  let ty := nth idx questionTypes Population in
  match getCountriesForDifficulty s with
  | Done pool => generateMultipleChoiceQuestion (difficulty s) turns ty pool g1
  | Raised => Raised
  | Unfinished => Unfinished
  end.

Record AnswerResult : Type := {
  isCorrect : bool;
  result_streak : Z;
  result_explanation : string
}.

Definition checkAnswer (userAnswer : value) (s : Engine) : effect AnswerResult :=
  match currentQuestion s with
  | None => Throws s
  | Some q =>
      let isCorrect := strict_eq userAnswer (correctAnswer q) in
      let '(score', wrong', streak') :=
        if isCorrect then
          let score1 := (score s + 1)%Z in
          let streak1 := (streak s + 1)%Z in
          (if (3 <=? streak1)%Z && (Z.rem streak1 3 =? 0)%Z
           then (score1 + 1)%Z else score1,
           wrong s, streak1)
        else (score s, (wrong s + 1)%Z, 0%Z) in
      Returns {| isCorrect := isCorrect;
                 result_streak := streak';
                 result_explanation := explanation q |}
              {| countries := countries s;
                 currentQuestion := currentQuestion s;
                 score := score';
                 wrong := wrong';
                 streak := streak';
                 questionNumber := questionNumber s;
                 totalQuestions := totalQuestions s;
                 difficulty := difficulty s;
                 answeredCurrentQuestion := true |}
  end.

(** [null] is [None].  The counter is incremented before the question is
    generated, so a throw of the generator leaves it incremented. *)
Definition nextQuestion (turns : nat) (s : Engine) (g : rng)
  : effect (option Question * rng) :=
  if (totalQuestions s <=? questionNumber s)%Z then Returns (None, g) s
  else
    let s1 := {| countries := countries s;
                 currentQuestion := currentQuestion s;
                 score := score s;
                 wrong := wrong s;
                 streak := streak s;
                 questionNumber := questionNumber s + 1;
                 totalQuestions := totalQuestions s;
                 difficulty := difficulty s;
                 answeredCurrentQuestion := answeredCurrentQuestion s |} in
    match generateQuestion turns s1 g with
    | Done (q, g') =>
        Returns (Some q, g')
                {| countries := countries s1;
                   currentQuestion := Some q;
                   score := score s1;
                   wrong := wrong s1;
                   streak := streak s1;
                   questionNumber := questionNumber s1;
                   totalQuestions := totalQuestions s1;
                   difficulty := difficulty s1;
                   answeredCurrentQuestion := false |}
    | Raised => Throws s1
    | Unfinished => Hangs
    end.

Record Stats : Type := {
  stats_score : Z;
  stats_wrong : Z;
  stats_streak : Z;
  stats_questionNumber : Z;
  stats_totalQuestions : Z;
  percentage : number
}.

(** [Math.round((score / questionNumber) * 100) || 0] *)
Definition getStats (s : Engine) : Stats := {|
  stats_score := score s;
  stats_wrong := wrong s;
  stats_streak := streak s;
  stats_questionNumber := questionNumber s;
  stats_totalQuestions := totalQuestions s;
  percentage :=
    let ratio :=
      if (questionNumber s =? 0)%Z then
        (if (score s =? 0)%Z then NaN
         else if (0 <? score s)%Z then PosInf else NegInf)
      else Fin (Qmake (score s) 1 / Qmake (questionNumber s) 1)%Q in
    or_else (Math_round (mul ratio 100)) (of_Z 0)
|}.

Definition reset (s : Engine) : Engine := {|
  countries := countries s;
  currentQuestion := None;
  score := 0;
  wrong := 0;
  streak := 0;
  questionNumber := 0;
  totalQuestions := totalQuestions s;
  difficulty := difficulty s;
  answeredCurrentQuestion := false
|}.

Definition setDifficulty (level : string) (s : Engine) : Engine :=
  match difficultySettings level with
  | Some _ =>
      reset {| countries := countries s;
               currentQuestion := currentQuestion s;
               score := score s;
               wrong := wrong s;
               streak := streak s;
               questionNumber := questionNumber s;
               totalQuestions := totalQuestions s;
               difficulty := level;
               answeredCurrentQuestion := answeredCurrentQuestion s |}
  | None => s
  end.

(** ** Sessions *)

(** Any number of [nextQuestion] calls that return. *)
Inductive advances : Engine -> Engine -> Prop :=
| advances_none (s : Engine) : advances s s
| advances_next (turns : nat) (s s1 s2 : Engine) (g : rng) (r : option Question * rng) :
    nextQuestion turns s g = Returns r s1 ->
    advances s1 s2 ->
    advances s s2.

(** [correct_answers n s s']: from [s], [n] consecutive answers were
    checked, each equal to the correct answer of the question current at
    that moment, with questions requested in between as the caller likes;
    [s'] is the state after the last check. *)
Inductive correct_answers : nat -> Engine -> Engine -> Prop :=
| correct_none (s : Engine) : correct_answers 0 s s
| correct_more (n : nat) (s s1 s2 s3 : Engine) (q : Question) (r : AnswerResult) :
    correct_answers n s s1 ->
    advances s1 s2 ->
    currentQuestion s2 = Some q ->
    checkAnswer (correctAnswer q) s2 = Returns r s3 ->
    correct_answers (S n) s s3.

(** [asked n s s']: from [s], [n] calls of [nextQuestion] returned a
    question, with answers checked in between as the caller likes. *)
Inductive asked : nat -> Engine -> Engine -> Prop :=
| asked_none (s : Engine) : asked 0 s s
| asked_next (n turns : nat) (s s1 s2 : Engine) (g g' : rng) (q : Question) :
    asked n s s1 ->
    nextQuestion turns s1 g = Returns (Some q, g') s2 ->
    asked (S n) s s2
| asked_check (n : nat) (s s1 s2 : Engine) (v : value) (r : AnswerResult) :
    asked n s s1 ->
    checkAnswer v s1 = Returns r s2 ->
    asked n s s2.

(** [n] rounds of the caller's loop: request a question, answer it
    correctly. *)
Fixpoint play_correctly (n turns : nat) (s : Engine) (g : rng) : option (Engine * rng) :=
  match n with
  | O => Some (s, g)
  | S k =>
      match play_correctly k turns s g with
      | Some (s1, g1) =>
          match nextQuestion turns s1 g1 with
          | Returns (Some q, g2) s2 =>
              match checkAnswer (correctAnswer q) s2 with
              | Returns _ s3 => Some (s3, g2)
              | _ => None
              end
          | _ => None
          end
      | None => None
      end
  end.

(** [n] requests for a question, each of which returns one. *)
Fixpoint ask (n turns : nat) (s : Engine) (g : rng) : option (Engine * rng) :=
  match n with
  | O => Some (s, g)
  | S k =>
      match ask k turns s g with
      | Some (s1, g1) =>
          match nextQuestion turns s1 g1 with
          | Returns (Some _, g2) s2 => Some (s2, g2)
          | _ => None
          end
      | None => None
      end
  end.

(** [0 <= questionNumber <= totalQuestions] *)
Definition index_in_range (s : Engine) : Prop :=
  (0 <= questionNumber s <= totalQuestions s)%Z.

(** What a method leaves of the fields [checkAnswer] has no business with. *)
Definition same_session_frame (s s' : Engine) : Prop :=
  difficulty s' = difficulty s
  /\ questionNumber s' = questionNumber s
  /\ totalQuestions s' = totalQuestions s
  /\ countries s' = countries s
  /\ currentQuestion s' = currentQuestion s.

(** ** Stated properties of generated questions and pools *)


(** What the code guarantees of the options of a question of category
    [ty] about [subject], [correct] being the stored correct answer:
    - timezone: the correct answer is the subject's first timezone, and the
      option-set invariant holds;
    - languages: the correct answer is the subject's first language, or
      "Unknown" without one, and in the first case the invariant holds;
    - capital and currency: between one and four pairwise distinct
      options, the subject's capital (first currency entry) among them
      exactly once; it is the correct answer for a capital, and for a
      currency unless the entry is missing or empty, when the correct
      answer is "Unknown";
    - population, area and GDP: four options, the correct answer among them;
    - flag: between one and four options, all of them objects, the
      subject's among them; the correct answer is the subject's flag
      reference. *)
Definition is_option_object (v : value) : Prop :=
  exists n f a, v = FlagOption n f a.

Definition options_contract (ty : category) (subject : CountryRecord)
  (correct : value) (opts : list value) : Prop :=
  match ty with
  | Timezone =>
      correct = first (timezones subject)
      /\ List.length opts = 4 /\ NoDup opts
      /\ count_occ value_eq_dec opts correct = 1
  | Languages =>
      correct = or_default (first (languages subject)) "Unknown"
      /\ (correct <> Str "Unknown" ->
          List.length opts = 4 /\ NoDup opts
          /\ count_occ value_eq_dec opts correct = 1)
  | Capital =>
      correct = capital subject
      /\ 1 <= List.length opts <= 4 /\ NoDup opts
      /\ count_occ value_eq_dec opts correct = 1
  | Currency =>
      correct = or_default (first (currencies subject)) "Unknown"
      /\ 1 <= List.length opts <= 4 /\ NoDup opts
      /\ count_occ value_eq_dec opts (first (currencies subject)) = 1
  | Population | Area | GDP =>
      List.length opts = 4 /\ In correct opts
  | Flag =>
      correct = Str (flag subject)
      /\ 1 <= List.length opts <= 4
      /\ Forall is_option_object opts
      /\ In (FlagOption (name subject) (flag subject) (flagAlt subject)) opts
  end.

(** The difficulty caps of the specification. *)
Definition difficulty_caps : list (string * nat) :=
  [("easy", 30); ("medium", 100); ("hard", 200)].

(** ** Measures used to reason about the sampling loops *)

(** How many entries of [others] the options do not hold yet. *)
Definition fresh (options others : list value) : nat :=
  List.length (filter (fun x => negb (includes x options)) others).

(** Pairwise distinctness, decided. *)
Fixpoint distinctb (xs : list value) : bool :=
  match xs with
  | [] => true
  | x :: r => negb (includes x r) && distinctb r
  end.

(** ** Sample data *)

(** Entries of the bulk source: one complete, one that omits languages,
    currencies and timezones. *)
Definition rest_france : RestCountry := {|
  r_common := "France";
  r_capital := Some ["Paris"];
  r_population := Some (of_Z 67391582);
  r_area := Some (of_Z 551695);
  r_region := Some "Europe";
  r_languages := Some [("fra", "French")];
  r_currencies := Some [("EUR", {| c_name := "Euro"; c_symbol := "E" |})];
  r_timezones := Some ["UTC+01:00"];
  r_flags := Some {| png := Some "https://flagcdn.com/w320/fr.png";
                     svg := None; alt := None |}
|}.

Definition rest_bare : RestCountry := {|
  r_common := "Bouvet Island";
  r_capital := None;
  r_population := Some (of_Z 12);
  r_area := Some (of_Z 49);
  r_region := Some "Antarctic";
  r_languages := None;
  r_currencies := None;
  r_timezones := None;
  r_flags := None
|}.

(** Rows of the primary source. *)
Definition ninja_japan : NinjaCountry := {|
  n_name := Some "Japan";
  n_capital := Some "Tokyo";
  n_population := JNumber (Fin (1264765 # 10)%Q);
  n_surface_area := Some (of_Z 377930);
  n_region := Some "Eastern Asia";
  n_currency := CurrencyObject (Some "Yen");
  n_gdp := Some (of_Z 4971323);
  n_languages := LanguagesOther;
  n_timezone := None
|}.

Definition sample_country (n cap : string) (pop ar : Z) : CountryRecord := {|
  name := n;
  capital := Str cap;
  population := of_Z pop;
  area := of_Z ar;
  region := "Europe";
  currencies := ["Euro"];
  gdp := of_Z 0;
  languages := [n];
  timezones := ["UTC+01:00"];
  flag := "https://flagcdn.com/w320/" ++ getCountryCode n ++ ".png";
  flagAlt := "Flag of " ++ n;
  popularity := of_Z pop
|}.

Definition sample_countries : list CountryRecord :=
  [sample_country "Germany" "Berlin" 83240525 357114;
   sample_country "France" "Paris" 67391582 551695;
   sample_country "Italy" "Rome" 59554023 301336;
   sample_country "Spain" "Madrid" 47351567 505992;
   sample_country "Poland" "Warsaw" 37950802 312679].

(** A session that has just loaded its countries. *)
Definition sample_engine : Engine := {|
  countries := sample_countries;
  currentQuestion := None;
  score := 0;
  wrong := 0;
  streak := 0;
  questionNumber := 0;
  totalQuestions := 10;
  difficulty := "easy";
  answeredCurrentQuestion := false
|}.

Definition sample_rng : rng := fun k => 7 * k + 3.

(** A session after a few answers, with a question pending. *)
Definition sample_question : Question := {|
  type := Capital;
  question := "What is the capital city of France?";
  correctAnswer := Str "Paris";
  options := [Str "Rome"; Str "Paris"; Str "Berlin"; Str "Madrid"];
  explanation := "The capital of France is Paris.";
  media := None;
  country := "France"
|}.

Definition engine_in_progress : Engine := {|
  countries := sample_countries;
  currentQuestion := Some sample_question;
  score := 5;
  wrong := 1;
  streak := 2;
  questionNumber := 6;
  totalQuestions := 10;
  difficulty := "medium";
  answeredCurrentQuestion := false
|}.

(** 120 loaded countries. *)
Definition many_countries : list CountryRecord :=
  map (fun k => sample_country ("Country " ++ digits_of_N (N.of_nat k)) "Capital"
                               (1000000 - Z.of_nat k)%Z 1000)
      (seq 1 120).

Definition engine_with (level : string) (cs : list CountryRecord) : Engine := {|
  countries := cs;
  currentQuestion := None;
  score := 0;
  wrong := 0;
  streak := 0;
  questionNumber := 0;
  totalQuestions := 10;
  difficulty := level;
  answeredCurrentQuestion := false
|}.



(** Countries with currencies of their own. *)
Definition with_currency (cur : string) (c : CountryRecord) : CountryRecord := {|
  name := name c;
  capital := capital c;
  population := population c;
  area := area c;
  region := region c;
  currencies := [cur];
  gdp := gdp c;
  languages := languages c;
  timezones := timezones c;
  flag := flag c;
  flagAlt := flagAlt c;
  popularity := popularity c
|}.

Definition money_pool : list CountryRecord :=
  [with_currency "Yen" (sample_country "Japan" "Tokyo" 125800000 377975);
   with_currency "Pound sterling"
     (sample_country "United Kingdom" "London" 67220000 242495);
   sample_country "France" "Paris" 67391582 551695;
   with_currency "Swiss franc" (sample_country "Switzerland" "Bern" 8637000 41284);
   with_currency "Zloty" (sample_country "Poland" "Warsaw" 37950802 312679)].

(** ** Quantities the further properties speak of *)

(** The random source after [n] draws. *)
Definition drop_draws (n : nat) (g : rng) : rng := fun k => g (n + k).

(** How many distinct values [others] has to offer beyond [options]. *)
Definition supply (options others : list value) : nat :=
  fresh options (dedupe others).

(** The arrays the capital, currency and flag generators sample from. *)
Definition otherCapitals (subject : CountryRecord) (pool : list CountryRecord)
  : list value :=
  map capital
      (filter (fun c => other_than subject c
                        && negb (strict_eq (capital c) (Str "N/A"))) pool).

Definition otherCurrencies (subject : CountryRecord) (pool : list CountryRecord)
  : list value :=
  map Str
      (flat_map currencies
         (filter (fun c => other_than subject c
                           && Nat.ltb 0 (List.length (currencies c))) pool)).

Definition otherCountries (subject : CountryRecord) (pool : list CountryRecord)
  : list CountryRecord :=
  filter (fun c => other_than subject c && nonempty (flag c)) pool.

(** The array the timezone generator samples from. *)
Definition allTimezones (subject : CountryRecord) (pool : list CountryRecord)
  : list value :=
  dedupe
    (map Str
       (flat_map timezones
          (filter (fun c => other_than subject c
                            && Nat.ltb 0 (List.length (timezones c))) pool)
        ++ commonTimezones)).

(** [item.flag] of an option of a flag question. *)
Definition option_flag (o : value) : value :=
  match o with
  | FlagOption _ f _ => Str f
  | _ => Undefined
  end.

(** The option object built from a country. *)
Definition flag_option (c : CountryRecord) : value :=
  FlagOption (name c) (flag c) (flagAlt c).

(** The flag reference [mapNinjaCountry] builds for a requested name. *)
Definition flag_url (countryName : string) : string :=
  ("https://flagcdn.com/w320/" ++ getCountryCode countryName ++ ".png")%string.

(** ** Loading the countries ([init]) *)

Definition ENABLE_NINJA_API : bool := true.
Definition NINJA_RATE_DELAY_MS : nat := 1100.
Definition NINJA_MAX_INITIAL : nat := 10.

(** The candidate names [init] draws its requests from. *)
Definition countryList : list string :=
  ["United States"; "China"; "India"; "Brazil"; "Russia";
   "Japan"; "Germany"; "United Kingdom"; "France"; "Italy";
   "Canada"; "South Korea"; "Spain"; "Australia"; "Mexico";
   "Indonesia"; "Netherlands"; "Saudi Arabia"; "Turkey"; "Switzerland";
   "Poland"; "Belgium"; "Sweden"; "Argentina"; "Norway";
   "Austria"; "United Arab Emirates"; "Ireland"; "Israel"; "Singapore";
   "Denmark"; "South Africa"; "Egypt"; "Philippines"; "Pakistan";
   "Vietnam"; "Bangladesh"; "Chile"; "Colombia"; "Finland";
   "Portugal"; "Greece"; "New Zealand"; "Peru"; "Czech Republic";
   "Romania"; "Iraq"; "Qatar"; "Kazakhstan"; "Hungary";
   "Kuwait"; "Morocco"; "Ukraine"; "Ethiopia"; "Kenya";
   "Ecuador"; "Guatemala"; "Tanzania"; "Panama"; "Croatia";
   "Lithuania"; "Slovenia"; "Serbia"; "Ghana"; "Tunisia";
   "Bolivia"; "Paraguay"; "Uganda"; "Latvia"; "Estonia";
   "Nepal"; "Iceland"; "Cambodia"; "Cyprus"; "Zimbabwe";
   "Zambia"; "Albania"; "Mozambique"; "Jamaica"; "Malta";
   "Mongolia"; "Armenia"; "Nicaragua"].

(** What awaiting a request and its JSON body gives: the request or the
    reading of the body threw, the response was not ok, or the body. *)
Inductive fetched (A : Type) : Type :=
| Rejected
| NotOk (status : nat)
| Body (data : A).
Arguments Rejected {A}.
Arguments NotOk {A} status.
Arguments Body {A} data.

(** The two sources as [init] sees them: the answer of the primary source
    to the request for a country name, and the answer of the bulk source
    to the first, second, ... request made to it. *)
Record Sources : Type := {
  ninja : string -> fetched ninja_data;
  restCountries : nat -> fetched (list RestCountry)
}.

(** What [init] does that can be observed from outside, in order: the
    progress events it dispatches, the requests it sends and the pauses it
    awaits.  (Console output is left out.) *)
Inductive event : Type :=
| Progress (current total : nat)
| NinjaRequest (countryName : string)
| RestRequest
| Sleep (ms : nat).

(** [x - y] on numbers. *)
Definition minus (x y : number) : number :=
  match x, y with
  | NaN, _ | _, NaN => NaN
  | PosInf, PosInf | NegInf, NegInf => NaN
  | PosInf, _ => PosInf
  | NegInf, _ => NegInf
  | Fin _, PosInf => NegInf
  | Fin _, NegInf => PosInf
  | Fin a, Fin b => Fin (a - b)%Q
  end.

(** The comparator [(a, b) => b.popularity - a.popularity]. *)
Definition byPopularity (a b : CountryRecord) : number :=
  minus (popularity b) (popularity a).

(** [array.sort(comparator)].  The sort of the language is stable, and for
    a consistent comparator (as [byPopularity] is on finite popularities)
    its result is the one of this insertion sort: an element goes behind
    those the comparator puts strictly before it and stays ahead of the
    later elements it ties with.  For an inconsistent comparator the
    language leaves the order to the implementation. *)
Fixpoint insert_by (comparator : CountryRecord -> CountryRecord -> number)
  (a : CountryRecord) (sorted : list CountryRecord) : list CountryRecord :=
  match sorted with
  | [] => [a]
  | b :: rest =>
      if gt (comparator a b) 0 then b :: insert_by comparator a rest
      else a :: b :: rest
  end.

Definition sort (comparator : CountryRecord -> CountryRecord -> number)
  (array : list CountryRecord) : list CountryRecord :=
  fold_right (insert_by comparator) [] array.

(** The [for] loop of [init] from index [i] on, [subset] being the names
    still to request: a request, the record pushed when the answer maps to
    one (any failure is skipped), the progress event, and the pause unless
    the name is the last. *)
Fixpoint ninja_loop (sources : Sources) (i total : nat) (subset : list string)
  (countries : list CountryRecord) (trace : list event)
  : list CountryRecord * list event :=
  match subset with
  | [] => (countries, trace)
  | countryName :: rest =>
      let countries' :=
        match ninja sources countryName with
        | Body data =>
            match mapNinjaCountry data countryName with
            | Some mapped => countries ++ [mapped]
            | None => countries
            end
        | _ => countries
        end in
      let pause := if Nat.ltb i (total - 1) then [Sleep NINJA_RATE_DELAY_MS] else [] in
      ninja_loop sources (S i) total rest countries'
                 (trace ++ [NinjaRequest countryName; Progress (i + 1) total] ++ pause)
  end.

(** What [init] leaves: its result, [this.countries], what it did, and the
    random source. *)
Record Loaded : Type := {
  success : bool;
  loaded : list CountryRecord;
  events : list event;
  draws : rng
}.

(** [await this.loadFromRestCountries()] inside the [try], then the sort;
    when the request throws, the [catch] block requests once more and
    returns without sorting.  [before] is [this.countries] at that point. *)
Definition rest_fallback (sources : Sources) (before : list CountryRecord)
  (trace : list event) (g : rng) : Loaded :=
  match restCountries sources 0 with
  | Body data =>
      {| success := true;
         loaded := sort byPopularity (loadFromRestCountries data);
         events := trace ++ [RestRequest];
         draws := g |}
  | _ =>
      match restCountries sources 1 with
      | Body data =>
          {| success := true;
             loaded := loadFromRestCountries data;
             events := trace ++ [RestRequest; RestRequest];
             draws := g |}
      | _ =>
          {| success := false;
             loaded := before;
             events := trace ++ [RestRequest; RestRequest];
             draws := g |}
      end
  end.

(** [init], for an engine whose [apiKey] and [countries] fields are
    [apiKey] and [before]. *)
Definition init (apiKey : string) (before : list CountryRecord)
  (sources : Sources) (g : rng) : Loaded :=
  if negb ENABLE_NINJA_API || negb (nonempty apiKey) then
    rest_fallback sources before [] g
  else
    let (shuffled, g') := shuffleArray countryList g in
    let subset := firstn NINJA_MAX_INITIAL shuffled in
    let total := List.length subset in
    let (countries, trace) :=
      ninja_loop sources 0 total subset [] [Progress 0 total] in
    match countries with
    | [] => rest_fallback sources [] trace g'
    | _ :: _ =>
        {| success := true;
           loaded := sort byPopularity countries;
           events := trace;
           draws := g' |}
    end.

(** The records the primary source yields for the names [subset], in
    request order. *)
Definition ninjaRecords (sources : Sources) (subset : list string)
  : list CountryRecord :=
  flat_map (fun countryName =>
              match ninja sources countryName with
              | Body data =>
                  match mapNinjaCountry data countryName with
                  | Some mapped => [mapped]
                  | None => []
                  end
              | _ => []
              end) subset.

(** Views of a trace. *)
Definition requested_names (trace : list event) : list string :=
  flat_map (fun e => match e with NinjaRequest n => [n] | _ => [] end) trace.

Definition is_progress (e : event) : bool :=
  match e with Progress _ _ => true | _ => false end.

Definition is_ninja_traffic (e : event) : bool :=
  match e with NinjaRequest _ | Sleep _ => true | _ => false end.

Definition is_rest_request (e : event) : bool :=
  match e with RestRequest => true | _ => false end.

(** What the request loop emits for the names [names], the first of them
    being request [i] of [total]: each request, the progress event after
    it, and the pause unless the request was the last. *)
Fixpoint rounds (total i : nat) (names : list string) : list event :=
  match names with
  | [] => []
  | countryName :: rest =>
      [NinjaRequest countryName; Progress (i + 1) total]
      ++ (if Nat.ltb i (total - 1) then [Sleep NINJA_RATE_DELAY_MS] else [])
      ++ rounds total (S i) rest
  end.

(** [xs] with [sep] between any two neighbours. *)
Fixpoint intersperse (sep : event) (xs : list event) : list event :=
  match xs with
  | [] => []
  | [x] => [x]
  | x :: rest => x :: sep :: intersperse sep rest
  end.

(** A country whose popularity is a finite number, and the order of
    popularity on such countries. *)
Definition finite_popularity (c : CountryRecord) : Prop :=
  exists q : Q, popularity c = Fin q.

Definition at_least_as_popular (a b : CountryRecord) : Prop :=
  exists p q : Q, popularity a = Fin p /\ popularity b = Fin q /\ (q <= p)%Q.

(** ** Reachable engine states *)

(** The engine once [init] has stored the countries [cs]. *)
Definition with_countries (cs : list CountryRecord) (s : Engine) : Engine := {|
  countries := cs;
  currentQuestion := currentQuestion s;
  score := score s;
  wrong := wrong s;
  streak := streak s;
  questionNumber := questionNumber s;
  totalQuestions := totalQuestions s;
  difficulty := difficulty s;
  answeredCurrentQuestion := answeredCurrentQuestion s
|}.

(** The states a [QuizEngine] can be in: the one its constructor leaves,
    and those any of its methods leaves, by returning or by throwing, when
    called in a state it can be in, with any argument and any draws. *)
Inductive reachable : Engine -> Prop :=
| reach_new : reachable new_engine
| reach_init (s : Engine) (cs : list CountryRecord) :
    reachable s -> reachable (with_countries cs s)
| reach_next (s s' : Engine) (turns : nat) (g : rng) (r : option Question * rng) :
    reachable s -> nextQuestion turns s g = Returns r s' -> reachable s'
| reach_next_throws (s s' : Engine) (turns : nat) (g : rng) :
    reachable s -> nextQuestion turns s g = Throws s' -> reachable s'
| reach_check (s s' : Engine) (v : value) (r : AnswerResult) :
    reachable s -> checkAnswer v s = Returns r s' -> reachable s'
| reach_check_throws (s s' : Engine) (v : value) :
    reachable s -> checkAnswer v s = Throws s' -> reachable s'
| reach_reset (s : Engine) : reachable s -> reachable (reset s)
| reach_setDifficulty (s : Engine) (level : string) :
    reachable s -> reachable (setDifficulty level s).

(** What every reachable state satisfies. *)
Definition well_formed (s : Engine) : Prop :=
  totalQuestions s = 10%Z
  /\ (0 <= questionNumber s <= 10)%Z
  /\ (0 <= wrong s)%Z
  /\ (0 <= streak s)%Z
  /\ (streak s + streak s / 3 <= score s)%Z
  /\ difficultySettings (difficulty s) <> None
  /\ (currentQuestion s <> None -> 1 <= questionNumber s)%Z
  /\ (questionNumber s = 0 -> score s = 0 /\ wrong s = 0)%Z.

(** Sources for the examples: a primary source that answers for Japan
    only, and one that is down; a bulk source that answers, one that fails
    once, and one that is down. *)
Definition ninja_japan_only (countryName : string) : fetched ninja_data :=
  if String.eqb countryName "Japan" then Body (Rows [ninja_japan]) else NotOk 429.

Definition ninja_down (countryName : string) : fetched ninja_data := Rejected.

Definition rest_up (attempt : nat) : fetched (list RestCountry) :=
  Body [rest_bare; rest_france].

Definition rest_flaky (attempt : nat) : fetched (list RestCountry) :=
  match attempt with
  | O => NotOk 503
  | _ => Body [rest_bare; rest_france]
  end.

Definition rest_down (attempt : nat) : fetched (list RestCountry) := Rejected.

(** A primary source that answers every request, and a bulk answer of 31
    countries in rising order of population, delivered at once or only at
    the second request. *)
Definition ninja_everywhere (countryName : string) : fetched ninja_data :=
  Body (Rows [ninja_japan]).

Definition rest_numbered (k : nat) : RestCountry := {|
  r_common := "Country " ++ digits_of_N (N.of_nat k);
  r_capital := None;
  r_population := Some (of_Z (Z.of_nat k));
  r_area := None;
  r_region := None;
  r_languages := None;
  r_currencies := None;
  r_timezones := None;
  r_flags := None
|}.

Definition rising_data : list RestCountry := map rest_numbered (seq 1 31).

Definition rest_at_once (attempt : nat) : fetched (list RestCountry) :=
  Body rising_data.

Definition rest_at_retry (attempt : nat) : fetched (list RestCountry) :=
  match attempt with
  | O => NotOk 503
  | _ => Body rising_data
  end.

(** ** The controller of the page ([QuizUI]) *)

(** The page is modelled by what the controller writes into it and reads
    back: texts, the content of the options container with its buttons,
    and the flags of the two navigation buttons.  What only changes the
    appearance is left out: CSS classes and styles (the marks "correct" and
    "wrong", the colour of the feedback), keyboard focus, the image
    elements of flag buttons. *)

(** A button of class "option": the value its click handler passes to
    [handleAnswer], its [data-answer] and [aria-label] attributes, and
    whether it is disabled. *)
Record Button : Type := {
  btn_answer : value;
  btn_dataAnswer : string;
  btn_ariaLabel : string;
  btn_disabled : bool
}.

(** The summary card, by the values written into it. *)
Record SummaryCard : Type := {
  card_score : Z;
  card_wrong : Z;
  card_percentage : number;
  card_message : string
}.

(** What the options container holds. *)
Inductive OptionsContent : Type :=
| Untouched
| LoadingNote
| ErrorNote (message : string)
| Buttons (buttons : list Button)
| Summary (card : SummaryCard).

Record Page : Type := {
  questionText : string;
  optionsContent : OptionsContent;
  feedbackText : string;
  scoreText : Z;
  wrongText : Z;
  progressText : string;
  nextDisabled : bool;
  nextHidden : bool;
  restartHidden : bool
}.

(** The controller: its engine, its [isAnswered] flag and the page.  The
    field [selectedOption] is written and never read. *)
Record QuizUI : Type := {
  engine : Engine;
  isAnswered : bool;
  page : Page
}.

(** [querySelectorAll('.option')] on the options container. *)
Definition optionButtons (p : Page) : list Button :=
  match optionsContent p with
  | Buttons buttons => buttons
  | _ => []
  end.

(** Decimal text of an integer, as a template literal shows it. *)
Definition text_of_Z (z : Z) : string :=
  if (z <? 0)%Z then "-" ++ digits_of_N (Z.to_N (- z))
  else digits_of_N (Z.to_N z).

Definition with_question (t : string) (p : Page) : Page := {|
  questionText := t; optionsContent := optionsContent p;
  feedbackText := feedbackText p; scoreText := scoreText p;
  wrongText := wrongText p; progressText := progressText p;
  nextDisabled := nextDisabled p; nextHidden := nextHidden p;
  restartHidden := restartHidden p |}.

Definition with_options (c : OptionsContent) (p : Page) : Page := {|
  questionText := questionText p; optionsContent := c;
  feedbackText := feedbackText p; scoreText := scoreText p;
  wrongText := wrongText p; progressText := progressText p;
  nextDisabled := nextDisabled p; nextHidden := nextHidden p;
  restartHidden := restartHidden p |}.

Definition with_feedback (t : string) (p : Page) : Page := {|
  questionText := questionText p; optionsContent := optionsContent p;
  feedbackText := t; scoreText := scoreText p;
  wrongText := wrongText p; progressText := progressText p;
  nextDisabled := nextDisabled p; nextHidden := nextHidden p;
  restartHidden := restartHidden p |}.

Definition with_nextDisabled (b : bool) (p : Page) : Page := {|
  questionText := questionText p; optionsContent := optionsContent p;
  feedbackText := feedbackText p; scoreText := scoreText p;
  wrongText := wrongText p; progressText := progressText p;
  nextDisabled := b; nextHidden := nextHidden p;
  restartHidden := restartHidden p |}.

Definition with_hidden (next restart : bool) (p : Page) : Page := {|
  questionText := questionText p; optionsContent := optionsContent p;
  feedbackText := feedbackText p; scoreText := scoreText p;
  wrongText := wrongText p; progressText := progressText p;
  nextDisabled := nextDisabled p; nextHidden := next;
  restartHidden := restart |}.

Definition updateStats (e : Engine) (p : Page) : Page :=
  let stats := getStats e in
  {| questionText := questionText p; optionsContent := optionsContent p;
     feedbackText := feedbackText p;
     scoreText := stats_score stats;
     wrongText := stats_wrong stats;
     progressText := text_of_Z (stats_questionNumber stats) ++ " / "
                     ++ text_of_Z (stats_totalQuestions stats);
     nextDisabled := nextDisabled p; nextHidden := nextHidden p;
     restartHidden := restartHidden p |}.

(** The buttons [renderTextOptions] creates, [index] being the index of the
    first. *)
Fixpoint renderTextOptions (index : nat) (options : list value) : list Button :=
  match options with
  | [] => []
  | option :: rest =>
      {| btn_answer := option;
         btn_dataAnswer := to_text option;
         btn_ariaLabel := "Option " ++ digits_of_N (N.of_nat (index + 1)) ++ ": "
                          ++ to_text option;
         btn_disabled := false |}
      :: renderTextOptions (S index) rest
  end.

(** [item.alt || 'Flag option'] *)
Definition option_alt (item : value) : string :=
  match item with
  | FlagOption _ _ a => if nonempty a then a else "Flag option"
  | _ => "Flag option"
  end.

Fixpoint renderFlagOptions (index : nat) (items : list value) : list Button :=
  match items with
  | [] => []
  | item :: rest =>
      {| btn_answer := option_flag item;
         btn_dataAnswer := to_text (option_flag item);
         btn_ariaLabel := "Option " ++ digits_of_N (N.of_nat (index + 1)) ++ ": "
                          ++ option_alt item;
         btn_disabled := false |}
      :: renderFlagOptions (S index) rest
  end.

(** A generated question has a [media] exactly when it is a flag question,
    and then of type 'flags'. *)
Definition question_buttons (q : Question) : list Button :=
  match media q with
  | Some items => renderFlagOptions 0 items
  | None => renderTextOptions 0 (options q)
  end.

Definition renderQuestion (q : Question) (p : Page) : Page :=
  with_options (Buttons (question_buttons q)) (with_question (question q) p).

Definition getSummaryMessage (percentage : number) : string :=
  if ge percentage 90 then "🏆 Outstanding! You're a geography master!"
  else if ge percentage 75 then "🌟 Great job! You know your world geography!"
  else if ge percentage 60 then "👍 Good effort! Keep learning!"
  else if ge percentage 40 then "📚 Not bad! Practice makes perfect!"
  else "💪 Keep trying! Geography is fascinating!".

Definition showSummary (ui : QuizUI) : QuizUI :=
  let stats := getStats (engine ui) in
  let card := {| card_score := stats_score stats;
                 card_wrong := stats_wrong stats;
                 card_percentage := percentage stats;
                 card_message := getSummaryMessage (percentage stats) |} in
  {| engine := engine ui;
     isAnswered := isAnswered ui;
     page := with_hidden true false
               (with_feedback EmptyString
                  (with_options (Summary card)
                     (with_question "🎉 Quiz Complete!" (page ui)))) |}.

(** The message [showFeedback] writes. *)
Definition showFeedback (isCorrect : bool) (explanation : string) (streak : Z)
  : string :=
  (if isCorrect then "✅ Correct! " else "❌ Wrong. ")
  ++ explanation
  ++ (if (3 <=? streak)%Z && (Z.rem streak 3 =? 0)%Z
      then " 🔥 " ++ text_of_Z streak ++ "-answer streak bonus!"
      else EmptyString).

(** How a handler ends: normally, or with an exception that leaves it
    (the page lives on in the state reached), or not at all. *)
Inductive handled : Type :=
| Handled (ui : QuizUI) (g : rng)
| Uncaught (ui : QuizUI) (g : rng)
| Stuck.

Definition loadNextQuestion (turns : nat) (ui : QuizUI) (g : rng) : handled :=
  match nextQuestion turns (engine ui) g with
  | Returns (None, g') e =>
      Handled (showSummary {| engine := e; isAnswered := isAnswered ui;
                              page := page ui |}) g'
  | Returns (Some question, g') e =>
      Handled {| engine := e;
                 isAnswered := false;
                 page := with_feedback EmptyString
                           (with_nextDisabled true
                              (updateStats e (renderQuestion question (page ui)))) |}
              g'
  | Throws e =>
      Uncaught {| engine := e; isAnswered := isAnswered ui; page := page ui |} g
  | Hangs => Stuck
  end.

Definition disable (b : Button) : Button := {|
  btn_answer := btn_answer b;
  btn_dataAnswer := btn_dataAnswer b;
  btn_ariaLabel := btn_ariaLabel b;
  btn_disabled := true
|}.

(** [allOptions.forEach(btn => btn.disabled = true)] *)
Definition disable_options (p : Page) : Page :=
  match optionsContent p with
  | Buttons buttons => with_options (Buttons (map disable buttons)) p
  | _ => p
  end.

Definition handleAnswer (userAnswer : value) (ui : QuizUI) (g : rng) : handled :=
  if isAnswered ui then Handled ui g
  else
    match checkAnswer userAnswer (engine ui) with
    | Returns result e =>
        let message :=
          if isCorrect result
          then showFeedback true (result_explanation result) (result_streak result)
          else showFeedback false (result_explanation result) 0 in
        Handled {| engine := e;
                   isAnswered := true;
                   page := updateStats e
                             (with_nextDisabled false
                                (disable_options
                                   (with_feedback message (page ui)))) |}
                g
    | Throws e => Uncaught {| engine := e; isAnswered := true; page := page ui |} g
    | Hangs => Stuck
    end.

Definition handleNext (turns : nat) (ui : QuizUI) (g : rng) : handled :=
  loadNextQuestion turns ui g.

Definition handleRestart (turns : nat) (ui : QuizUI) (g : rng) : handled :=
  let e := reset (engine ui) in
  loadNextQuestion turns
    {| engine := e;
       isAnswered := isAnswered ui;
       page := updateStats e (with_hidden false true (page ui)) |}
    g.

(** [parseInt(s)] for a decimal text ([None] is [NaN]); no key is named
    like a hexadecimal literal. *)
Definition parseInt (s : string) : option Z :=
  let (neg, body) := read_sign (drop_while is_space s) in
  let '(v, cnt, _) := read_digits body 0%Z 0%nat in
  match cnt with
  | O => None
  | _ => Some (if neg then (- v)%Z else v)
  end.

(** What the user can do to the page once the events are bound. *)
Inductive UserEvent : Type :=
| ClickOption (index : nat)
| KeyDown (key : string)
| ClickNext
| ClickRestart
| ChangeDifficulty (level : string).

(** A click on the option button of index [index], by the mouse or by
    [click()]: a missing or disabled button takes no click. *)
Definition clickOption (index : nat) (ui : QuizUI) (g : rng) : handled :=
  match nth_error (optionButtons (page ui)) index with
  | Some b => if btn_disabled b then Handled ui g
              else handleAnswer (btn_answer b) ui g
  | None => Handled ui g
  end.

(** The first [keydown] listener (keys 1 to 4). *)
Definition keyOption (key : string) (ui : QuizUI) (g : rng) : handled :=
  if isAnswered ui then Handled ui g
  else
    match parseInt key with
    | Some k =>
        if (1 <=? k)%Z && (k <=? 4)%Z then clickOption (Z.to_nat (k - 1)) ui g
        else Handled ui g
    | None => Handled ui g
    end.

(** The second [keydown] listener (Enter and Space). *)
Definition keyNext (turns : nat) (key : string) (ui : QuizUI) (g : rng) : handled :=
  if (String.eqb key "Enter" || String.eqb key " ")
     && negb (nextDisabled (page ui))
  then handleNext turns ui g
  else Handled ui g.

(** Two listeners of one event: the second runs also when the first
    threw. *)
Definition and_then (first : handled) (second : QuizUI -> rng -> handled)
  : handled :=
  match first with
  | Handled ui g => second ui g
  | Uncaught ui g =>
      match second ui g with
      | Handled ui' g' => Uncaught ui' g'
      | other => other
      end
  | Stuck => Stuck
  end.

(** The handlers an event runs.  A disabled Next button takes no click. *)
Definition dispatch (turns : nat) (ev : UserEvent) (ui : QuizUI) (g : rng)
  : handled :=
  match ev with
  | ClickOption index => clickOption index ui g
  | KeyDown key => and_then (keyOption key ui g) (keyNext turns key)
  | ClickNext =>
      if nextDisabled (page ui) then Handled ui g else handleNext turns ui g
  | ClickRestart => handleRestart turns ui g
  | ChangeDifficulty level =>
      handleRestart turns
        {| engine := setDifficulty level (engine ui);
           isAnswered := isAnswered ui;
           page := page ui |} g
  end.

Definition showLoading (p : Page) : Page :=
  with_options LoadingNote (with_question "Loading quiz data..." p).

Definition showError (message : string) (p : Page) : Page :=
  with_options (ErrorNote message) (with_question "Error" p).

Definition nat_text (n : nat) : string := digits_of_N (N.of_nat n).

(** The listener of the engine's progress events. *)
Definition onProgress (e : event) (p : Page) : Page :=
  match e with
  | Progress current total =>
      if Nat.ltb 0 total then
        with_feedback
          ("Fetching countries (" ++ nat_text current ++ " of "
           ++ nat_text total ++ ")")
          (with_question
             ("Loading quiz data… (" ++ nat_text current ++ "/"
              ++ nat_text total ++ ")") p)
      else p
  | _ => p
  end.

(** [init] of the controller, on the page [p] as the document delivers it.
    The engine is fresh: its [init] runs with no country stored.  The
    events are bound only when the engine's [init] returned [true]. *)
Definition QuizUI_init (turns : nat) (apiKey : string) (sources : Sources)
  (p : Page) (g : rng) : handled :=
  let result := init apiKey [] sources g in
  let ui := {| engine := with_countries (loaded result) new_engine;
               isAnswered := false;
               page := fold_left (fun p e => onProgress e p) (events result)
                                 (showLoading p) |} in
  if success result then loadNextQuestion turns ui (draws result)
  else
    Handled {| engine := engine ui;
               isAnswered := false;
               page := showError
                         "Failed to load quiz data. Please refresh the page."
                         (page ui) |}
            (draws result).

(** The state a handler leaves, if it ends. *)
Definition state_after (h : handled) : option (QuizUI * rng) :=
  match h with
  | Handled ui g | Uncaught ui g => Some (ui, g)
  | Stuck => None
  end.

(** The states of the page while it takes events: the one [init] leaves
    when it has bound the events, and those any event leads to. *)
Inductive ui_reachable : QuizUI -> Prop :=
| ui_started (turns : nat) (apiKey : string) (sources : Sources) (p : Page)
    (g g' : rng) (ui : QuizUI) :
    success (init apiKey [] sources g) = true ->
    state_after (QuizUI_init turns apiKey sources p g) = Some (ui, g') ->
    ui_reachable ui
| ui_event (turns : nat) (ev : UserEvent) (g g' : rng) (ui ui' : QuizUI) :
    ui_reachable ui ->
    state_after (dispatch turns ev ui g) = Some (ui', g') ->
    ui_reachable ui'.

(** The page after [init] and the events [evs], each handled with the
    draws the one before left. *)
Fixpoint run (turns : nat) (evs : list UserEvent) (ui : QuizUI) (g : rng)
  : option (QuizUI * rng) :=
  match evs with
  | [] => Some (ui, g)
  | ev :: rest =>
      match state_after (dispatch turns ev ui g) with
      | Some (ui', g') => run turns rest ui' g'
      | None => None
      end
  end.

Definition session (turns : nat) (apiKey : string) (sources : Sources)
  (p : Page) (g : rng) (evs : list UserEvent) : option (QuizUI * rng) :=
  if success (init apiKey [] sources g) then
    match state_after (QuizUI_init turns apiKey sources p g) with
    | Some (ui, g') => run turns evs ui g'
    | None => None
    end
  else None.

(** A question is on display and waits for its answer. *)
Definition awaiting_answer (ui : QuizUI) : bool :=
  match optionsContent (page ui) with
  | Buttons _ => negb (isAnswered ui)
  | _ => false
  end.

Definition pending (ui : QuizUI) : Z := if awaiting_answer ui then 1 else 0.

(** A tally of the answers given since the last reset: [correct] correct
    ones, which earned [bonus] extra points, besides the wrong ones and the
    question still open. *)
Definition tally (e : Engine) (open correct bonus : Z) : Prop :=
  (0 <= correct)%Z /\ (0 <= bonus)%Z
  /\ score e = (correct + bonus)%Z
  /\ (3 * bonus + streak e mod 3 <= correct)%Z
  /\ (correct + wrong e + open <= questionNumber e)%Z
  /\ (countries e <> [] -> (correct + wrong e + open)%Z = questionNumber e).

(** In a flag question the first of the objects in [media] carries the
    correct answer; other questions have no [media]. *)
Definition flag_leads (q : Question) : Prop :=
  (type q = Flag ->
   exists item rest,
     media q = Some (item :: rest) /\ option_flag item = correctAnswer q)
  /\ (type q <> Flag -> media q = None).

(** The counters on display are the engine's. *)
Definition shown_stats (ui : QuizUI) : Prop :=
  scoreText (page ui) = score (engine ui)
  /\ wrongText (page ui) = wrong (engine ui)
  /\ progressText (page ui)
     = (text_of_Z (questionNumber (engine ui)) ++ " / "
        ++ text_of_Z (totalQuestions (engine ui)))%string.

(** What the page shows once countries are loaded: the current question
    with its buttons, all enabled until it is answered and all disabled
    from then on, or the summary after the tenth question. *)
Definition view_ok (ui : QuizUI) : Prop :=
  shown_stats ui
  /\ match optionsContent (page ui) with
     | Buttons buttons =>
         exists q,
           currentQuestion (engine ui) = Some q
           /\ flag_leads q
           /\ questionText (page ui) = question q
           /\ buttons = (if isAnswered ui then map disable (question_buttons q)
                         else question_buttons q)
           /\ nextDisabled (page ui) = negb (isAnswered ui)
     | Summary card =>
         questionNumber (engine ui) = 10%Z
         /\ card_score card = score (engine ui)
         /\ card_wrong card = wrong (engine ui)
         /\ card_percentage card = percentage (getStats (engine ui))
         /\ card_message card
            = getSummaryMessage (percentage (getStats (engine ui)))
         /\ nextHidden (page ui) = true
         /\ restartHidden (page ui) = false
     | _ => False
     end.

Definition question_view (p : Page) : bool :=
  match optionsContent p with
  | Buttons _ => true
  | _ => false
  end.

(** What holds of the page whenever it takes an event. *)
Definition ui_invariant (ui : QuizUI) : Prop :=
  reachable (engine ui)
  /\ (exists correct bonus, tally (engine ui) (pending ui) correct bonus)
  /\ (countries (engine ui) = [] -> question_view (page ui) = false)
  /\ (countries (engine ui) <> [] -> view_ok ui).

(** What [loadNextQuestion] relies on. *)
Definition may_load (ui : QuizUI) : Prop :=
  reachable (engine ui)
  /\ (exists correct bonus, tally (engine ui) 0 correct bonus)
  /\ (countries (engine ui) = [] -> question_view (page ui) = false)
  /\ (questionNumber (engine ui) = 10%Z -> countries (engine ui) <> [] ->
      shown_stats ui).

(** A page as a document may deliver it, a bulk source without countries,
    and draws that make every question a flag question. *)
Definition blank_page : Page := {|
  questionText := EmptyString;
  optionsContent := Untouched;
  feedbackText := EmptyString;
  scoreText := 0;
  wrongText := 0;
  progressText := EmptyString;
  nextDisabled := false;
  nextHidden := false;
  restartHidden := true
|}.

Definition rest_empty (attempt : nat) : fetched (list RestCountry) := Body [].

Definition flag_rng : rng := fun _ => 7.

Definition bulk_only (rest : nat -> fetched (list RestCountry)) : Sources :=
  {| ninja := ninja_down; restCountries := rest |}.

(** * Properties *)

(** ** Basic facts about values and numbers *)

Lemma strict_eq_iff (a b : value) : strict_eq a b = true <-> a = b.
Proof.
  split.
  - destruct a, b; simpl; try discriminate; try reflexivity.
    + intros H. apply String.eqb_eq in H. now subst.
    + intros H. apply andb_true_iff in H as [H Ha].
      apply andb_true_iff in H as [Hn Hf].
      apply String.eqb_eq in Hn, Hf, Ha. now subst.
  - intros <-. destruct a; simpl; trivial.
    + apply String.eqb_refl.
    + now rewrite !String.eqb_refl.
Qed.

Lemma strict_eq_refl (a : value) : strict_eq a a = true.
Proof. now apply strict_eq_iff. Qed.

Lemma strict_eq_false_iff (a b : value) : strict_eq a b = false <-> a <> b.
Proof.
  rewrite <- not_true_iff_false. now rewrite strict_eq_iff.
Qed.

Lemma includes_In (x : value) (l : list value) : includes x l = true <-> In x l.
Proof.
  unfold includes. rewrite existsb_exists. split.
  - intros [y [Hy E]]. apply strict_eq_iff in E. now subst.
  - intros H. exists x. split; [assumption | apply strict_eq_refl].
Qed.

Lemma includes_not_In (x : value) (l : list value) :
  includes x l = false <-> ~ In x l.
Proof.
  rewrite <- not_true_iff_false. now rewrite includes_In.
Qed.

Lemma Math_round_nonneg (q : Q) :
  (0 <= q)%Q -> is_nonneg_integer (Math_round (Fin q)).
Proof.
  intros Hq. exists (Qfloor (q + (1 # 2))%Q). split; [| reflexivity].
  change 0%Z with (Qfloor 0).
  apply Qfloor_resp_le.
  apply Qle_trans with q; [assumption |].
  rewrite <- (Qplus_0_r q) at 1.
  apply Qplus_le_r. discriminate.
Qed.

Lemma scale_population_nonneg (q : Q) :
  (0 <= q)%Q -> is_nonneg_integer (scale_population (Fin q)).
Proof.
  intros Hq. unfold scale_population, ge, lt, mul.
  destruct (Qle_bool 1000000 q); [now apply Math_round_nonneg |].
  destruct (Qle_bool 10 q); cbn [negb].
  - destruct (Qle_bool 10000 q); cbn [negb]; apply Math_round_nonneg; trivial.
    apply Qmult_le_0_compat; [assumption | discriminate].
  - apply Math_round_nonneg.
    apply Qmult_le_0_compat; [assumption | discriminate].
Qed.

(** ** Population normalisation *)

(** C2: [normalizePopulation] maps every finite, non-negative numeric
    input (a number, or a string [parseFloat] reads as one) to a
    non-negative integer; it maps 5 to 5000000, "5,123" to 5123000 and
    1500000 to itself; it maps -1 to -1000000; and it maps every input
    that is neither a number nor a string, and every string [parseFloat]
    cannot read, to 0. *)
Theorem normalizePopulation_cases :
  (forall q : Q, (0 <= q)%Q ->
     is_nonneg_integer (normalizePopulation (JNumber (Fin q))))
  /\ (forall (s : string) (q : Q), parseFloat (cleaned s) = Fin q -> (0 <= q)%Q ->
        is_nonneg_integer (normalizePopulation (JString s)))
  /\ normalizePopulation (JNumber (of_Z 5)) = of_Z 5000000
  /\ normalizePopulation (JString "5,123") = of_Z 5123000
  /\ normalizePopulation (JNumber (of_Z 1500000)) = of_Z 1500000
  /\ normalizePopulation (JNumber (of_Z (-1))) = of_Z (-1000000)
  /\ (forall v : jsval,
        (forall n, v <> JNumber n) -> (forall s, v <> JString s) ->
        normalizePopulation v = of_Z 0)
  /\ (forall s : string, parseFloat (cleaned s) = NaN ->
        normalizePopulation (JString s) = of_Z 0).
Proof.
  split; [| split; [| do 4 (split; [reflexivity |]); split]].
  - intros q Hq. now apply scale_population_nonneg.
  - intros s q Hp Hq. unfold normalizePopulation.
    rewrite Hp. now apply scale_population_nonneg.
  - intros v Hn Hs. destruct v; try reflexivity.
    + now elim (Hn n).
    + now elim (Hs s).
  - intros s Hp. unfold normalizePopulation. now rewrite Hp.
Qed.

Lemma normalizePopulation_cases_witness :
  is_nonneg_integer (normalizePopulation (JNumber (Fin (51 # 10)%Q)))
  /\ is_nonneg_integer (normalizePopulation (JString "1,234.5"))
  /\ normalizePopulation JObject = of_Z 0
  /\ normalizePopulation (JString "n/a") = of_Z 0.
Proof.
  destruct normalizePopulation_cases as (Hnum & Hstr & _ & _ & _ & _ & Hother & Hnan).
  split; [| split; [| split]].
  - apply Hnum. discriminate.
  - apply (Hstr "1,234.5" (12345 # 10)%Q); [reflexivity | discriminate].
  - apply Hother; intros; discriminate.
  - apply Hnan. reflexivity.
Defined.

(** C2, as the specification words it, fails: a negative input is scaled
    like any other value below 10, so -1 becomes -1000000, which is neither
    0 nor non-negative. *)
Lemma normalizePopulation_negative_input :
  normalizePopulation (JNumber (of_Z (-1))) = of_Z (-1000000)
  /\ normalizePopulation (JNumber (of_Z (-1))) <> of_Z 0
  /\ ~ is_nonneg_integer (normalizePopulation (JNumber (of_Z (-1)))).
Proof.
  split; [reflexivity |]. split; [discriminate |].
  intros [z [Hz E]]. vm_compute in E. injection E as E. lia.
Qed.

(** ** Provider records *)




(** ** Answer checking *)

Lemma checkAnswer_correct (s : Engine) (q : Question) :
  currentQuestion s = Some q ->
  exists r s',
    checkAnswer (correctAnswer q) s = Returns r s'
    /\ isCorrect r = true
    /\ wrong s' = wrong s
    /\ streak s' = (streak s + 1)%Z
    /\ score s' = (score s + 1
                   + (if (0 <? streak s')%Z && (streak s' mod 3 =? 0)%Z
                      then 1 else 0))%Z.
Proof.
  intros Hq. unfold checkAnswer. rewrite Hq, strict_eq_refl.
  eexists. eexists. split; [reflexivity |].
  cbn [isCorrect wrong streak score].
  repeat split; trivial.
  destruct (Z.leb_spec 3 (streak s + 1)) as [H3 | H3].
  - assert ((0 <? streak s + 1)%Z = true) as -> by (apply Z.ltb_lt; lia).
    rewrite Z.rem_mod_nonneg by lia.
    cbn [andb]. destruct (_ =? 0)%Z; lia.
  - cbn [andb].
    destruct (Z.ltb_spec 0 (streak s + 1)) as [H0 | H0]; cbn [andb]; [| lia].
    assert (streak s + 1 = 1 \/ streak s + 1 = 2)%Z as [-> | ->] by lia;
      cbn; lia.
Qed.

Lemma checkAnswer_wrong (s : Engine) (q : Question) (v : value) :
  currentQuestion s = Some q ->
  v <> correctAnswer q ->
  exists r s',
    checkAnswer v s = Returns r s'
    /\ isCorrect r = false
    /\ streak s' = 0%Z
    /\ wrong s' = (wrong s + 1)%Z
    /\ score s' = score s.
Proof.
  intros Hq Hv. apply strict_eq_false_iff in Hv.
  unfold checkAnswer. rewrite Hq, Hv.
  eexists. eexists. split; [reflexivity |]. repeat split.
Qed.

Lemma checkAnswer_frame (v : value) (s s' : Engine) (r : AnswerResult) :
  checkAnswer v s = Returns r s' -> same_session_frame s s'.
Proof.
  unfold checkAnswer. destruct (currentQuestion s) as [q |] eqn:Hq; [| discriminate].
  destruct (strict_eq v (correctAnswer q));
    intros H; injection H as _ <-; unfold same_session_frame;
    cbn [difficulty questionNumber totalQuestions countries currentQuestion];
    repeat split; congruence.
Qed.

Lemma nextQuestion_frame (turns : nat) (s s' : Engine) (g : rng)
  (r : option Question * rng) :
  nextQuestion turns s g = Returns r s' ->
  score s' = score s /\ streak s' = streak s /\ wrong s' = wrong s
  /\ totalQuestions s' = totalQuestions s /\ countries s' = countries s
  /\ difficulty s' = difficulty s.
Proof.
  unfold nextQuestion.
  destruct (totalQuestions s <=? questionNumber s)%Z.
  - intros H. injection H as _ <-. repeat split.
  - destruct (generateQuestion _ _ _) as [[q g'] | |]; try discriminate.
    intros H. injection H as _ <-. repeat split.
Qed.

Lemma advances_keeps_score (s s' : Engine) :
  advances s s' -> score s' = score s /\ streak s' = streak s.
Proof.
  induction 1 as [s | turns s s1 s2 g r Hn _ [IHsc IHst]].
  - split; reflexivity.
  - apply nextQuestion_frame in Hn as (Hsc & Hst & _).
    split; congruence.
Qed.

Lemma third_of_successor (n : Z) :
  (0 <= n)%Z ->
  ((n + 1) / 3 = n / 3 + (if (0 <? n + 1) && ((n + 1) mod 3 =? 0) then 1 else 0))%Z.
Proof.
  intros Hn.
  assert ((0 <? n + 1)%Z = true) as -> by (apply Z.ltb_lt; lia).
  cbn [andb].
  pose proof (Z.div_mod n 3 ltac:(lia)) as Hd.
  pose proof (Z.mod_pos_bound n 3 ltac:(lia)) as Hb.
  pose proof (Z.div_mod (n + 1) 3 ltac:(lia)) as Hd'.
  pose proof (Z.mod_pos_bound (n + 1) 3 ltac:(lia)) as Hb'.
  destruct (Z.eqb_spec ((n + 1) mod 3) 0) as [E | E]; lia.
Qed.

Lemma correct_answers_score (n : nat) (s s' : Engine) :
  score s = 0%Z -> streak s = 0%Z ->
  correct_answers n s s' ->
  streak s' = Z.of_nat n /\ score s' = (Z.of_nat n + Z.of_nat n / 3)%Z.
Proof.
  intros Hsc Hst Hrun.
  induction Hrun as [s | n s s1 s2 s3 q r _ IH Hadv Hq Hcheck].
  - now rewrite Hsc, Hst.
  - destruct (IH Hsc Hst) as [IHst IHsc].
    apply advances_keeps_score in Hadv as [Asc Ast].
    destruct (checkAnswer_correct s2 q Hq) as (r' & s3' & Hc & _ & _ & Hst' & Hsc').
    rewrite Hc in Hcheck. injection Hcheck as _ <-.
    assert (Es : streak s3' = Z.of_nat (S n)) by lia.
    split; [exact Es |].
    rewrite Hsc', Es, Asc, IHsc.
    replace (Z.of_nat (S n)) with (Z.of_nat n + 1)%Z by lia.
    rewrite (third_of_successor (Z.of_nat n)) by lia. lia.
Qed.

Lemma play_correctly_sound (n turns : nat) (s s' : Engine) (g g' : rng) :
  play_correctly n turns s g = Some (s', g') -> correct_answers n s s'.
Proof.
  revert s' g'. induction n as [| n IH]; intros s' g' H; simpl in H.
  - injection H as <- _. constructor.
  - destruct (play_correctly n turns s g) as [[s1 g1] |]; [| discriminate].
    destruct (nextQuestion turns s1 g1) as [[[q |] g2] s2 | |] eqn:Hn; try discriminate.
    destruct (checkAnswer (correctAnswer q) s2) as [r s3 | |] eqn:Hc; try discriminate.
    injection H as <- <-.
    assert (Hq : currentQuestion s2 = Some q).
    { unfold nextQuestion in Hn.
      destruct (totalQuestions s1 <=? questionNumber s1)%Z; [discriminate |].
      destruct (generateQuestion _ _ _) as [[q' g3] | |]; try discriminate.
      injection Hn as -> _ <-. reflexivity. }
    eapply correct_more; [apply (IH _ _ eq_refl) | | exact Hq | exact Hc].
    eapply advances_next; [exact Hn | constructor].
Qed.

(** C4: a correct answer adds 1 to the score and 1 to the streak, plus 1
    more point exactly when the new streak is a positive multiple of 3;
    after [n] consecutive correct answers from score 0 and streak 0 the
    streak is [n] and the score [n + n / 3], which is 8 after six. *)
Theorem streak_bonus_scoring :
  (forall (s : Engine) (q : Question),
     currentQuestion s = Some q ->
     exists r s',
       checkAnswer (correctAnswer q) s = Returns r s'
       /\ isCorrect r = true
       /\ streak s' = (streak s + 1)%Z
       /\ score s' = (score s + 1
                      + (if (0 <? streak s')%Z && (streak s' mod 3 =? 0)%Z
                         then 1 else 0))%Z)
  /\ (forall (n : nat) (s s' : Engine),
        score s = 0%Z -> streak s = 0%Z ->
        correct_answers n s s' ->
        streak s' = Z.of_nat n /\ score s' = (Z.of_nat n + Z.of_nat n / 3)%Z)
  /\ (forall s s' : Engine,
        score s = 0%Z -> streak s = 0%Z ->
        correct_answers 6 s s' ->
        score s' = 8%Z).
Proof.
  split; [| split].
  - intros s q Hq.
    destruct (checkAnswer_correct s q Hq) as (r & s' & H & Hc & _ & Hst & Hsc).
    exists r, s'. auto.
  - intros n s s'. apply correct_answers_score.
  - intros s s' Hsc Hst Hrun.
    now destruct (correct_answers_score 6 s s' Hsc Hst Hrun) as [_ ->].
Qed.

Lemma streak_bonus_scoring_witness :
  (exists r s',
     checkAnswer (correctAnswer sample_question) engine_in_progress = Returns r s'
     /\ streak s' = 3%Z /\ score s' = 7%Z)
  /\ (exists s' g', play_correctly 6 0 (reset sample_engine) sample_rng = Some (s', g')
                    /\ score s' = 8%Z /\ streak s' = 6%Z).
Proof.
  destruct streak_bonus_scoring as (Hstep & Hrun & Hsix). split.
  - destruct (Hstep engine_in_progress sample_question eq_refl)
      as (r & s' & Hc & _ & Hst & Hsc).
    exists r, s'. split; [exact Hc |].
    rewrite Hsc, Hst. split; reflexivity.
  - destruct (play_correctly 6 0 (reset sample_engine) sample_rng)
      as [[s' g'] |] eqn:Hplay; [| vm_compute in Hplay; discriminate].
    exists s', g'. split; [reflexivity |].
    pose proof (play_correctly_sound _ _ _ _ _ _ Hplay) as Hca.
    split.
    + apply (Hsix (reset sample_engine) s'); [reflexivity | reflexivity | exact Hca].
    + apply (Hrun 6 (reset sample_engine) s'); [reflexivity | reflexivity | exact Hca].
Defined.

(** C5: whatever the streak was, an answer different from the current
    question's correct answer sets the streak to 0, adds exactly 1 to the
    wrong count and leaves the score alone. *)
Theorem wrong_answer_resets_streak :
  forall (s : Engine) (q : Question) (submitted : value),
    currentQuestion s = Some q ->
    submitted <> correctAnswer q ->
    exists r s',
      checkAnswer submitted s = Returns r s'
      /\ isCorrect r = false
      /\ streak s' = 0%Z
      /\ wrong s' = (wrong s + 1)%Z
      /\ score s' = score s.
Proof.
  intros s q v. apply checkAnswer_wrong.
Qed.

Lemma wrong_answer_resets_streak_witness :
  exists r s',
    checkAnswer (Str "Rome") engine_in_progress = Returns r s'
    /\ isCorrect r = false /\ streak s' = 0%Z /\ wrong s' = 2%Z /\ score s' = 5%Z.
Proof.
  apply (wrong_answer_resets_streak engine_in_progress sample_question (Str "Rome")).
  - reflexivity.
  - discriminate.
Defined.

(** C10: with a current question, [checkAnswer] returns and leaves the
    difficulty, the question counter, the number of questions, the loaded
    countries and the current question as they were, whether the answer
    is correct or not. *)
Theorem checkAnswer_preserves_session :
  forall (s : Engine) (q : Question) (submitted : value),
    currentQuestion s = Some q ->
    exists r s',
      checkAnswer submitted s = Returns r s'
      /\ difficulty s' = difficulty s
      /\ questionNumber s' = questionNumber s
      /\ totalQuestions s' = totalQuestions s
      /\ countries s' = countries s
      /\ currentQuestion s' = Some q.
Proof.
  intros s q v Hq.
  destruct (checkAnswer v s) as [r s' | s' |] eqn:Hc.
  - exists r, s'. split; [reflexivity |].
    destruct (checkAnswer_frame _ _ _ _ Hc) as (Hd & Hn & Ht & Hcs & Hcur).
    repeat split; congruence.
  - unfold checkAnswer in Hc. rewrite Hq in Hc.
    destruct (strict_eq v (correctAnswer q)); discriminate.
  - unfold checkAnswer in Hc. rewrite Hq in Hc.
    destruct (strict_eq v (correctAnswer q)); discriminate.
Qed.

Lemma checkAnswer_preserves_session_witness :
  exists r s',
    checkAnswer (Str "Paris") engine_in_progress = Returns r s'
    /\ difficulty s' = "medium"
    /\ questionNumber s' = 6%Z
    /\ totalQuestions s' = 10%Z
    /\ countries s' = sample_countries
    /\ currentQuestion s' = Some sample_question.
Proof.
  apply (checkAnswer_preserves_session engine_in_progress sample_question (Str "Paris")).
  reflexivity.
Defined.

(** ** Difficulty *)

Lemma setDifficulty_known (level : string) (s : Engine) :
  In level ["easy"; "medium"; "hard"] ->
  setDifficulty level s
  = reset {| countries := countries s;
             currentQuestion := currentQuestion s;
             score := score s;
             wrong := wrong s;
             streak := streak s;
             questionNumber := questionNumber s;
             totalQuestions := totalQuestions s;
             difficulty := level;
             answeredCurrentQuestion := answeredCurrentQuestion s |}.
Proof.
  intros [<- | [<- | [<- | []]]]; reflexivity.
Qed.

Lemma setDifficulty_unlisted (level : string) (s : Engine) :
  difficultySettings level = None -> setDifficulty level s = s.
Proof.
  intros H. unfold setDifficulty. now rewrite H.
Qed.

(** C6 at the level "constructor", which is none of the three known
    levels: the lookup in the settings object finds the member inherited
    from [Object.prototype], so the level is stored and the session is
    reset instead of being left alone. *)
Theorem setDifficulty_inherited_name :
  (forall s : Engine,
     difficulty (setDifficulty "constructor" s) = "constructor"
     /\ score (setDifficulty "constructor" s) = 0%Z
     /\ streak (setDifficulty "constructor" s) = 0%Z
     /\ questionNumber (setDifficulty "constructor" s) = 0%Z
     /\ currentQuestion (setDifficulty "constructor" s) = None)
  /\ setDifficulty "constructor" engine_in_progress <> engine_in_progress
  /\ getCountriesForDifficulty (setDifficulty "constructor" engine_in_progress)
     = Done sample_countries.
Proof.
  split; [| split].
  - intros s. repeat split.
  - intros H. apply (f_equal score) in H. discriminate.
  - reflexivity.
Qed.

(** ** Difficulty pools *)

Lemma firstn_prefix {A : Type} (n : nat) (l : list A) :
  l = firstn n l ++ skipn n l
  /\ List.length (firstn n l) = Nat.min n (List.length l)
  /\ (List.length l <= n -> firstn n l = l).
Proof.
  split; [| split].
  - symmetry. apply firstn_skipn.
  - apply length_firstn.
  - apply firstn_all2.
Qed.

(** The slicing alone: at each of the three difficulties the pool is a
    prefix of the stored sequence, in the order [init] left it, as long as
    the cap allows (30, 100, 200) or the whole sequence when that is
    shorter; the easy pool is also a prefix of the first 50; with 120
    countries stored the easy pool has 30 records and the hard pool is all
    120. *)
Theorem selectPool_prefix :
  forall (s : Engine) (level : string) (cap : nat),
    In (level, cap) difficulty_caps ->
    difficulty s = level ->
    exists pool rest,
      getCountriesForDifficulty s = Done pool
      /\ countries s = pool ++ rest
      /\ List.length pool = Nat.min cap (List.length (countries s))
      /\ (List.length (countries s) <= cap -> pool = countries s)
      /\ (level = "easy" -> exists rest50, firstn 50 (countries s) = pool ++ rest50)
      /\ (List.length (countries s) = 120 ->
          (level = "easy" -> List.length pool = 30)
          /\ (level = "hard" -> pool = countries s)).
Proof.
  intros s level cap Hcap Hlevel.
  assert (Hpool : getCountriesForDifficulty s = Done (firstn cap (countries s))).
  { unfold getCountriesForDifficulty. rewrite Hlevel.
    destruct Hcap as [E | [E | [E | []]]]; injection E as <- <-.
    - change (difficultySettings "easy") with (Some (Own 30 true)).
      cbv iota. now rewrite firstn_firstn.
    - reflexivity.
    - reflexivity. }
  destruct (firstn_prefix cap (countries s)) as (Happ & Hlen & Hall).
  exists (firstn cap (countries s)), (skipn cap (countries s)).
  split; [exact Hpool |]. split; [exact Happ |]. split; [exact Hlen |].
  split; [exact Hall |]. split.
  - intros ->. destruct Hcap as [E | [E | [E | []]]]; try discriminate.
    injection E as <-.
    exists (skipn 30 (firstn 50 (countries s))).
    rewrite <- (firstn_skipn 30 (firstn 50 (countries s))) at 1.
    now rewrite firstn_firstn.
  - intros H120. split.
    + intros ->. destruct Hcap as [E | [E | [E | []]]]; try discriminate.
      injection E as <-. rewrite Hlen, H120. reflexivity.
    + intros ->. destruct Hcap as [E | [E | [E | []]]]; try discriminate.
      injection E as <-. apply Hall. rewrite H120. repeat constructor.
Qed.

Lemma selectPool_prefix_witness :
  (exists pool rest,
     getCountriesForDifficulty (engine_with "easy" many_countries) = Done pool
     /\ many_countries = pool ++ rest
     /\ List.length pool = 30)
  /\ getCountriesForDifficulty (engine_with "hard" many_countries) = Done many_countries.
Proof.
  split.
  - destruct (selectPool_prefix (engine_with "easy" many_countries) "easy" 30)
      as (pool & rest & Hp & Happ & _ & _ & _ & H120);
      [left; reflexivity | reflexivity |].
    exists pool, rest. split; [exact Hp |]. split; [exact Happ |].
    apply H120; reflexivity.
  - destruct (selectPool_prefix (engine_with "hard" many_countries) "hard" 200)
      as (pool & rest & Hp & _ & _ & _ & _ & H120);
      [right; right; left; reflexivity | reflexivity |].
    rewrite Hp. f_equal. apply H120; reflexivity.
Defined.

(** ** Formatting *)





(** ** Arrays and shuffling *)

Section ArrayFacts.
Context {A : Type}.
Variable eq_dec : forall x y : A, {x = y} + {x <> y}.

Lemma length_set_nth (i : nat) (v : A) (xs : list A) :
  List.length (set_nth i v xs) = List.length xs.
Proof.
  revert i. induction xs as [| x r IH]; intros [| i]; simpl; auto.
Qed.

Lemma nth_error_set_nth_same (i : nat) (v : A) (xs : list A) :
  i < List.length xs -> nth_error (set_nth i v xs) i = Some v.
Proof.
  revert i. induction xs as [| x r IH]; intros [| i] H; simpl in *; try lia.
  - reflexivity.
  - apply IH. lia.
Qed.

Lemma nth_error_set_nth_other (i j : nat) (v : A) (xs : list A) :
  i <> j -> nth_error (set_nth i v xs) j = nth_error xs j.
Proof.
  revert i j. induction xs as [| x r IH]; intros [| i] [| j] H; simpl; auto.
  - contradiction.
Qed.

Lemma count_occ_set_nth (i : nat) (x y : A) (xs : list A) (a : A) :
  nth_error xs i = Some x ->
  count_occ eq_dec (set_nth i y xs) a + (if eq_dec x a then 1 else 0)
  = count_occ eq_dec xs a + (if eq_dec y a then 1 else 0).
Proof.
  revert i. induction xs as [| z r IH]; intros [| i] H; simpl in *; try discriminate.
  - injection H as ->. destruct (eq_dec x a), (eq_dec y a); lia.
  - specialize (IH i H). destruct (eq_dec z a); lia.
Qed.

Lemma swap_count_occ (i j : nat) (xs : list A) (a : A) :
  count_occ eq_dec (swap i j xs) a = count_occ eq_dec xs a.
Proof.
  unfold swap.
  destruct (nth_error xs i) as [x |] eqn:Hi; [| reflexivity].
  destruct (nth_error xs j) as [y |] eqn:Hj; [| reflexivity].
  pose proof (count_occ_set_nth i x y xs a Hi) as H1.
  assert (Hj' : nth_error (set_nth i y xs) j = Some y).
  { destruct (Nat.eq_dec i j) as [<- | N].
    - apply nth_error_set_nth_same. apply nth_error_Some. congruence.
    - now rewrite nth_error_set_nth_other. }
  pose proof (count_occ_set_nth j y x _ a Hj') as H2. lia.
Qed.

Lemma swap_Permutation (i j : nat) (xs : list A) : Permutation (swap i j xs) xs.
Proof.
  apply (Permutation_count_occ eq_dec). intros a. apply swap_count_occ.
Qed.

Lemma shuffle_from_Permutation (i : nat) (xs : list A) (g : rng) :
  Permutation (fst (shuffle_from i xs g)) xs.
Proof.
  revert xs g. induction i as [| i IH]; intros xs g; cbn [shuffle_from].
  - reflexivity.
  - destruct (random (S i + 1) g) as [j g'].
    rewrite IH. apply swap_Permutation.
Qed.

Lemma shuffleArray_Permutation (xs : list A) (g : rng) :
  Permutation (fst (shuffleArray xs g)) xs.
Proof. apply shuffle_from_Permutation. Qed.

Lemma remove_nth_Permutation (i : nat) (x : A) (xs : list A) :
  nth_error xs i = Some x -> Permutation (x :: remove_nth i xs) xs.
Proof.
  intros H. unfold remove_nth.
  rewrite <- (firstn_skipn_middle i xs H) at 3.
  apply Permutation_middle.
Qed.

Lemma length_remove_nth (i : nat) (xs : list A) :
  i < List.length xs -> S (List.length (remove_nth i xs)) = List.length xs.
Proof.
  intros H. destruct (nth_error xs i) as [x |] eqn:E.
  - apply (Permutation_length (remove_nth_Permutation i x xs E)).
  - apply nth_error_None in E. lia.
Qed.

End ArrayFacts.

Lemma random_lt (n : nat) (g : rng) : 0 < n -> fst (random n g) < n.
Proof.
  intros H. unfold random. cbn [fst]. destruct n as [| n]; [lia |].
  apply Nat.mod_upper_bound. discriminate.
Qed.

(** ** The sampling loops *)

Lemma NoDup_snoc (x : value) (l : list value) :
  NoDup l -> ~ In x l -> NoDup (l ++ [x]).
Proof.
  induction 1 as [| y l Hy Hl IH]; intros Hx; simpl.
  - repeat constructor. intros [].
  - constructor.
    + rewrite in_app_iff. intros [H | [H | []]]; [contradiction |].
      subst. apply Hx. now left.
    + apply IH. intros H. apply Hx. now right.
Qed.

Lemma fresh_Permutation (options l l' : list value) :
  Permutation l l' -> fresh options l = fresh options l'.
Proof.
  unfold fresh. induction 1 as [| x l l' _ IH | x y l | l l' l'' _ IH1 _ IH2]; simpl.
  - reflexivity.
  - destruct (negb (includes x options)); simpl; congruence.
  - destruct (negb (includes x options)), (negb (includes y options)); reflexivity.
  - congruence.
Qed.

Lemma fresh_cons (options : list value) (x : value) (rest : list value) :
  fresh options (x :: rest)
  = (if includes x options then 0 else 1) + fresh options rest.
Proof.
  unfold fresh. simpl. now destruct (includes x options).
Qed.

Lemma fresh_push (options : list value) (x : value) (rest : list value) :
  ~ In x rest -> fresh (options ++ [x]) rest = fresh options rest.
Proof.
  intros Hx. unfold fresh. f_equal. apply filter_ext_in. intros y Hy.
  f_equal. unfold includes. rewrite existsb_app. simpl.
  assert (strict_eq y x = false) as ->.
  { apply strict_eq_false_iff. intros ->. contradiction. }
  now rewrite !orb_false_r.
Qed.

Lemma sample_loop_invariant (turns : nat) (options others : list value) (g : rng) :
  NoDup options ->
  NoDup (fst (sample_loop turns options others g))
  /\ (exists extra, fst (sample_loop turns options others g) = options ++ extra)
  /\ (List.length options <= 4 ->
      List.length (fst (sample_loop turns options others g)) <= 4).
Proof.
  revert options others g.
  induction turns as [| t IH]; intros options others g Hnd; cbn [sample_loop].
  - split; [exact Hnd |]. split; [exists []; now rewrite app_nil_r | trivial].
  - destruct (Nat.ltb_spec (List.length options) 4) as [Hlt | Hge]; cbn [andb].
    2: { split; [exact Hnd |]. split; [exists []; now rewrite app_nil_r | trivial]. }
    destruct (Nat.ltb 0 (List.length others)).
    2: { split; [exact Hnd |]. split; [exists []; now rewrite app_nil_r | trivial]. }
    destruct (random (List.length others) g) as [idx g'].
    set (x := nth idx others Undefined).
    destruct (includes x options) eqn:Hinc.
    + apply IH. exact Hnd.
    + apply includes_not_In in Hinc.
      destruct (IH (options ++ [x]) (remove_nth idx others) g'
                   (NoDup_snoc x options Hnd Hinc)) as (H1 & [extra H2] & H3).
      split; [exact H1 |]. split.
      * exists (x :: extra). rewrite H2, <- app_assoc. reflexivity.
      * intros _. apply H3. rewrite length_app. simpl. lia.
Qed.

Lemma sample_loop_full (turns : nat) (options others : list value) (g : rng) :
  NoDup others ->
  List.length others <= turns ->
  4 <= List.length options + fresh options others ->
  4 <= List.length (fst (sample_loop turns options others g)).
Proof.
  revert options others g.
  induction turns as [| t IH]; intros options others g Hnd Hlen Hsum; cbn [sample_loop].
  - destruct others; [| simpl in Hlen; lia].
    unfold fresh in Hsum. simpl in *. lia.
  - destruct (Nat.ltb_spec (List.length options) 4) as [Hlt | Hge]; cbn [andb];
      [| simpl; lia].
    destruct (Nat.ltb_spec 0 (List.length others)) as [Hpos | Hz].
    2: { destruct others; simpl in Hz; [| lia].
         unfold fresh in Hsum. simpl in *. lia. }
    destruct (random (List.length others) g) as [idx g'] eqn:Hr.
    assert (Hidx : idx < List.length others).
    { pose proof (random_lt (List.length others) g Hpos) as H.
      now rewrite Hr in H. }
    set (x := nth idx others Undefined).
    assert (Hx : nth_error others idx = Some x)
      by (apply nth_error_nth'; exact Hidx).
    pose proof (remove_nth_Permutation idx x others Hx) as HP.
    assert (Hnd' : NoDup (x :: remove_nth idx others)).
    { eapply Permutation_NoDup; [symmetry; exact HP | exact Hnd]. }
    apply NoDup_cons_iff in Hnd' as [Hnotin Hrest].
    rewrite <- (fresh_Permutation options _ _ HP), fresh_cons in Hsum.
    pose proof (length_remove_nth idx others Hidx) as Hshort.
    apply IH; [exact Hrest | lia |].
    destruct (includes x options).
    + lia.
    + rewrite length_app, (fresh_push options x _ Hnotin). simpl. lia.
Qed.

Lemma flag_loop_invariant (turns : nat) (options : list value)
  (others : list CountryRecord) (g : rng) :
  (exists extra, fst (flag_loop turns options others g) = options ++ extra)
  /\ (List.length options <= 4 ->
      List.length (fst (flag_loop turns options others g)) <= 4).
Proof.
  revert options others g.
  induction turns as [| t IH]; intros options others g; cbn [flag_loop].
  - split; [exists []; now rewrite app_nil_r | trivial].
  - destruct (Nat.ltb_spec (List.length options) 4) as [Hlt | Hge]; cbn [andb].
    2: { split; [exists []; now rewrite app_nil_r | trivial]. }
    destruct (Nat.ltb 0 (List.length others)).
    2: { split; [exists []; now rewrite app_nil_r | trivial]. }
    destruct (random (List.length others) g) as [idx g'].
    destruct (nth_error others idx) as [other |].
    2: { split; [exists []; now rewrite app_nil_r | trivial]. }
    destruct (IH (options ++ [FlagOption (name other) (flag other) (flagAlt other)])
                 (remove_nth idx others) g') as ([extra H2] & H3).
    split.
    + eexists. rewrite H2, <- app_assoc. reflexivity.
    + intros _. apply H3. rewrite length_app. simpl. lia.
Qed.

(** ** Deduplication *)

Lemma dedupe_from (xs seen : list value) :
  NoDup seen ->
  NoDup (fold_left (fun seen x => if includes x seen then seen else seen ++ [x]) xs seen)
  /\ forall x,
       In x (fold_left (fun seen x => if includes x seen then seen else seen ++ [x]) xs seen)
       <-> In x seen \/ In x xs.
Proof.
  revert seen. induction xs as [| y xs IH]; intros seen Hnd; simpl.
  - split; [exact Hnd | intros x; tauto].
  - destruct (includes y seen) eqn:Hinc.
    + destruct (IH seen Hnd) as [H1 H2]. split; [exact H1 |].
      intros x. rewrite H2. apply includes_In in Hinc.
      split; [tauto |]. intros [H | [<- | H]]; tauto.
    + apply includes_not_In in Hinc.
      destruct (IH (seen ++ [y]) (NoDup_snoc y seen Hnd Hinc)) as [H1 H2].
      split; [exact H1 |].
      intros x. rewrite H2, in_app_iff. simpl. tauto.
Qed.

Lemma dedupe_NoDup (xs : list value) : NoDup (dedupe xs).
Proof. apply dedupe_from. constructor. Qed.

Lemma dedupe_In (xs : list value) (x : value) : In x (dedupe xs) <-> In x xs.
Proof.
  unfold dedupe. destruct (dedupe_from xs [] (NoDup_nil _)) as [_ H].
  rewrite H. simpl. tauto.
Qed.

Lemma distinctb_NoDup (xs : list value) : distinctb xs = true -> NoDup xs.
Proof.
  induction xs as [| x r IH]; simpl; intros H.
  - constructor.
  - apply andb_true_iff in H as [Hx Hr]. constructor.
    + apply negb_true_iff in Hx. now apply includes_not_In.
    + now apply IH.
Qed.

(** A list of distinct entries loses at most one of them to one option. *)
Lemma fresh_single (a : value) (l : list value) :
  NoDup l -> List.length l <= S (fresh [a] l).
Proof.
  intros Hnd.
  assert (HP : forall x, In x l -> x <> a -> In x (filter (fun x => negb (includes x [a])) l)).
  { intros x Hx Hxa. apply filter_In. split; [exact Hx |].
    apply negb_true_iff, includes_not_In. intros [E | []]. now subst. }
  unfold fresh.
  destruct (in_dec value_eq_dec a l) as [Ha | Ha].
  - apply in_split in Ha as (l1 & l2 & ->).
    assert (Hsub : incl (l1 ++ l2) (filter (fun x => negb (includes x [a])) (l1 ++ a :: l2))).
    { intros x Hx. apply HP.
      - apply in_app_iff in Hx. apply in_app_iff. simpl. tauto.
      - intros ->. apply NoDup_remove_2 in Hnd. contradiction. }
    apply NoDup_remove_1 in Hnd.
    pose proof (NoDup_incl_length Hnd Hsub) as Hlen.
    rewrite length_app in Hlen |- *. cbn [List.length]. lia.
  - assert (Hsub : incl l (filter (fun x => negb (includes x [a])) l)).
    { intros x Hx. apply HP; [exact Hx |]. intros ->. contradiction. }
    pose proof (NoDup_incl_length Hnd Hsub). lia.
Qed.

(** ** The option generators *)

Lemma fallback_loop_full (turns : nat) (options : list value) (g : rng) :
  4 <= List.length options -> fallback_loop turns options g = Done (options, g).
Proof.
  intros H.
  destruct turns; cbn [fallback_loop];
    (destruct (Nat.ltb_spec (List.length options) 4); [lia | reflexivity]).
Qed.

Lemma pad_common_full (correct : value) (options : list value) (rest : list string) :
  4 <= List.length options -> pad_common correct options rest = options.
Proof.
  intros H. destruct rest; cbn [pad_common]; [reflexivity |].
  destruct (Nat.ltb_spec (List.length options) 4); [lia | reflexivity].
Qed.

Lemma commonTimezones_distinct : NoDup (map Str commonTimezones).
Proof. apply distinctb_NoDup. vm_compute. reflexivity. Qed.

Lemma commonLanguages_distinct : NoDup (map Str commonLanguages).
Proof. apply distinctb_NoDup. vm_compute. reflexivity. Qed.

(** Sampling from a deduplicated list that holds every entry of [common]
    fills the options up to four. *)
Lemma sample_distinct_fills (a : value) (others : list value) (common : list string) (g : rng) :
  NoDup others ->
  NoDup (map Str common) ->
  4 <= List.length common ->
  (forall x, In x (map Str common) -> x <> a -> In x others) ->
  List.length (fst (sample_distinct [a] others g)) = 4
  /\ NoDup (fst (sample_distinct [a] others g))
  /\ In a (fst (sample_distinct [a] others g)).
Proof.
  intros Hnd Hcommon Hlen Hin. unfold sample_distinct.
  assert (Hsingle : NoDup [a]) by (repeat constructor; intros []).
  destruct (sample_loop_invariant (List.length others) [a] others g Hsingle)
    as (Hnodup & [extra Hpre] & Hmost).
  assert (Hfresh : 3 <= fresh [a] others).
  { pose proof (fresh_single a (map Str common) Hcommon) as H1.
    rewrite length_map in H1.
    assert (H2 : fresh [a] (map Str common) <= fresh [a] others).
    { unfold fresh.
      apply NoDup_incl_length; [now apply NoDup_filter |].
      intros x Hx. apply filter_In in Hx as [Hx Hp].
      apply filter_In. split; [| exact Hp].
      apply Hin; [exact Hx |].
      apply negb_true_iff, includes_not_In in Hp.
      intros ->. apply Hp. now left. }
    lia. }
  pose proof (sample_loop_full (List.length others) [a] others g Hnd (le_n _)) as Hfull.
  split; [| split].
  - specialize (Hmost ltac:(simpl; lia)). specialize (Hfull ltac:(simpl; lia)). lia.
  - exact Hnodup.
  - rewrite Hpre. now left.
Qed.

Lemma generateTimezoneOptions_fills (turns : nat) (subject : CountryRecord)
  (pool : list CountryRecord) (g : rng) :
  exists opts g',
    generateTimezoneOptions turns subject pool g = Done (opts, g')
    /\ List.length opts = 4 /\ NoDup opts /\ In (first (timezones subject)) opts.
Proof.
  unfold generateTimezoneOptions.
  set (others := flat_map timezones _).
  destruct (sample_distinct_fills (first (timezones subject))
              (dedupe (map Str (others ++ commonTimezones))) commonTimezones g)
    as (Hlen & Hnd & Hin).
  - apply dedupe_NoDup.
  - apply commonTimezones_distinct.
  - simpl. lia.
  - intros x Hx _. apply dedupe_In. rewrite map_app, in_app_iff. now right.
  - destruct (sample_distinct _ _ g) as [picked g'].
    cbn [fst] in *. exists picked, g'.
    split; [apply fallback_loop_full; lia |]. auto.
Qed.

Lemma generateLanguageOptions_fills (subject : CountryRecord)
  (pool : list CountryRecord) (g : rng) :
  or_default (first (languages subject)) "Unknown" <> Str "Unknown" ->
  List.length (fst (generateLanguageOptions subject pool g)) = 4
  /\ NoDup (fst (generateLanguageOptions subject pool g))
  /\ In (or_default (first (languages subject)) "Unknown")
        (fst (generateLanguageOptions subject pool g)).
Proof.
  intros Hknown. unfold generateLanguageOptions.
  set (correct := or_default (first (languages subject)) "Unknown") in *.
  set (others := filter _ (flat_map languages _)).
  assert (strict_eq correct (Str "Unknown") = false) as ->
    by now apply strict_eq_false_iff.
  cbn [negb andb].
  destruct (sample_distinct_fills correct
              (filter (fun l => negb (strict_eq l correct))
                      (dedupe (map Str (others ++ commonLanguages))))
              commonLanguages g)
    as (Hlen & Hnd & Hin).
  - apply NoDup_filter, dedupe_NoDup.
  - apply commonLanguages_distinct.
  - simpl. lia.
  - intros x Hx Hne. apply filter_In. split.
    + apply dedupe_In. rewrite map_app, in_app_iff. now right.
    + now apply negb_true_iff, strict_eq_false_iff.
  - destruct (sample_distinct _ _ g) as [picked g'].
    cbn [fst] in *. rewrite pad_common_full by lia. auto.
Qed.

Lemma generateCapitalOptions_distinct (subject : CountryRecord)
  (pool : list CountryRecord) (g : rng) :
  1 <= List.length (fst (generateCapitalOptions subject pool g)) <= 4
  /\ NoDup (fst (generateCapitalOptions subject pool g))
  /\ In (capital subject) (fst (generateCapitalOptions subject pool g)).
Proof.
  unfold generateCapitalOptions, sample_distinct.
  set (others := map capital _).
  assert (Hsingle : NoDup [capital subject]) by (repeat constructor; intros []).
  destruct (sample_loop_invariant (List.length others) _ others g Hsingle)
    as (Hnodup & [extra Hpre] & Hmost).
  split; [| split].
  - split; [rewrite Hpre; simpl; lia | apply Hmost; simpl; lia].
  - exact Hnodup.
  - rewrite Hpre. now left.
Qed.

Lemma generateCurrencyOptions_distinct (subject : CountryRecord)
  (pool : list CountryRecord) (g : rng) :
  1 <= List.length (fst (generateCurrencyOptions subject pool g)) <= 4
  /\ NoDup (fst (generateCurrencyOptions subject pool g))
  /\ In (first (currencies subject)) (fst (generateCurrencyOptions subject pool g)).
Proof.
  unfold generateCurrencyOptions, sample_distinct.
  set (others := map Str _).
  assert (Hsingle : NoDup [first (currencies subject)])
    by (repeat constructor; intros []).
  destruct (sample_loop_invariant (List.length others) _ others g Hsingle)
    as (Hnodup & [extra Hpre] & Hmost).
  split; [| split].
  - split; [rewrite Hpre; simpl; lia | apply Hmost; simpl; lia].
  - exact Hnodup.
  - rewrite Hpre. now left.
Qed.

Lemma generateFlagOptions_bounds (subject : CountryRecord)
  (pool : list CountryRecord) (g : rng) :
  1 <= List.length (fst (generateFlagOptions subject pool g)) <= 4
  /\ In (FlagOption (name subject) (flag subject) (flagAlt subject))
        (fst (generateFlagOptions subject pool g)).
Proof.
  unfold generateFlagOptions.
  set (others := filter _ pool).
  destruct (flag_loop_invariant (List.length others)
              [FlagOption (name subject) (flag subject) (flagAlt subject)] others g)
    as ([extra Hpre] & Hmost).
  split.
  - split; [rewrite Hpre; simpl; lia | apply Hmost; simpl; lia].
  - rewrite Hpre. now left.
Qed.

Lemma flag_loop_objects (turns : nat) (options : list value)
  (others : list CountryRecord) (g : rng) :
  Forall is_option_object options ->
  Forall is_option_object (fst (flag_loop turns options others g)).
Proof.
  revert options others g.
  induction turns as [| t IH]; intros options others g Hall; cbn [flag_loop];
    [exact Hall |].
  destruct (Nat.ltb (List.length options) 4 && Nat.ltb 0 (List.length others));
    [| exact Hall].
  destruct (random (List.length others) g) as [idx g'].
  destruct (nth_error others idx) as [other |]; [| exact Hall].
  apply IH. apply Forall_app. split; [exact Hall |].
  constructor; [| constructor]. now exists (name other), (flag other), (flagAlt other).
Qed.

Lemma generateFlagOptions_objects (subject : CountryRecord)
  (pool : list CountryRecord) (g : rng) :
  Forall is_option_object (fst (generateFlagOptions subject pool g)).
Proof.
  unfold generateFlagOptions. apply flag_loop_objects.
  constructor; [| constructor].
  now exists (name subject), (flag subject), (flagAlt subject).
Qed.

Lemma by_difficulty_length (difficulty : string) (easy medium hard : list Q) :
  List.length easy = 3 -> List.length medium = 3 -> List.length hard = 3 ->
  List.length (by_difficulty difficulty easy medium hard) = 3.
Proof.
  intros He Hm Hh. unfold by_difficulty.
  destruct (String.eqb difficulty "easy"); [exact He |].
  destruct (String.eqb difficulty "medium"); assumption.
Qed.

(** ** Generated questions *)

Lemma once_of_distinct (x : value) (l : list value) :
  NoDup l -> In x l -> count_occ value_eq_dec l x = 1.
Proof.
  intros Hnd. revert x. now apply NoDup_count_occ'.
Qed.

Lemma build_contract (difficulty : string) (turns : nat) (ty : category)
  (subject : CountryRecord) (pool : list CountryRecord) (g : rng) :
  exists text correct opts expl med g',
    build difficulty turns ty subject pool g = Done (text, correct, opts, expl, med, g')
    /\ options_contract ty subject correct opts.
Proof.
  destruct ty; cbn [build options_contract].
  - do 6 eexists. split; [reflexivity |]. split; [| now left].
    unfold generatePopulationOptions.
    rewrite length_app, length_map, by_difficulty_length; reflexivity.
  - do 6 eexists. split; [reflexivity |]. split; [| now left].
    unfold generateAreaOptions.
    rewrite length_app, length_map, by_difficulty_length; reflexivity.
  - do 6 eexists. split; [reflexivity |]. split; [| now left].
    unfold generateGDPOptions.
    rewrite length_app, length_map, by_difficulty_length; reflexivity.
  - destruct (generateCapitalOptions_distinct subject pool g) as (Hlen & Hnd & Hin).
    destruct (generateCapitalOptions subject pool g) as [opts g'].
    cbn [fst] in *. do 6 eexists. split; [reflexivity |].
    auto using once_of_distinct.
  - destruct (generateCurrencyOptions_distinct subject pool g) as (Hlen & Hnd & Hin).
    destruct (generateCurrencyOptions subject pool g) as [opts g'].
    cbn [fst] in *. do 6 eexists. split; [reflexivity |].
    auto using once_of_distinct.
  - pose proof (generateLanguageOptions_fills subject pool g) as H.
    destruct (generateLanguageOptions subject pool g) as [opts g'].
    cbn [fst] in *. do 6 eexists. split; [reflexivity |].
    split; [reflexivity |]. intros Hknown.
    destruct (H Hknown) as (Hlen & Hnd & Hin).
    auto using once_of_distinct.
  - destruct (generateTimezoneOptions_fills turns subject pool g)
      as (opts & g' & -> & Hlen & Hnd & Hin).
    do 6 eexists. split; [reflexivity |].
    auto using once_of_distinct.
  - destruct (generateFlagOptions_bounds subject pool g) as (Hlen & Hin).
    pose proof (generateFlagOptions_objects subject pool g) as Hobj.
    destruct (generateFlagOptions subject pool g) as [opts g'].
    cbn [fst] in *. do 6 eexists. split; [reflexivity |]. auto.
Qed.





(** ** Session flow *)

(** The generator always ends: the fallback loop of the timezone
    generator, the only unbounded one, is never entered. *)
Lemma generateMultipleChoiceQuestion_ends (difficulty : string) (turns : nat)
  (ty : category) (pool : list CountryRecord) (g : rng) :
  generateMultipleChoiceQuestion difficulty turns ty pool g <> Unfinished.
Proof.
  unfold generateMultipleChoiceQuestion.
  destruct (random (List.length pool) g) as [idx g1].
  destruct (nth_error pool idx) as [subject |]; [| discriminate].
  destruct (build_contract difficulty turns ty subject pool g1)
    as (text & correct & opts & expl & med & g2 & -> & _).
  destruct (shuffleArray opts g2). discriminate.
Qed.

Lemma generateQuestion_ends (turns : nat) (s : Engine) (g : rng) :
  generateQuestion turns s g <> Unfinished.
Proof.
  unfold generateQuestion.
  destruct (random (List.length questionTypes) g) as [idx g1].
  unfold getCountriesForDifficulty.
  destruct (difficultySettings (difficulty s)) as [[cap popularOnly |] |];
    try discriminate; apply generateMultipleChoiceQuestion_ends.
Qed.

Lemma nextQuestion_index (turns : nat) (s : Engine) (g : rng) :
  index_in_range s ->
  match nextQuestion turns s g with
  | Returns _ s' => index_in_range s'
  | Throws s' => index_in_range s'
  | Hangs => False
  end.
Proof.
  unfold index_in_range, nextQuestion. intros H.
  destruct (Z.leb_spec (totalQuestions s) (questionNumber s)) as [Hle | Hlt].
  - exact H.
  - match goal with
    | |- context [generateQuestion ?t ?s1 ?g1] =>
        pose proof (generateQuestion_ends t s1 g1) as Hends;
        destruct (generateQuestion t s1 g1) as [[q g'] | |]
    end; cbn [questionNumber totalQuestions]; try lia.
    now apply Hends.
Qed.

Lemma asked_counts (n : nat) (s s' : Engine) :
  asked n s s' ->
  questionNumber s' = (questionNumber s + Z.of_nat n)%Z
  /\ totalQuestions s' = totalQuestions s.
Proof.
  induction 1 as [s | n turns s s1 s2 g g' q _ [IHn IHt] Hn
                    | n s s1 s2 v r _ [IHn IHt] Hc].
  - split; lia.
  - unfold nextQuestion in Hn.
    destruct (totalQuestions s1 <=? questionNumber s1)%Z; [discriminate |].
    destruct (generateQuestion _ _ _) as [[q' g3] | |]; try discriminate.
    injection Hn as _ _ <-. cbn [questionNumber totalQuestions]. split; lia.
  - apply checkAnswer_frame in Hc as (_ & Hn & Ht & _). split; congruence.
Qed.

Lemma ask_sound (n turns : nat) (s s' : Engine) (g g' : rng) :
  ask n turns s g = Some (s', g') -> asked n s s'.
Proof.
  revert s' g'. induction n as [| n IH]; intros s' g' H; simpl in H.
  - injection H as <- _. constructor.
  - destruct (ask n turns s g) as [[s1 g1] |]; [| discriminate].
    destruct (nextQuestion turns s1 g1) as [[[q |] g2] s2 | |] eqn:Hn; try discriminate.
    injection H as <- <-.
    eapply asked_next; [apply (IH _ _ eq_refl) | exact Hn].
Qed.

(** C7: every call of [nextQuestion] and of [checkAnswer] ends, returning
    or throwing, and [0 <= questionNumber <= totalQuestions] is kept by
    [nextQuestion] (also when its generator throws), [checkAnswer], [reset]
    and [setDifficulty]; and once as many questions were handed out as the
    session has, counted from a reset, the counter equals
    [totalQuestions] and a further [nextQuestion] returns [null] and leaves
    the state as it is. *)
Theorem questionNumber_in_range :
  (forall s : Engine,
     index_in_range s ->
     (forall turns g,
        match nextQuestion turns s g with
        | Returns _ s' => index_in_range s'
        | Throws s' => index_in_range s'
        | Hangs => False
        end)
     /\ (forall v,
           match checkAnswer v s with
           | Returns _ s' => index_in_range s'
           | Throws s' => index_in_range s'
           | Hangs => False
           end)
     /\ index_in_range (reset s)
     /\ (forall level, index_in_range (setDifficulty level s)))
  /\ (forall (s0 s : Engine) (n : nat),
        asked n (reset s0) s ->
        Z.of_nat n = totalQuestions s0 ->
        questionNumber s = totalQuestions s
        /\ forall turns g, nextQuestion turns s g = Returns (None, g) s).
Proof.
  split.
  - intros s H. split; [| split; [| split]].
    + intros turns g. now apply nextQuestion_index.
    + intros v. destruct (checkAnswer v s) as [r s' | s' |] eqn:Hc.
      * apply checkAnswer_frame in Hc as (_ & Hn & Ht & _).
        unfold index_in_range in *. rewrite Hn, Ht. exact H.
      * unfold checkAnswer in Hc.
        destruct (currentQuestion s) as [q |]; [| injection Hc as <-; exact H].
        destruct (strict_eq v (correctAnswer q)); discriminate.
      * unfold checkAnswer in Hc.
        destruct (currentQuestion s) as [q |]; [| discriminate].
        destruct (strict_eq v (correctAnswer q)); discriminate.
    + unfold index_in_range in *. cbn [reset questionNumber totalQuestions]. lia.
    + intros level. unfold setDifficulty.
      destruct (difficultySettings level); [| exact H].
      unfold index_in_range in *. cbn [reset questionNumber totalQuestions]. lia.
  - intros s0 s n Hrun Hn.
    apply asked_counts in Hrun as [Hq Ht].
    cbn [reset questionNumber totalQuestions] in Hq, Ht.
    assert (E : questionNumber s = totalQuestions s) by lia.
    split; [exact E |].
    intros turns g. unfold nextQuestion.
    rewrite E, Z.leb_refl. reflexivity.
Qed.

Lemma questionNumber_in_range_witness :
  index_in_range (reset engine_in_progress)
  /\ index_in_range (setDifficulty "hard" engine_in_progress)
  /\ (exists s g,
        ask 10 0 (reset sample_engine) sample_rng = Some (s, g)
        /\ questionNumber s = totalQuestions s
        /\ nextQuestion 0 s g = Returns (None, g) s).
Proof.
  destruct questionNumber_in_range as [Hinv Hend].
  assert (H0 : index_in_range engine_in_progress).
  { unfold index_in_range. simpl. lia. }
  destruct (Hinv engine_in_progress H0) as (_ & _ & Hreset & Hset).
  split; [exact Hreset |]. split; [apply Hset |].
  destruct (ask 10 0 (reset sample_engine) sample_rng)
    as [[s g] |] eqn:Hask; [| vm_compute in Hask; discriminate].
  exists s, g. split; [reflexivity |].
  destruct (Hend sample_engine s 10%nat (ask_sound _ _ _ _ _ _ Hask) eq_refl)
    as [Hq Hnone].
  split; [exact Hq | apply Hnone].
Defined.

(** * Further properties of the engine *)

(** ** Shuffling *)

Lemma set_nth_same {A : Type} (i : nat) (x : A) (xs : list A) :
  nth_error xs i = Some x -> set_nth i x xs = xs.
Proof.
  revert i. induction xs as [| y r IH]; intros [| i] H; cbn in *;
    try discriminate.
  - now injection H as ->.
  - now rewrite IH.
Qed.

Lemma swap_same {A : Type} (i : nat) (xs : list A) : swap i i xs = xs.
Proof.
  unfold swap. destruct (nth_error xs i) as [x |] eqn:H; [| reflexivity].
  rewrite (set_nth_same i x xs H). exact (set_nth_same i x xs H).
Qed.

Lemma shuffle_from_in_place {A : Type} (i : nat) (xs : list A) :
  forall g : rng,
    (forall m, m < i -> Nat.modulo (g m) (i - m + 1) = i - m) ->
    fst (shuffle_from i xs g) = xs.
Proof.
  induction i as [| i IH]; intros g Hg; cbn [shuffle_from]; [reflexivity |].
  unfold random. replace (S i + 1) with (S (S i)) by lia. cbv iota.
  pose proof (Hg 0 ltac:(lia)) as H0.
  replace (S i - 0 + 1) with (S (S i)) in H0 by lia.
  replace (S i - 0) with (S i) in H0 by lia.
  rewrite H0, swap_same. apply IH.
  intros m Hm. pose proof (Hg (S m) ltac:(lia)) as H.
  replace (S i - S m) with (i - m) in H by lia. exact H.
Qed.

(** X1: [shuffleArray] returns a rearrangement of its argument, of the same
    length, and uses one random draw per element but the first.  Every
    entry can keep its place: when each draw picks the index the loop
    stands at, the array comes back as it was. *)
Theorem shuffleArray_rearranges :
  forall (A : Type) (eq_dec : forall x y : A, {x = y} + {x <> y})
         (xs : list A) (g : rng),
    Permutation (fst (shuffleArray xs g)) xs
    /\ List.length (fst (shuffleArray xs g)) = List.length xs
    /\ (forall k, snd (shuffleArray xs g) k = drop_draws (List.length xs - 1) g k)
    /\ ((forall m, m < List.length xs - 1 ->
                   Nat.modulo (g m) (List.length xs - m) = List.length xs - 1 - m) ->
        fst (shuffleArray xs g) = xs).
Proof.
  intros A eq_dec xs g.
  pose proof (shuffleArray_Permutation eq_dec xs g) as HP.
  split; [exact HP |]. split; [exact (Permutation_length HP) |].
  clear HP. unfold shuffleArray, drop_draws. split.
  - generalize (List.length xs - 1) as i. intros i. revert xs g.
    induction i as [| i IH]; intros xs g k; cbn [shuffle_from].
    + reflexivity.
    + unfold random at 1. cbn iota beta.
      rewrite IH. reflexivity.
  - intros Hg. apply shuffle_from_in_place. intros m Hm.
    replace (List.length xs - 1 - m + 1) with (List.length xs - m) by lia.
    now apply Hg.
Qed.

Lemma shuffleArray_rearranges_witness :
  fst (shuffleArray ["p"; "q"; "r"] (fun k => 2 - k)) = ["p"; "q"; "r"]
  /\ Permutation (fst (shuffleArray ["p"; "q"; "r"] sample_rng)) ["p"; "q"; "r"].
Proof.
  destruct (shuffleArray_rearranges string string_dec ["p"; "q"; "r"] (fun k => 2 - k))
    as (_ & _ & _ & Hsame).
  destruct (shuffleArray_rearranges string string_dec ["p"; "q"; "r"] sample_rng)
    as (Hperm & _).
  split; [| exact Hperm].
  apply Hsame. intros [| [| m]] Hm; cbn in *; [reflexivity | reflexivity | lia].
Defined.

(** ** How many options the sampling generators reach *)

Lemma sample_loop_members (turns : nat) (options others : list value) (g : rng)
  (x : value) :
  In x (fst (sample_loop turns options others g)) -> In x options \/ In x others.
Proof.
  revert options others g.
  induction turns as [| t IH]; intros options others g; cbn [sample_loop].
  - now left.
  - destruct (Nat.ltb (List.length options) 4); cbn [andb]; [| now left].
    destruct (Nat.ltb_spec 0 (List.length others)) as [Hpos | Hz]; [| now left].
    destruct (random (List.length others) g) as [idx g'] eqn:Hr.
    assert (Hidx : idx < List.length others).
    { pose proof (random_lt (List.length others) g Hpos) as H. now rewrite Hr in H. }
    set (y := nth idx others Undefined).
    assert (Hy : nth_error others idx = Some y) by (apply nth_error_nth'; exact Hidx).
    pose proof (remove_nth_Permutation idx y others Hy) as HP.
    intros H. apply IH in H as [H | H].
    + destruct (includes y options); [now left |].
      apply in_app_iff in H as [H | [<- | []]]; [now left | right].
      eapply nth_error_In; exact Hy.
    + right. apply (Permutation_in _ HP). now right.
Qed.

Lemma In_lacking (options l : list value) (y : value) :
  In y (filter (fun x => negb (includes x options)) (dedupe l))
  <-> In y l /\ ~ In y options.
Proof.
  rewrite filter_In, dedupe_In, negb_true_iff, includes_not_In. tauto.
Qed.

Lemma lacking_NoDup (options l : list value) :
  NoDup (filter (fun x => negb (includes x options)) (dedupe l)).
Proof. apply NoDup_filter, dedupe_NoDup. Qed.

Lemma supply_skip (options l rest : list value) (x : value) :
  In x options -> Permutation (x :: rest) l ->
  supply options rest = supply options l.
Proof.
  intros Hx HP. unfold supply, fresh.
  apply Permutation_length, NoDup_Permutation; try apply lacking_NoDup.
  intros y. rewrite !In_lacking. split.
  - intros [Hy Hn]. split; [| exact Hn]. apply (Permutation_in _ HP). now right.
  - intros [Hy Hn]. split; [| exact Hn].
    apply (Permutation_in _ (Permutation_sym HP)) in Hy as [<- | Hy];
      [contradiction | exact Hy].
Qed.

Lemma supply_take (options l rest : list value) (x : value) :
  ~ In x options -> Permutation (x :: rest) l ->
  supply options l = S (supply (options ++ [x]) rest).
Proof.
  intros Hx HP. unfold supply, fresh.
  change (S (List.length ?l)) with (List.length (x :: l)).
  apply Permutation_length, NoDup_Permutation.
  - apply lacking_NoDup.
  - constructor; [| apply lacking_NoDup].
    rewrite In_lacking, in_app_iff. simpl. tauto.
  - intros y. simpl. rewrite !In_lacking, in_app_iff. simpl. split.
    + intros [Hy Hn].
      apply (Permutation_in _ (Permutation_sym HP)) in Hy as [<- | Hy];
        [now left |].
      destruct (value_eq_dec x y) as [<- | Hne]; [now left | right].
      split; [exact Hy |]. intros [H | [H | []]]; contradiction.
    + intros [<- | [Hy Hn]].
      * split; [| exact Hx]. apply (Permutation_in _ HP). now left.
      * split; [| tauto]. apply (Permutation_in _ HP). now right.
Qed.

Lemma supply_nil (options : list value) : supply options [] = 0.
Proof. reflexivity. Qed.

Lemma sample_loop_length (turns : nat) (options others : list value) (g : rng) :
  List.length others <= turns ->
  List.length options <= 4 ->
  List.length (fst (sample_loop turns options others g))
  = Nat.min 4 (List.length options + supply options others).
Proof.
  revert options others g.
  induction turns as [| t IH]; intros options others g Hlen Hmost; cbn [sample_loop].
  - destruct others; [| simpl in Hlen; lia]. rewrite supply_nil. cbn [fst]. lia.
  - destruct (Nat.ltb_spec (List.length options) 4) as [Hlt | Hge]; cbn [andb];
      [| cbn [fst]; lia].
    destruct (Nat.ltb_spec 0 (List.length others)) as [Hpos | Hz].
    2: { destruct others; simpl in Hz; [| lia]. rewrite supply_nil. cbn [fst]. lia. }
    destruct (random (List.length others) g) as [idx g'] eqn:Hr.
    assert (Hidx : idx < List.length others).
    { pose proof (random_lt (List.length others) g Hpos) as H. now rewrite Hr in H. }
    set (x := nth idx others Undefined).
    assert (Hx : nth_error others idx = Some x) by (apply nth_error_nth'; exact Hidx).
    pose proof (remove_nth_Permutation idx x others Hx) as HP.
    pose proof (length_remove_nth idx others Hidx) as Hshort.
    destruct (includes x options) eqn:Hinc.
    + apply includes_In in Hinc.
      rewrite IH by lia. now rewrite (supply_skip options others _ x Hinc HP).
    + apply includes_not_In in Hinc.
      rewrite IH by (rewrite ?length_app; simpl; lia).
      rewrite (supply_take options others _ x Hinc HP), length_app.
      cbn [List.length]. lia.
Qed.

Lemma generated_from_build (difficulty : string) (turns : nat) (ty : category)
  (pool : list CountryRecord) (g : rng) :
  pool <> [] ->
  exists subject g1,
    In subject pool
    /\ forall text correct opts expl med g2,
         build difficulty turns ty subject pool g1
         = Done (text, correct, opts, expl, med, g2) ->
         exists q g3,
           generateMultipleChoiceQuestion difficulty turns ty pool g = Done (q, g3)
           /\ type q = ty /\ question q = text /\ correctAnswer q = correct
           /\ explanation q = expl /\ media q = med /\ country q = name subject
           /\ Permutation (options q) opts.
Proof.
  intros Hpool. unfold generateMultipleChoiceQuestion.
  destruct (random (List.length pool) g) as [idx g1] eqn:Hr.
  assert (Hidx : idx < List.length pool).
  { pose proof (random_lt (List.length pool) g) as H. rewrite Hr in H.
    apply H. destruct pool; [contradiction | simpl; lia]. }
  destruct (nth_error pool idx) as [subject |] eqn:Hsub.
  2: { apply nth_error_None in Hsub. lia. }
  exists subject, g1. split; [eapply nth_error_In; exact Hsub |].
  intros text correct opts expl med g2 ->.
  pose proof (shuffleArray_Permutation value_eq_dec opts g2) as HP.
  destruct (shuffleArray opts g2) as [shuffled g3]. cbn [fst] in HP.
  eexists. exists g3. split; [reflexivity |].
  cbn [type question correctAnswer explanation media country options].
  repeat split; trivial.
Qed.

(** X2: a capital question over a non-empty pool has exactly
    [min 4 (1 + n)] options, [n] being the number of distinct capitals,
    other than "N/A" and the subject's own, of the pool countries named
    differently from the subject; every option is the subject's capital
    or such a capital. *)
Theorem capital_question_options :
  forall (difficulty : string) (turns : nat) (pool : list CountryRecord) (g : rng),
    pool <> [] ->
    exists (subject : CountryRecord) (q : Question) (g' : rng),
      In subject pool
      /\ generateMultipleChoiceQuestion difficulty turns Capital pool g = Done (q, g')
      /\ country q = name subject
      /\ correctAnswer q = capital subject
      /\ List.length (options q)
         = Nat.min 4 (1 + supply [capital subject] (otherCapitals subject pool))
      /\ forall o, In o (options q) ->
           o = capital subject
           \/ exists c, In c pool /\ name c <> name subject
                        /\ capital c = o /\ o <> Str "N/A".
Proof.
  intros difficulty turns pool g Hpool.
  destruct (generated_from_build difficulty turns Capital pool g Hpool)
    as (subject & g1 & Hin & Hgen).
  cbn [build] in Hgen.
  change (generateCapitalOptions subject pool g1)
    with (sample_distinct [capital subject] (otherCapitals subject pool) g1) in Hgen.
  unfold sample_distinct in Hgen.
  pose proof (sample_loop_length (List.length (otherCapitals subject pool))
                [capital subject] (otherCapitals subject pool) g1 (le_n _)) as Hlen.
  pose proof (sample_loop_members (List.length (otherCapitals subject pool))
                [capital subject] (otherCapitals subject pool) g1) as Hmem.
  destruct (sample_loop _ _ _ g1) as [opts g2]. cbn [fst] in Hlen, Hmem.
  destruct (Hgen _ _ _ _ _ _ eq_refl)
    as (q & g3 & Hq & _ & _ & Hcorrect & _ & _ & Hcountry & HP).
  exists subject, q, g3. repeat (split; [assumption |]). split.
  - rewrite (Permutation_length HP). apply Hlen. simpl. lia.
  - intros o Ho. apply (Permutation_in _ HP) in Ho.
    destruct (Hmem o Ho) as [[<- | []] | Hother]; [now left | right].
    unfold otherCapitals in Hother.
    apply in_map_iff in Hother as (c & <- & Hc).
    apply filter_In in Hc as [Hc Hp].
    apply andb_true_iff in Hp as [Hname Hna].
    exists c. split; [exact Hc |]. split; [| split; [reflexivity |]].
    + unfold other_than in Hname. apply negb_true_iff in Hname.
      now apply String.eqb_neq.
    + now apply strict_eq_false_iff, negb_true_iff.
Qed.

Lemma capital_question_options_witness :
  exists (subject : CountryRecord) (q : Question) (g' : rng),
    In subject sample_countries
    /\ generateMultipleChoiceQuestion "easy" 0 Capital sample_countries sample_rng
       = Done (q, g')
    /\ List.length (options q) = 4.
Proof.
  destruct (capital_question_options "easy" 0 sample_countries sample_rng)
    as (subject & q & g' & Hin & Hq & _ & _ & Hlen & _).
  - discriminate.
  - exists subject, q, g'. split; [exact Hin |]. split; [exact Hq |].
    rewrite Hlen. clear Hq Hlen.
    destruct Hin as [<- | [<- | [<- | [<- | [<- | []]]]]]; vm_compute; reflexivity.
Defined.

(** X3: a currency question over a non-empty pool has exactly
    [min 4 (1 + n)] options, [n] being the number of distinct currencies,
    other than the subject's first, of the pool countries named differently
    from the subject; every option is the subject's first currency entry or
    a currency of such a country. *)
Theorem currency_question_options :
  forall (difficulty : string) (turns : nat) (pool : list CountryRecord) (g : rng),
    pool <> [] ->
    exists (subject : CountryRecord) (q : Question) (g' : rng),
      In subject pool
      /\ generateMultipleChoiceQuestion difficulty turns Currency pool g = Done (q, g')
      /\ country q = name subject
      /\ List.length (options q)
         = Nat.min 4 (1 + supply [first (currencies subject)]
                                 (otherCurrencies subject pool))
      /\ forall o, In o (options q) ->
           o = first (currencies subject)
           \/ exists c cur, In c pool /\ name c <> name subject
                            /\ In cur (currencies c) /\ o = Str cur.
Proof.
  intros difficulty turns pool g Hpool.
  destruct (generated_from_build difficulty turns Currency pool g Hpool)
    as (subject & g1 & Hin & Hgen).
  cbn [build] in Hgen.
  change (generateCurrencyOptions subject pool g1)
    with (sample_distinct [first (currencies subject)]
            (otherCurrencies subject pool) g1) in Hgen.
  unfold sample_distinct in Hgen.
  pose proof (sample_loop_length (List.length (otherCurrencies subject pool))
                [first (currencies subject)] (otherCurrencies subject pool) g1
                (le_n _)) as Hlen.
  pose proof (sample_loop_members (List.length (otherCurrencies subject pool))
                [first (currencies subject)] (otherCurrencies subject pool) g1)
    as Hmem.
  destruct (sample_loop _ _ _ g1) as [opts g2]. cbn [fst] in Hlen, Hmem.
  destruct (Hgen _ _ _ _ _ _ eq_refl)
    as (q & g3 & Hq & _ & _ & _ & _ & _ & Hcountry & HP).
  exists subject, q, g3. repeat (split; [assumption |]). split.
  - rewrite (Permutation_length HP). apply Hlen. simpl. lia.
  - intros o Ho. apply (Permutation_in _ HP) in Ho.
    destruct (Hmem o Ho) as [[<- | []] | Hother]; [now left | right].
    unfold otherCurrencies in Hother.
    apply in_map_iff in Hother as (cur & <- & Hcur).
    apply in_flat_map in Hcur as (c & Hc & Hcur).
    apply filter_In in Hc as [Hc Hp].
    apply andb_true_iff in Hp as [Hname _].
    exists c, cur. split; [exact Hc |]. split; [| split; [exact Hcur | reflexivity]].
    unfold other_than in Hname. apply negb_true_iff in Hname.
    now apply String.eqb_neq.
Qed.

Lemma currency_question_options_witness :
  exists (subject : CountryRecord) (q : Question) (g' : rng),
    In subject money_pool
    /\ generateMultipleChoiceQuestion "easy" 0 Currency money_pool sample_rng
       = Done (q, g')
    /\ List.length (options q) = 4.
Proof.
  destruct (currency_question_options "easy" 0 money_pool sample_rng)
    as (subject & q & g' & Hin & Hq & _ & Hlen & _).
  - discriminate.
  - exists subject, q, g'. split; [exact Hin |]. split; [exact Hq |].
    rewrite Hlen. clear Hq Hlen.
    destruct Hin as [<- | [<- | [<- | [<- | [<- | []]]]]]; vm_compute; reflexivity.
Defined.

(** ** Flag questions *)

Lemma flag_loop_picks (turns : nat) (options : list value)
  (others : list CountryRecord) (g : rng) :
  List.length others <= turns ->
  exists picked rest,
    fst (flag_loop turns options others g) = options ++ map flag_option picked
    /\ Permutation (picked ++ rest) others
    /\ (List.length options <= 4 ->
        List.length options + List.length picked
        = Nat.min 4 (List.length options + List.length others)).
Proof.
  revert options others g.
  induction turns as [| t IH]; intros options others g Hlen; cbn [flag_loop].
  - destruct others; [| simpl in Hlen; lia].
    exists [], []. cbn [fst map]. rewrite app_nil_r.
    split; [reflexivity |]. split; [constructor |]. cbn [List.length]. lia.
  - destruct (Nat.ltb_spec (List.length options) 4) as [Hlt | Hge]; cbn [andb].
    2: { exists [], others. cbn [fst map]. rewrite app_nil_r.
         split; [reflexivity |]. split; [reflexivity |]. cbn [List.length]. lia. }
    destruct (Nat.ltb_spec 0 (List.length others)) as [Hpos | Hz].
    2: { destruct others; simpl in Hz; [| lia].
         exists [], []. cbn [fst map]. rewrite app_nil_r.
         split; [reflexivity |]. split; [constructor |]. cbn [List.length]. lia. }
    destruct (random (List.length others) g) as [idx g'] eqn:Hr.
    assert (Hidx : idx < List.length others).
    { pose proof (random_lt (List.length others) g Hpos) as H. now rewrite Hr in H. }
    destruct (nth_error others idx) as [other |] eqn:Hother.
    2: { apply nth_error_None in Hother. lia. }
    pose proof (remove_nth_Permutation idx other others Hother) as HP.
    pose proof (length_remove_nth idx others Hidx) as Hshort.
    destruct (IH (options ++ [FlagOption (name other) (flag other) (flagAlt other)])
                 (remove_nth idx others) g' ltac:(lia))
      as (picked & rest & Hres & Hperm & Hcount).
    exists (other :: picked), rest. split; [| split].
    + rewrite Hres, <- app_assoc. reflexivity.
    + cbn [app]. rewrite <- HP. now constructor.
    + intros _. rewrite length_app in Hcount. cbn [List.length] in *. lia.
Qed.

Lemma NoDup_map_injective {A B : Type} (f : A -> B) (l : list A) (a b : A) :
  NoDup (map f l) -> In a l -> In b l -> f a = f b -> a = b.
Proof.
  induction l as [| x l IH]; simpl; intros Hnd Ha Hb E; [contradiction |].
  apply NoDup_cons_iff in Hnd as [Hx Hnd].
  destruct Ha as [-> | Ha], Hb as [-> | Hb]; trivial.
  - elim Hx. rewrite E. now apply in_map.
  - elim Hx. rewrite <- E. now apply in_map.
  - now apply IH.
Qed.

Lemma distinct_flags_kept (keep : CountryRecord -> bool) (pool : list CountryRecord) :
  NoDup (map flag pool) -> NoDup (map flag (filter keep pool)).
Proof.
  intros Hflags. induction pool as [| c pool IH]; cbn [filter map] in *.
  - constructor.
  - apply NoDup_cons_iff in Hflags as [Hc Hrest].
    destruct (keep c); cbn [map]; [constructor |]; try now apply IH.
    intros Hagain. apply Hc.
    apply in_map_iff in Hagain as (c' & Hsame & Hc').
    apply filter_In in Hc' as [Hc' _].
    rewrite <- Hsame. now apply in_map.
Qed.

Lemma NoDup_map_Str (l : list string) : NoDup l -> NoDup (map Str l).
Proof.
  induction 1 as [| x l Hx _ IH]; simpl; constructor; [| exact IH].
  intros H. apply in_map_iff in H as (y & E & Hy). injection E as ->. contradiction.
Qed.

(** X4: a flag question over a non-empty pool shows the subject's flag and
    [min 3 n] others, [n] being the number of pool countries named
    differently from the subject that have a flag; the distractors are
    distinct entries of the pool; when no two pool countries share a flag
    reference, the flags of the options are pairwise distinct and exactly
    one of them is the correct answer. *)
Theorem flag_question_options :
  forall (difficulty : string) (turns : nat) (pool : list CountryRecord) (g : rng),
    pool <> [] ->
    exists (subject : CountryRecord) (q : Question) (g' : rng)
           (distractors rest : list CountryRecord),
      In subject pool
      /\ generateMultipleChoiceQuestion difficulty turns Flag pool g = Done (q, g')
      /\ country q = name subject
      /\ correctAnswer q = Str (flag subject)
      /\ Permutation (options q) (flag_option subject :: map flag_option distractors)
      /\ Permutation (distractors ++ rest) (otherCountries subject pool)
      /\ List.length distractors
         = Nat.min 3 (List.length (otherCountries subject pool))
      /\ (NoDup (map flag pool) ->
          NoDup (map option_flag (options q))
          /\ count_occ value_eq_dec (map option_flag (options q)) (correctAnswer q) = 1).
Proof.
  intros difficulty turns pool g Hpool.
  destruct (generated_from_build difficulty turns Flag pool g Hpool)
    as (subject & g1 & Hin & Hgen).
  cbn [build] in Hgen. unfold generateFlagOptions in Hgen.
  fold (otherCountries subject pool) in Hgen.
  destruct (flag_loop_picks (List.length (otherCountries subject pool))
              [FlagOption (name subject) (flag subject) (flagAlt subject)]
              (otherCountries subject pool) g1 (le_n _))
    as (picked & rest & Hres & Hperm & Hcount).
  destruct (flag_loop _ _ _ g1) as [opts g2]. cbn [fst] in Hres. subst opts.
  destruct (Hgen _ _ _ _ _ _ eq_refl)
    as (q & g3 & Hq & _ & _ & Hcorrect & _ & _ & Hcountry & HP).
  exists subject, q, g3, picked, rest.
  repeat (split; [assumption |]). split.
  - specialize (Hcount ltac:(simpl; lia)). cbn [List.length] in Hcount. lia.
  - intros Hflags.
    assert (Hnd : NoDup (map option_flag
                           (flag_option subject :: map flag_option picked))).
    { cbn [map option_flag flag_option]. rewrite map_map.
      change (fun x => option_flag (flag_option x)) with (fun x => Str (flag x)).
      rewrite <- (map_map flag Str).
      change (Str (flag subject) :: map Str (map flag picked))
        with (map Str (flag subject :: map flag picked)).
      apply NoDup_map_Str. constructor.
      - intros H. apply in_map_iff in H as (c & E & Hc).
        assert (Hc' : In c (otherCountries subject pool)).
        { apply (Permutation_in _ Hperm). apply in_app_iff. now left. }
        apply filter_In in Hc' as [Hcp Hp].
        apply andb_true_iff in Hp as [Hname _].
        assert (c = subject)
          by (eapply NoDup_map_injective; eauto).
        subst c. unfold other_than in Hname.
        now rewrite String.eqb_refl in Hname.
      - assert (H : NoDup (map flag (picked ++ rest))).
        { eapply Permutation_NoDup;
            [apply Permutation_map; symmetry; exact Hperm |].
          now apply distinct_flags_kept. }
        rewrite map_app in H. now apply NoDup_app_remove_r in H. }
    assert (HP' : Permutation (map option_flag
                                 (flag_option subject :: map flag_option picked))
                              (map option_flag (options q)))
      by (apply Permutation_map; now symmetry).
    split; [eapply Permutation_NoDup; eassumption |].
    apply once_of_distinct; [eapply Permutation_NoDup; eassumption |].
    apply (Permutation_in _ HP'). rewrite Hcorrect. now left.
Qed.

Lemma flag_question_options_witness :
  exists (q : Question) (g' : rng),
    generateMultipleChoiceQuestion "easy" 0 Flag sample_countries sample_rng
    = Done (q, g')
    /\ List.length (options q) = 4
    /\ count_occ value_eq_dec (map option_flag (options q)) (correctAnswer q) = 1.
Proof.
  destruct (flag_question_options "easy" 0 sample_countries sample_rng)
    as (subject & q & g' & distractors & rest & Hin & Hq & _ & _ & HP & _ & Hlen & Hflags).
  - discriminate.
  - exists q, g'. split; [exact Hq |]. split.
    + rewrite (Permutation_length HP). cbn [List.length].
      rewrite length_map, Hlen. clear - Hin.
      destruct Hin as [<- | [<- | [<- | [<- | [<- | []]]]]]; vm_compute; reflexivity.
    + apply Hflags. clear. apply (NoDup_map_inv Str).
      apply distinctb_NoDup. vm_compute. reflexivity.
Defined.

(** ** Language questions about a country of unknown language *)

Lemma fresh_nil (l : list value) : fresh [] l = List.length l.
Proof.
  unfold fresh. induction l as [| x l IH]; [reflexivity |].
  cbn [filter includes existsb negb List.length]. f_equal. exact IH.
Qed.

Lemma set_first_distinct (x : value) (l : list value) :
  NoDup l -> ~ In x l ->
  NoDup (set_nth 0 x l)
  /\ (l <> [] -> In x (set_nth 0 x l))
  /\ forall y, In y (set_nth 0 x l) -> y = x \/ In y l.
Proof.
  intros Hnd Hx. destruct l as [| a l]; simpl.
  - split; [constructor |]. split; [intros H; now elim H | tauto].
  - apply NoDup_cons_iff in Hnd as [_ Hnd]. split; [| split].
    + constructor; [| exact Hnd]. intros H. apply Hx. now right.
    + intros _. now left.
    + intros y [<- | Hy]; [now left | right; now right].
Qed.

Lemma generateLanguageOptions_unknown (subject : CountryRecord)
  (pool : list CountryRecord) (g : rng) :
  or_default (first (languages subject)) "Unknown" = Str "Unknown" ->
  List.length (fst (generateLanguageOptions subject pool g)) = 4
  /\ NoDup (fst (generateLanguageOptions subject pool g))
  /\ In (Str "English") (fst (generateLanguageOptions subject pool g))
  /\ ~ In (Str "Unknown") (fst (generateLanguageOptions subject pool g)).
Proof.
  intros Hunknown. unfold generateLanguageOptions. rewrite Hunknown.
  set (others := filter _ (flat_map languages _)).
  set (languagePool := filter _ (dedupe _)).
  change (strict_eq (Str "Unknown") (Str "Unknown")) with true. cbn [negb andb].
  assert (Hpool_nd : NoDup languagePool) by apply NoDup_filter, dedupe_NoDup.
  assert (Hpool_in : forall x, In x languagePool -> x <> Str "Unknown").
  { intros x Hx. apply filter_In in Hx as [_ Hx].
    now apply strict_eq_false_iff, negb_true_iff. }
  assert (Hpool_len : 16 <= List.length languagePool).
  { change 16 with (List.length (map Str commonLanguages)).
    apply NoDup_incl_length; [apply commonLanguages_distinct |].
    intros x Hx. apply filter_In. split.
    - apply dedupe_In. rewrite map_app, in_app_iff. now right.
    - revert x Hx. apply Forall_forall. vm_compute. repeat constructor. }
  unfold sample_distinct.
  pose proof (sample_loop_invariant (List.length languagePool) [] languagePool g
                (NoDup_nil _)) as (Hnd & _ & Hmost).
  pose proof (sample_loop_full (List.length languagePool) [] languagePool g
                Hpool_nd (le_n _)) as Hfull.
  rewrite fresh_nil in Hfull.
  pose proof (sample_loop_members (List.length languagePool) [] languagePool g) as Hmem.
  destruct (sample_loop _ [] languagePool g) as [picked g'].
  cbn [fst] in *.
  assert (Hlen : List.length picked = 4).
  { specialize (Hmost ltac:(simpl; lia)). specialize (Hfull ltac:(simpl; lia)). lia. }
  assert (Hno : ~ In (Str "Unknown") picked).
  { intros H. destruct (Hmem _ H) as [[] | H']. now apply Hpool_in in H'. }
  rewrite pad_common_full by lia. rewrite Hlen. cbn [Nat.ltb Nat.leb andb].
  destruct (includes (Str "English") picked) eqn:Heng; cbn [negb].
  - apply includes_In in Heng. auto.
  - apply includes_not_In in Heng.
    destruct (set_first_distinct (Str "English") picked Hnd Heng) as (H1 & H2 & H3).
    rewrite length_set_nth. repeat split; trivial.
    + apply H2. intros ->. discriminate.
    + intros H. apply H3 in H as [H | H]; [discriminate | contradiction].
Qed.

(** X5: when the subject of a language question has no first language (or
    "Unknown" for one), the stored correct answer is "Unknown" while the
    four pairwise distinct options, "English" among them, never contain
    it: whichever option is submitted, [checkAnswer] counts it as wrong. *)
Theorem unknown_language_question :
  forall (difficulty : string) (turns : nat) (pool : list CountryRecord) (g : rng),
    pool <> [] ->
    exists (subject : CountryRecord) (q : Question) (g' : rng),
      In subject pool
      /\ generateMultipleChoiceQuestion difficulty turns Languages pool g = Done (q, g')
      /\ country q = name subject
      /\ (or_default (first (languages subject)) "Unknown" = Str "Unknown" ->
          correctAnswer q = Str "Unknown"
          /\ List.length (options q) = 4
          /\ NoDup (options q)
          /\ In (Str "English") (options q)
          /\ forall (s : Engine) (o : value),
               currentQuestion s = Some q -> In o (options q) ->
               exists r s',
                 checkAnswer o s = Returns r s'
                 /\ isCorrect r = false
                 /\ wrong s' = (wrong s + 1)%Z
                 /\ streak s' = 0%Z).
Proof.
  intros difficulty turns pool g Hpool.
  destruct (generated_from_build difficulty turns Languages pool g Hpool)
    as (subject & g1 & Hin & Hgen).
  cbn [build] in Hgen.
  pose proof (generateLanguageOptions_unknown subject pool g1) as Hopts.
  destruct (generateLanguageOptions subject pool g1) as [opts g2].
  cbn [fst] in Hopts.
  destruct (Hgen _ _ _ _ _ _ eq_refl)
    as (q & g3 & Hq & _ & _ & Hcorrect & _ & _ & Hcountry & HP).
  exists subject, q, g3. repeat (split; [assumption |]).
  intros Hunknown. destruct (Hopts Hunknown) as (Hlen & Hnd & Heng & Hno).
  rewrite Hunknown in Hcorrect.
  split; [exact Hcorrect |].
  split; [now rewrite (Permutation_length HP) |].
  split; [eapply Permutation_NoDup; [symmetry; exact HP | exact Hnd] |].
  split; [apply (Permutation_in _ (Permutation_sym HP)); exact Heng |].
  intros s o Hs Ho.
  destruct (checkAnswer_wrong s q o Hs) as (r & s' & Hc & Hr & Hst & Hw & _).
  - rewrite Hcorrect. intros ->. apply Hno. now apply (Permutation_in _ HP).
  - exists r, s'. auto.
Qed.

Lemma unknown_language_question_witness :
  exists (q : Question) (g' : rng),
    generateMultipleChoiceQuestion "easy" 0 Languages
      (loadFromRestCountries [rest_bare]) sample_rng = Done (q, g')
    /\ correctAnswer q = Str "Unknown"
    /\ In (Str "English") (options q)
    /\ ~ In (correctAnswer q) (options q).
Proof.
  destruct (unknown_language_question "easy" 0
              (loadFromRestCountries [rest_bare]) sample_rng)
    as (subject & q & g' & Hin & Hq & _ & Hunknown).
  - discriminate.
  - destruct Hin as [<- | []].
    destruct (Hunknown eq_refl) as (Hcorrect & _ & _ & Heng & Hcheck).
    exists q, g'. split; [exact Hq |]. split; [exact Hcorrect |].
    split; [exact Heng |].
    intros Ho.
    set (s := {| countries := []; currentQuestion := Some q; score := 0;
                 wrong := 0; streak := 0; questionNumber := 1;
                 totalQuestions := 10; difficulty := "easy";
                 answeredCurrentQuestion := false |}).
    destruct (Hcheck s _ eq_refl Ho) as (r & s' & Hc & Hr & _).
    unfold checkAnswer in Hc. cbn [currentQuestion s] in Hc.
    rewrite strict_eq_refl in Hc. injection Hc as <- _. discriminate.
Defined.

(** ** Timezone questions *)

Lemma allTimezones_fill (subject : CountryRecord) (pool : list CountryRecord)
  (g : rng) :
  List.length (fst (sample_distinct [first (timezones subject)]
                                    (allTimezones subject pool) g)) = 4.
Proof.
  apply (sample_distinct_fills _ _ commonTimezones).
  - apply dedupe_NoDup.
  - apply commonTimezones_distinct.
  - simpl. lia.
  - intros x Hx _. apply dedupe_In. rewrite map_app, in_app_iff. now right.
Qed.

(** X6: the fallback loop of the timezone generator never adds anything:
    whatever the pool and the draws, the options are the subject's first
    timezone and three values sampled from the other countries' timezones
    and the fixed list of common ones, so no option is a synthesized
    offset. *)
Theorem timezone_options_are_sampled :
  (forall (turns : nat) (subject : CountryRecord) (pool : list CountryRecord)
          (g : rng),
     generateTimezoneOptions turns subject pool g
     = Done (sample_distinct [first (timezones subject)]
                             (allTimezones subject pool) g))
  /\ (forall (difficulty : string) (turns : nat) (pool : list CountryRecord) (g : rng),
        pool <> [] ->
        exists (subject : CountryRecord) (q : Question) (g' : rng),
          In subject pool
          /\ generateMultipleChoiceQuestion difficulty turns Timezone pool g
             = Done (q, g')
          /\ country q = name subject
          /\ forall o, In o (options q) ->
               o = first (timezones subject)
               \/ In o (map Str commonTimezones)
               \/ exists c tz, In c pool /\ name c <> name subject
                               /\ In tz (timezones c) /\ o = Str tz).
Proof.
  assert (Hsampled : forall turns subject pool g,
             generateTimezoneOptions turns subject pool g
             = Done (sample_distinct [first (timezones subject)]
                                     (allTimezones subject pool) g)).
  { intros turns subject pool g.
    pose proof (allTimezones_fill subject pool g) as Hlen.
    unfold generateTimezoneOptions. fold (allTimezones subject pool).
    destruct (sample_distinct _ (allTimezones subject pool) g) as [picked g'].
    cbn [fst] in Hlen. apply fallback_loop_full. lia. }
  split; [exact Hsampled |].
  intros difficulty turns pool g Hpool.
  destruct (generated_from_build difficulty turns Timezone pool g Hpool)
    as (subject & g1 & Hin & Hgen).
  cbn [build] in Hgen. rewrite Hsampled in Hgen. unfold sample_distinct in Hgen.
  pose proof (sample_loop_members (List.length (allTimezones subject pool))
                [first (timezones subject)] (allTimezones subject pool) g1) as Hmem.
  destruct (sample_loop _ _ _ g1) as [opts g2]. cbn [fst] in Hmem.
  destruct (Hgen _ _ _ _ _ _ eq_refl)
    as (q & g3 & Hq & _ & _ & _ & _ & _ & Hcountry & HP).
  exists subject, q, g3. repeat (split; [assumption |]).
  intros o Ho. apply (Permutation_in _ HP) in Ho.
  destruct (Hmem o Ho) as [[<- | []] | Hother]; [now left | right].
  unfold allTimezones in Hother. apply (proj1 (dedupe_In _ _)) in Hother.
  rewrite map_app, in_app_iff in Hother.
  destruct Hother as [Hother | Hcommon]; [right | now left].
  apply in_map_iff in Hother as (tz & <- & Htz).
  apply in_flat_map in Htz as (c & Hc & Htz).
  apply filter_In in Hc as [Hc Hp].
  apply andb_true_iff in Hp as [Hname _].
  exists c, tz. split; [exact Hc |]. split; [| split; [exact Htz | reflexivity]].
  unfold other_than in Hname. apply negb_true_iff in Hname.
  now apply String.eqb_neq.
Qed.

Lemma timezone_options_are_sampled_witness :
  exists (subject : CountryRecord) (q : Question) (g' : rng),
    In subject sample_countries
    /\ generateMultipleChoiceQuestion "medium" 0 Timezone sample_countries sample_rng
       = Done (q, g')
    /\ forall o, In o (options q) ->
         o = first (timezones subject)
         \/ In o (map Str commonTimezones)
         \/ exists c tz, In c sample_countries /\ name c <> name subject
                         /\ In tz (timezones c) /\ o = Str tz.
Proof.
  destruct timezone_options_are_sampled as [_ H].
  destruct (H "medium" 0 sample_countries sample_rng)
    as (subject & q & g' & Hin & Hq & _ & Hfrom).
  - discriminate.
  - exists subject, q, g'. auto.
Defined.

(** ** Reachable states of the engine *)

Lemma nextQuestion_cases (turns : nat) (s : Engine) (g : rng) :
  ((totalQuestions s <= questionNumber s)%Z
   /\ nextQuestion turns s g = Returns (None, g) s)
  \/ ((questionNumber s < totalQuestions s)%Z
      /\ exists s',
           (nextQuestion turns s g = Throws s'
            /\ currentQuestion s' = currentQuestion s
            /\ answeredCurrentQuestion s' = answeredCurrentQuestion s
            \/ exists q g',
                 nextQuestion turns s g = Returns (Some q, g') s'
                 /\ currentQuestion s' = Some q
                 /\ answeredCurrentQuestion s' = false)
           /\ questionNumber s' = (questionNumber s + 1)%Z
           /\ totalQuestions s' = totalQuestions s
           /\ countries s' = countries s
           /\ difficulty s' = difficulty s
           /\ score s' = score s /\ wrong s' = wrong s /\ streak s' = streak s).
Proof.
  unfold nextQuestion.
  destruct (Z.leb_spec (totalQuestions s) (questionNumber s)) as [Hle | Hlt].
  - left. split; [exact Hle | reflexivity].
  - right. split; [exact Hlt |].
    match goal with
    | |- context [generateQuestion ?t ?s1 ?g1] =>
        pose proof (generateQuestion_ends t s1 g1) as Hends;
        destruct (generateQuestion t s1 g1) as [[q g'] | |]
    end.
    + eexists. split; [right; exists q, g'; repeat split |]. repeat split.
    + eexists. split; [left; repeat split |]. repeat split.
    + now elim Hends.
Qed.

Lemma checkAnswer_cases (v : value) (s : Engine) :
  (currentQuestion s = None /\ checkAnswer v s = Throws s)
  \/ exists q r s',
       currentQuestion s = Some q
       /\ checkAnswer v s = Returns r s'
       /\ same_session_frame s s'
       /\ ((v = correctAnswer q
            /\ streak s' = (streak s + 1)%Z /\ wrong s' = wrong s
            /\ score s' = (score s + 1
                           + (if (0 <? streak s')%Z && (streak s' mod 3 =? 0)%Z
                              then 1 else 0))%Z)
           \/ (v <> correctAnswer q
               /\ streak s' = 0%Z /\ wrong s' = (wrong s + 1)%Z
               /\ score s' = score s)).
Proof.
  destruct (currentQuestion s) as [q |] eqn:Hq.
  - right. destruct (value_eq_dec v (correctAnswer q)) as [-> | Hne].
    + destruct (checkAnswer_correct s q Hq) as (r & s' & Hc & _ & Hw & Hst & Hsc).
      exists q, r, s'. split; [reflexivity |]. split; [exact Hc |].
      split; [eapply checkAnswer_frame; exact Hc |]. left. auto.
    + destruct (checkAnswer_wrong s q v Hq Hne) as (r & s' & Hc & _ & Hst & Hw & Hsc).
      exists q, r, s'. split; [reflexivity |]. split; [exact Hc |].
      split; [eapply checkAnswer_frame; exact Hc |]. right. auto.
  - left. split; [reflexivity |]. unfold checkAnswer. now rewrite Hq.
Qed.

Lemma well_formed_reachable (s : Engine) : reachable s -> well_formed s.
Proof.
  induction 1 as [| s cs _ IH | s s' turns g r _ IH Hn | s s' turns g _ IH Hn
                  | s s' v r _ IH Hc | s s' v _ IH Hc | s _ IH | s level _ IH].
  - unfold well_formed. cbn. repeat split; try lia; try discriminate.
    intros H. now elim H.
  - exact IH.
  - destruct IH as (Ht & Hq & Hw & Hst & Hsc & Hd & Hcur & Hzero).
    destruct (nextQuestion_cases turns s g) as [[_ E] | [Hlt (s1 & Hres & Hn1 & Ht1 & _ & Hd1 & Hsc1 & Hw1 & Hst1)]].
    + rewrite E in Hn. injection Hn as _ <-. repeat split; trivial; lia.
    + destruct Hres as [(E & _) | (q & g' & E & _)]; rewrite E in Hn;
        [discriminate |]. injection Hn as _ <-.
      unfold well_formed. rewrite Ht1, Hn1, Hd1, Hsc1, Hw1, Hst1.
      repeat split; trivial; lia.
  - destruct IH as (Ht & Hq & Hw & Hst & Hsc & Hd & Hcur & Hzero).
    destruct (nextQuestion_cases turns s g) as [[_ E] | [Hlt (s1 & Hres & Hn1 & Ht1 & _ & Hd1 & Hsc1 & Hw1 & Hst1)]].
    + rewrite E in Hn. discriminate.
    + destruct Hres as [(E & _) | (q & g' & E & _)]; rewrite E in Hn;
        [| discriminate]. injection Hn as <-.
      unfold well_formed. rewrite Ht1, Hn1, Hd1, Hsc1, Hw1, Hst1.
      repeat split; trivial; lia.
  - destruct IH as (Ht & Hq & Hw & Hst & Hsc & Hd & Hcur & Hzero).
    destruct (checkAnswer_cases v s) as [[_ E] | (q & r' & s1 & Hq1 & E & Hframe & Hres)];
      rewrite E in Hc; [discriminate |]. injection Hc as _ <-.
    destruct Hframe as (Hd1 & Hn1 & Ht1 & _ & Hcur1).
    assert (1 <= questionNumber s)%Z by (apply Hcur; congruence).
    unfold well_formed. rewrite Ht1, Hn1, Hd1, Hcur1.
    destruct Hres as [(_ & Hst1 & Hw1 & Hsc1) | (_ & Hst1 & Hw1 & Hsc1)];
      rewrite ?Hst1 in Hsc1; rewrite Hst1, Hw1, Hsc1.
    + pose proof (third_of_successor (streak s) Hst) as H3.
      repeat split; trivial; try lia.
    + change (0 / 3)%Z with 0%Z.
      assert (0 <= streak s / 3)%Z by (apply Z.div_pos; lia).
      repeat split; trivial; try lia.
  - destruct (checkAnswer_cases v s) as [[_ E] | (q & r' & s1 & _ & E & _)];
      rewrite E in Hc; [| discriminate]. injection Hc as Hs. now subst s'.
  - destruct IH as (Ht & Hq & Hw & Hst & Hsc & Hd & Hcur & Hzero).
    unfold well_formed. cbn [reset totalQuestions questionNumber wrong streak
                               score difficulty currentQuestion].
    repeat split; trivial; try lia; try (intros H; now elim H).
  - unfold setDifficulty. destruct (difficultySettings level) eqn:Hl; [| exact IH].
    destruct IH as (Ht & Hq & Hw & Hst & Hsc & Hd & Hcur & Hzero).
    unfold well_formed. cbn [reset totalQuestions questionNumber wrong streak
                               score difficulty currentQuestion].
    repeat split; trivial; try lia; try (intros H; now elim H).
    congruence.
Qed.

Lemma play_correctly_reachable (n turns : nat) (s s' : Engine) (g g' : rng) :
  reachable s -> play_correctly n turns s g = Some (s', g') -> reachable s'.
Proof.
  intros Hs. revert s' g'. induction n as [| n IH]; intros s' g' H; simpl in H.
  - now injection H as <- _.
  - destruct (play_correctly n turns s g) as [[s1 g1] |]; [| discriminate].
    destruct (nextQuestion turns s1 g1) as [[[q |] g2] s2 | |] eqn:Hn; try discriminate.
    destruct (checkAnswer (correctAnswer q) s2) as [r s3 | |] eqn:Hc; try discriminate.
    injection H as <- _.
    eapply reach_check; [| exact Hc].
    eapply reach_next; [| exact Hn]. now apply (IH s1 g1).
Qed.

Lemma difficultySettings_cases (level : string) :
  difficultySettings level = None
  \/ difficultySettings level = Some Inherited
  \/ difficultySettings level = Some (Own 30 true)
  \/ difficultySettings level = Some (Own 100 false)
  \/ difficultySettings level = Some (Own 200 false).
Proof.
  unfold difficultySettings.
  destruct (String.eqb level "easy"); [tauto |].
  destruct (String.eqb level "medium"); [tauto |].
  destruct (String.eqb level "hard"); [tauto |].
  destruct (existsb _ _); tauto.
Qed.

Lemma pool_of_well_formed (s : Engine) :
  difficultySettings (difficulty s) <> None ->
  exists pool,
    getCountriesForDifficulty s = Done pool
    /\ incl pool (countries s)
    /\ (countries s <> [] -> pool <> []).
Proof.
  intros Hd. unfold getCountriesForDifficulty.
  assert (Hfirst : forall n (l : list CountryRecord),
             incl (firstn (S n) l) l /\ (l <> [] -> firstn (S n) l <> [])).
  { intros n l. split.
    - intros x Hx. rewrite <- (firstn_skipn (S n) l). apply in_app_iff. now left.
    - destruct l; [intros H; now elim H | discriminate]. }
  destruct (difficultySettings_cases (difficulty s)) as [E | [E | [E | [E | E]]]];
    rewrite E; [contradiction | | | |].
  - exists (countries s). split; [reflexivity |]. split; [apply incl_refl | trivial].
  - eexists. split; [reflexivity |]. rewrite firstn_firstn. cbn [Nat.min].
    apply Hfirst.
  - eexists. split; [reflexivity |]. apply Hfirst.
  - eexists. split; [reflexivity |]. apply Hfirst.
Qed.

Lemma pool_prefix_of_well_formed (s : Engine) :
  difficultySettings (difficulty s) <> None ->
  exists pool rest,
    getCountriesForDifficulty s = Done pool
    /\ countries s = pool ++ rest
    /\ (countries s <> [] -> pool <> []).
Proof.
  intros Hd. unfold getCountriesForDifficulty.
  assert (Hfirst : forall n (l : list CountryRecord),
             l = firstn (S n) l ++ skipn (S n) l
             /\ (l <> [] -> firstn (S n) l <> [])).
  { intros n l. split.
    - symmetry. apply firstn_skipn.
    - destruct l; [intros H; now elim H | discriminate]. }
  destruct (difficultySettings_cases (difficulty s)) as [E | [E | [E | [E | E]]]];
    rewrite E; [contradiction | | | |].
  - exists (countries s), []. split; [reflexivity |].
    split; [now rewrite app_nil_r | trivial].
  - eexists. eexists. split; [reflexivity |]. rewrite firstn_firstn. cbn [Nat.min].
    apply Hfirst.
  - eexists. eexists. split; [reflexivity |]. apply Hfirst.
  - eexists. eexists. split; [reflexivity |]. apply Hfirst.
Qed.

(** X7: in every state a [QuizEngine] can reach, through any calls of its
    methods with any arguments, the session has ten questions, the
    question counter lies between 0 and 10, the wrong count and the streak
    are not negative, the score is at least the streak plus one bonus point
    per three answers of it, the difficulty names an entry (own or
    inherited) of the settings object, so that the pool of the difficulty
    is always defined, a prefix of the stored countries (all of them when
    the cap allows) that is not empty unless they are, and a current
    question exists only once a question was requested. *)
Theorem reachable_engine_states :
  forall s : Engine,
    reachable s ->
    totalQuestions s = 10%Z
    /\ (0 <= questionNumber s <= 10)%Z
    /\ (0 <= wrong s)%Z
    /\ (0 <= streak s <= score s)%Z
    /\ (streak s + streak s / 3 <= score s)%Z
    /\ (In (difficulty s) ["easy"; "medium"; "hard"]
        \/ In (difficulty s) Object_prototype_names)
    /\ (exists pool rest,
          getCountriesForDifficulty s = Done pool
          /\ countries s = pool ++ rest
          /\ (List.length (countries s) <= 30 -> pool = countries s)
          /\ (countries s <> [] -> pool <> []))
    /\ (currentQuestion s <> None -> 1 <= questionNumber s)%Z.
Proof.
  intros s Hs.
  destruct (well_formed_reachable s Hs) as (Ht & Hq & Hw & Hst & Hsc & Hd & Hcur & _).
  assert (0 <= streak s / 3)%Z by (apply Z.div_pos; lia).
  repeat (split; [assumption || lia |]).
  split; [| split; [| exact Hcur]].
  2: { destruct (pool_prefix_of_well_formed s Hd) as (pool & rest & Hp & Happ & Hne).
       exists pool, rest. repeat (split; [assumption |]). split; [| exact Hne].
       intros Hlen. revert Hp. unfold getCountriesForDifficulty.
       destruct (difficultySettings_cases (difficulty s))
         as [E | [E | [E | [E | E]]]]; rewrite E; try discriminate;
         intros Hd'; apply (f_equal (fun o => match o with Done l => l | _ => [] end)) in Hd';
         cbv beta iota zeta in Hd'; subst pool; rewrite ?firstn_firstn;
         try reflexivity; apply firstn_all2; cbn [Nat.min]; lia. }
  unfold difficultySettings in Hd. simpl.
  destruct (String.eqb_spec (difficulty s) "easy") as [-> | _]; [tauto |].
  destruct (String.eqb_spec (difficulty s) "medium") as [-> | _]; [tauto |].
  destruct (String.eqb_spec (difficulty s) "hard") as [-> | _]; [tauto |].
  destruct (existsb _ _) eqn:E; [| now elim Hd].
  right. apply existsb_exists in E as (x & Hx & E).
  apply String.eqb_eq in E. now subst.
Qed.

Lemma reachable_engine_states_witness :
  exists s g,
    play_correctly 4 0 (with_countries sample_countries new_engine) sample_rng
    = Some (s, g)
    /\ totalQuestions s = 10%Z
    /\ (0 <= questionNumber s <= 10)%Z
    /\ (streak s + streak s / 3 <= score s)%Z.
Proof.
  destruct (play_correctly 4 0 (with_countries sample_countries new_engine) sample_rng)
    as [[s g] |] eqn:Hplay; [| vm_compute in Hplay; discriminate].
  exists s, g. split; [reflexivity |].
  destruct (reachable_engine_states s) as (Ht & Hq & _ & _ & Hsc & _).
  - eapply play_correctly_reachable; [| exact Hplay].
    apply reach_init, reach_new.
  - auto.
Defined.

(** ** Statistics *)

Lemma or_else_integer (z : Z) : or_else (of_Z z) (of_Z 0) = of_Z z.
Proof.
  unfold or_else, truthy, of_Z, inject_Z, Qeq_bool. cbn [Qnum Qden].
  destruct (Z.eqb_spec (z * 1) (0 * 1)) as [E | E]; cbn [negb]; [| reflexivity].
  now replace z with 0%Z by lia.
Qed.

Lemma percentage_value (s : Engine) :
  (0 < questionNumber s)%Z ->
  percentage (getStats s)
  = of_Z ((200 * score s + questionNumber s) / (2 * questionNumber s)).
Proof.
  intros Hq. rewrite <- or_else_integer. unfold getStats. cbn [percentage].
  destruct (questionNumber s) as [| p | p] eqn:E; try lia.
  change (Z.pos p =? 0)%Z with false. cbv iota.
  unfold mul, Math_round. f_equal. unfold of_Z. do 2 f_equal.
  unfold Qdiv, Qinv, Qmult, Qplus, Qfloor. cbn [Qnum Qden inject_Z].
  f_equal; lia.
Qed.

(** X8: in every reachable state [getStats] reports a percentage that is a
    non-negative integer, never [NaN] or infinite: 0 before the first
    question, and otherwise 100 times score over question counter,
    rounded to the nearest integer, ties up.  Because of the streak bonus
    it can exceed 100: it is 130 after ten questions answered correctly in
    a row. *)
Theorem percentage_of_reachable_states :
  (forall s : Engine,
     reachable s ->
     exists z : Z,
       (0 <= z)%Z
       /\ percentage (getStats s) = of_Z z
       /\ (questionNumber s = 0%Z -> z = 0%Z)
       /\ ((0 < questionNumber s)%Z ->
           z = ((200 * score s + questionNumber s) / (2 * questionNumber s))%Z))
  /\ (exists s g,
        play_correctly 10 0 (with_countries sample_countries new_engine) sample_rng
        = Some (s, g)
        /\ reachable s
        /\ percentage (getStats s) = of_Z 130).
Proof.
  split.
  - intros s Hs.
    destruct (well_formed_reachable s Hs) as (_ & Hq & _ & Hst & Hsc & _ & _ & Hzero).
    assert (0 <= streak s / 3)%Z by (apply Z.div_pos; lia).
    destruct (Z.eq_dec (questionNumber s) 0) as [E | E].
    + destruct (Hzero E) as [Hscore _].
      exists 0%Z. split; [lia |]. split; [| split; [trivial | lia]].
      unfold getStats. cbn [percentage]. rewrite E, Hscore. reflexivity.
    + exists ((200 * score s + questionNumber s) / (2 * questionNumber s))%Z.
      split; [apply Z.div_pos; lia |].
      split; [apply percentage_value; lia |]. split; [contradiction | trivial].
  - destruct (play_correctly 10 0 (with_countries sample_countries new_engine) sample_rng)
      as [[s g] |] eqn:Hplay; [| vm_compute in Hplay; discriminate].
    exists s, g. split; [reflexivity |].
    assert (Hs : reachable s).
    { eapply play_correctly_reachable; [| exact Hplay]. apply reach_init, reach_new. }
    split; [exact Hs |].
    pose proof (play_correctly_sound _ _ _ _ _ _ Hplay) as Hrun.
    destruct (correct_answers_score
                10 (with_countries sample_countries new_engine) s
                eq_refl eq_refl Hrun) as [_ Hscore].
    assert (Hn : questionNumber s = 10%Z).
    { clear - Hplay. vm_compute in Hplay. now injection Hplay as <- _. }
    rewrite percentage_value by lia. rewrite Hscore, Hn. reflexivity.
Qed.

Lemma percentage_of_reachable_states_witness :
  exists z : Z,
    (0 <= z)%Z
    /\ percentage (getStats (reset (with_countries sample_countries new_engine)))
       = of_Z z
    /\ z = 0%Z.
Proof.
  destruct percentage_of_reachable_states as [H _].
  destruct (H (reset (with_countries sample_countries new_engine)))
    as (z & Hz & Hp & Hzero & _).
  - apply reach_reset, reach_init, reach_new.
  - exists z. split; [exact Hz |]. split; [exact Hp |]. now apply Hzero.
Defined.

(** ** Requesting a question *)

Lemma generateQuestion_outcome (turns : nat) (s : Engine) (g : rng) :
  difficultySettings (difficulty s) <> None ->
  (countries s = [] -> generateQuestion turns s g = Raised)
  /\ (countries s <> [] ->
      exists q g' subject,
        generateQuestion turns s g = Done (q, g')
        /\ In subject (countries s)
        /\ country q = name subject).
Proof.
  intros Hd.
  destruct (pool_of_well_formed s Hd) as (pool & Hpool & Hincl & Hne).
  unfold generateQuestion.
  destruct (random (List.length questionTypes) g) as [idx g1].
  rewrite Hpool. split.
  - intros Hempty. rewrite Hempty in Hincl.
    destruct pool as [| c pool]; [reflexivity |].
    elim (Hincl c). now left.
  - intros Hsome. specialize (Hne Hsome).
    destruct (generated_from_build (difficulty s) turns
                (nth idx questionTypes Population) pool g1 Hne)
      as (subject & g2 & Hin & Hgen).
    destruct (build_contract (difficulty s) turns
                (nth idx questionTypes Population) subject pool g2)
      as (text & correct & opts & expl & med & g3 & Hbuild & _).
    destruct (Hgen _ _ _ _ _ _ Hbuild)
      as (q & g4 & Hq & _ & _ & _ & _ & _ & Hcountry & _).
    exists q, g4, subject. split; [exact Hq |]. split; [now apply Hincl | exact Hcountry].
Qed.

(** X9: what [nextQuestion] does in a reachable state.  After ten
    requests it returns [null] and changes nothing.  Before that, with no
    country loaded it throws, and the question counter is incremented all
    the same; with countries loaded it returns a question about one of
    them, stores it as the current, unanswered question and increments the
    counter; score, wrong count and streak stay as they are. *)
Theorem nextQuestion_outcomes :
  forall (s : Engine) (turns : nat) (g : rng),
    reachable s ->
    (questionNumber s = 10%Z -> nextQuestion turns s g = Returns (None, g) s)
    /\ ((questionNumber s < 10)%Z -> countries s = [] ->
        exists s',
          nextQuestion turns s g = Throws s'
          /\ questionNumber s' = (questionNumber s + 1)%Z
          /\ currentQuestion s' = currentQuestion s
          /\ score s' = score s /\ wrong s' = wrong s /\ streak s' = streak s)
    /\ ((questionNumber s < 10)%Z -> countries s <> [] ->
        exists q g' s' subject,
          nextQuestion turns s g = Returns (Some q, g') s'
          /\ In subject (countries s)
          /\ country q = name subject
          /\ currentQuestion s' = Some q
          /\ answeredCurrentQuestion s' = false
          /\ questionNumber s' = (questionNumber s + 1)%Z
          /\ score s' = score s /\ wrong s' = wrong s /\ streak s' = streak s).
Proof.
  intros s turns g Hs.
  destruct (well_formed_reachable s Hs) as (Ht & Hq & _ & _ & _ & Hd & _).
  unfold nextQuestion. rewrite Ht.
  split; [| split].
  - intros ->. reflexivity.
  - intros Hlt Hempty.
    destruct (Z.leb_spec 10 (questionNumber s)) as [Hle | _]; [lia |].
    match goal with
    | |- context [generateQuestion ?t ?s1 ?g1] =>
        destruct (generateQuestion_outcome t s1 g1 Hd) as [Hraise _];
        rewrite (Hraise Hempty)
    end.
    eexists. split; [reflexivity |]. repeat split.
  - intros Hlt Hsome.
    destruct (Z.leb_spec 10 (questionNumber s)) as [Hle | _]; [lia |].
    match goal with
    | |- context [generateQuestion ?t ?s1 ?g1] =>
        destruct (generateQuestion_outcome t s1 g1 Hd) as [_ Hdone];
        destruct (Hdone Hsome) as (q & g' & subject & -> & Hin & Hcountry)
    end.
    exists q, g'. eexists. exists subject. split; [reflexivity |].
    repeat split; assumption.
Qed.

Lemma nextQuestion_outcomes_witness :
  (exists s', nextQuestion 0 new_engine sample_rng = Throws s'
              /\ questionNumber s' = 1%Z)
  /\ (exists q g' s',
        nextQuestion 0 (with_countries sample_countries new_engine) sample_rng
        = Returns (Some q, g') s'
        /\ currentQuestion s' = Some q
        /\ questionNumber s' = 1%Z).
Proof.
  split.
  - destruct (nextQuestion_outcomes new_engine 0 sample_rng reach_new)
      as (_ & Hthrow & _).
    destruct Hthrow as (s' & H & Hn & _); [reflexivity | reflexivity |].
    exists s'. split; [exact H | exact Hn].
  - destruct (nextQuestion_outcomes (with_countries sample_countries new_engine)
                0 sample_rng (reach_init _ _ reach_new))
      as (_ & _ & Hret).
    destruct Hret as (q & g' & s' & subject & H & _ & _ & Hcur & _ & Hn & _);
      [reflexivity | discriminate |].
    exists q, g', s'. auto.
Defined.

(** * Loading *)

Lemma ninja_loop_trace (sources : Sources) (total : nat) (subset : list string) :
  forall (i : nat) (countries : list CountryRecord) (trace : list event),
    i + List.length subset = total ->
    exists tail,
      ninja_loop sources i total subset countries trace
      = (countries ++ ninjaRecords sources subset, trace ++ tail)
      /\ requested_names tail = subset
      /\ filter is_progress tail
         = map (fun j => Progress j total) (seq (S i) (List.length subset))
      /\ filter is_ninja_traffic tail
         = intersperse (Sleep NINJA_RATE_DELAY_MS) (map NinjaRequest subset)
      /\ filter is_rest_request tail = [].
Proof.
  induction subset as [| countryName rest IH]; intros i countries trace Hi.
  - exists []. cbn. rewrite !app_nil_r. repeat split.
  - cbn [List.length] in Hi. cbn [ninja_loop].
    set (countries' := match ninja sources countryName with
                       | Body data => _
                       | _ => countries
                       end).
    set (pause := if Nat.ltb i (total - 1) then _ else _).
    destruct (IH (S i) countries'
                 (trace ++ [NinjaRequest countryName; Progress (i + 1) total] ++ pause)
                 ltac:(lia))
      as (tail & Hloop & Hnames & Hprog & Htraffic & Hrest).
    exists ([NinjaRequest countryName; Progress (i + 1) total] ++ pause ++ tail).
    assert (Hpause : pause = match rest with
                             | [] => []
                             | _ :: _ => [Sleep NINJA_RATE_DELAY_MS]
                             end).
    { subst pause. destruct rest as [| r rs]; cbn [List.length] in Hi.
      - destruct (Nat.ltb_spec i (total - 1)); [lia | reflexivity].
      - destruct (Nat.ltb_spec i (total - 1)); [reflexivity | lia]. }
    split; [| split; [| split; [| split]]].
    + rewrite Hloop. f_equal.
      * subst countries'. cbn [ninjaRecords flat_map].
        fold (ninjaRecords sources rest).
        destruct (ninja sources countryName) as [| status | data];
          try reflexivity.
        destruct (mapNinjaCountry data countryName);
          [now rewrite <- app_assoc | reflexivity].
      * now rewrite <- !app_assoc.
    + rewrite Hpause. unfold requested_names in *.
      destruct rest; cbn [app flat_map]; now rewrite Hnames.
    + rewrite Hpause. replace (i + 1) with (S i) by lia.
      destruct rest; cbn [app filter is_progress List.length seq map];
        now rewrite Hprog.
    + rewrite Hpause.
      destruct rest as [| r rs];
        cbn [app filter is_ninja_traffic map intersperse];
        rewrite Htraffic; reflexivity.
    + rewrite Hpause.
      destruct rest; cbn [app filter is_rest_request]; exact Hrest.
Qed.

Lemma countryList_distinct : NoDup countryList /\ List.length countryList = 83.
Proof.
  split; [| reflexivity].
  apply (NoDup_map_inv Str), distinctb_NoDup. vm_compute. reflexivity.
Qed.

Lemma firstn_distinct {A : Type} (n : nat) (l : list A) :
  NoDup l -> NoDup (firstn n l) /\ incl (firstn n l) l.
Proof.
  intros Hnd. rewrite <- (firstn_skipn n l) in Hnd at 1. split.
  - now apply NoDup_app_remove_r in Hnd.
  - intros x Hx. rewrite <- (firstn_skipn n l). apply in_app_iff. now left.
Qed.

Lemma init_with_key (apiKey : string) (before : list CountryRecord)
  (sources : Sources) (g : rng) :
  nonempty apiKey = true ->
  exists subset tail,
    NoDup subset /\ incl subset countryList /\ List.length subset = 10
    /\ requested_names tail = subset
    /\ filter is_progress tail = map (fun j => Progress j 10) (seq 1 10)
    /\ filter is_ninja_traffic tail
       = intersperse (Sleep NINJA_RATE_DELAY_MS) (map NinjaRequest subset)
    /\ filter is_rest_request tail = []
    /\ init apiKey before sources g
       = match ninjaRecords sources subset with
         | [] => rest_fallback sources [] (Progress 0 10 :: tail)
                               (snd (shuffleArray countryList g))
         | _ :: _ =>
             {| success := true;
                loaded := sort byPopularity (ninjaRecords sources subset);
                events := Progress 0 10 :: tail;
                draws := snd (shuffleArray countryList g) |}
         end.
Proof.
  intros Hkey. unfold init. rewrite Hkey. cbn [ENABLE_NINJA_API negb orb].
  pose proof (shuffleArray_Permutation string_dec countryList g) as HP.
  destruct (shuffleArray countryList g) as [shuffled g']. cbn [fst snd] in *.
  destruct countryList_distinct as [Hnd Hlen].
  assert (Hnd' : NoDup shuffled)
    by (eapply Permutation_NoDup; [symmetry; exact HP | exact Hnd]).
  destruct (firstn_distinct NINJA_MAX_INITIAL shuffled Hnd') as [Hsub_nd Hsub_in].
  set (subset := firstn NINJA_MAX_INITIAL shuffled) in *.
  assert (Htotal : List.length subset = 10).
  { subst subset. rewrite length_firstn, (Permutation_length HP), Hlen. reflexivity. }
  rewrite Htotal.
  destruct (ninja_loop_trace sources 10 subset 0 [] [Progress 0 10] ltac:(lia))
    as (tail & Hloop & Hnames & Hprog & Htraffic & Hrest).
  rewrite Hloop. cbn [app]. rewrite Htotal in Hprog.
  exists subset, tail.
  split; [exact Hsub_nd |].
  split; [intros x Hx; apply (Permutation_in _ HP); now apply Hsub_in |].
  repeat (split; [assumption |]).
  destruct (ninjaRecords sources subset); reflexivity.
Qed.

Lemma init_events (apiKey : string) (before : list CountryRecord)
  (sources : Sources) (g : rng) :
  nonempty apiKey = true ->
  exists subset tail k,
    NoDup subset /\ incl subset countryList /\ List.length subset = 10
    /\ requested_names tail = subset
    /\ filter is_progress tail = map (fun j => Progress j 10) (seq 1 10)
    /\ filter is_ninja_traffic tail
       = intersperse (Sleep NINJA_RATE_DELAY_MS) (map NinjaRequest subset)
    /\ filter is_rest_request tail = []
    /\ events (init apiKey before sources g)
       = Progress 0 10 :: tail ++ repeat RestRequest k
    /\ k <= 2
    /\ (k = 0 <-> ninjaRecords sources subset <> []).
Proof.
  intros Hkey.
  destruct (init_with_key apiKey before sources g Hkey)
    as (subset & tail & Hnd & Hin & Hlen & Hnames & Hprog & Htraffic & Hrest & Hinit).
  rewrite Hinit. clear Hinit.
  destruct (ninjaRecords sources subset) as [| c recs] eqn:Hrecs.
  - unfold rest_fallback.
    destruct (restCountries sources 0) as [| status | data];
      [destruct (restCountries sources 1) as [| status' | data']
      | destruct (restCountries sources 1) as [| status' | data'] |];
      cbn [events app];
      (exists subset, tail;
       first [ exists 2; repeat (split; [assumption |]);
               split; [reflexivity |]; split; [lia |];
               rewrite Hrecs; split; [discriminate | intros H; now elim H]
             | exists 1; repeat (split; [assumption |]);
               split; [reflexivity |]; split; [lia |];
               rewrite Hrecs; split; [discriminate | intros H; now elim H] ]).
  - cbn [events]. exists subset, tail, 0.
    repeat (split; [assumption |]). cbn [repeat]. rewrite app_nil_r.
    split; [reflexivity |]. split; [lia |]. rewrite Hrecs.
    split; [discriminate | reflexivity].
Qed.

Lemma requested_names_app (a b : list event) :
  requested_names (a ++ b) = requested_names a ++ requested_names b.
Proof. apply flat_map_app. Qed.

Lemma rest_requests_only (k : nat) :
  requested_names (repeat RestRequest k) = []
  /\ filter is_progress (repeat RestRequest k) = []
  /\ filter is_ninja_traffic (repeat RestRequest k) = []
  /\ filter is_rest_request (repeat RestRequest k) = repeat RestRequest k.
Proof.
  induction k as [| k (H1 & H2 & H3 & H4)]; cbn; [tauto |].
  unfold requested_names in H1. cbn in H1.
  now rewrite H4.
Qed.

Lemma ninja_loop_rounds (sources : Sources) (total : nat) (subset : list string) :
  forall (i : nat) (countries : list CountryRecord) (trace : list event),
    snd (ninja_loop sources i total subset countries trace)
    = trace ++ rounds total i subset.
Proof.
  induction subset as [| countryName rest IH]; intros i countries trace;
    cbn [ninja_loop rounds snd].
  - now rewrite app_nil_r.
  - rewrite IH, <- !app_assoc. reflexivity.
Qed.

Lemma requested_names_rounds (total : nat) (names : list string) :
  forall i, requested_names (rounds total i names) = names.
Proof.
  unfold requested_names.
  induction names as [| n rest IH]; intros i; cbn [rounds]; [reflexivity |].
  rewrite !flat_map_app, IH.
  destruct (Nat.ltb i (total - 1)); reflexivity.
Qed.

(** The events of [init] in their order. *)
Lemma init_rounds (apiKey : string) (before : list CountryRecord)
  (sources : Sources) (g : rng) :
  nonempty apiKey = true ->
  exists k,
    k <= 2
    /\ events (init apiKey before sources g)
       = Progress 0 10
         :: rounds 10 0 (firstn 10 (fst (shuffleArray countryList g)))
            ++ repeat RestRequest k.
Proof.
  intros Hkey. unfold init. rewrite Hkey. cbn [ENABLE_NINJA_API negb orb].
  pose proof (shuffleArray_Permutation string_dec countryList g) as HP.
  destruct (shuffleArray countryList g) as [shuffled g']. cbn [fst] in *.
  change NINJA_MAX_INITIAL with 10.
  assert (Htotal : List.length (firstn 10 shuffled) = 10).
  { rewrite length_firstn, (Permutation_length HP).
    now rewrite (proj2 countryList_distinct). }
  rewrite Htotal.
  pose proof (ninja_loop_rounds sources 10 (firstn 10 shuffled) 0 []
                [Progress 0 10]) as Hsnd.
  destruct (ninja_loop sources 0 10 (firstn 10 shuffled) [] [Progress 0 10])
    as [countries trace]. cbn [snd] in Hsnd. subst trace.
  destruct countries as [| c cs].
  - unfold rest_fallback.
    destruct (restCountries sources 0) as [| status | data];
      [destruct (restCountries sources 1) as [| status' | data']
      | destruct (restCountries sources 1) as [| status' | data'] |];
      cbn [events];
      first [ exists 2; split; [lia |]; now rewrite <- app_assoc
            | exists 1; split; [lia |]; now rewrite <- app_assoc ].
  - exists 0. split; [lia |]. cbn [events repeat]. now rewrite !app_nil_r.
Qed.

(** X10: whatever the two sources answer, [init] with a credential
    requests ten distinct names of its candidate list from the primary
    source.  Its events come in this order: the progress event (0, 10);
    then for each name its request, the progress event that counts it,
    failed or not, and a pause of 1100 ms unless it was the last; then at
    most two requests to the bulk source.  So the progress events are
    (0, 10), ..., (10, 10), and any two requests to the primary source are
    one pause apart. *)
Theorem init_requests_are_paced :
  forall (apiKey : string) (before : list CountryRecord) (sources : Sources)
         (g : rng),
    nonempty apiKey = true ->
    NoDup (requested_names (events (init apiKey before sources g)))
    /\ incl (requested_names (events (init apiKey before sources g))) countryList
    /\ List.length (requested_names (events (init apiKey before sources g))) = 10
    /\ (exists k,
          k <= 2
          /\ events (init apiKey before sources g)
             = Progress 0 10
               :: rounds 10 0 (requested_names (events (init apiKey before sources g)))
                  ++ repeat RestRequest k)
    /\ filter is_progress (events (init apiKey before sources g))
       = map (fun j => Progress j 10) (seq 0 11)
    /\ filter is_ninja_traffic (events (init apiKey before sources g))
       = intersperse (Sleep 1100)
           (map NinjaRequest (requested_names (events (init apiKey before sources g)))).
Proof.
  intros apiKey before sources g Hkey.
  destruct (init_rounds apiKey before sources g Hkey) as (k' & Hk' & Hevents).
  assert (Hexact : requested_names (events (init apiKey before sources g))
                   = firstn 10 (fst (shuffleArray countryList g))).
  { rewrite Hevents.
    change (Progress 0 10 :: ?l) with ([Progress 0 10] ++ l).
    rewrite !requested_names_app, requested_names_rounds,
      (proj1 (rest_requests_only k')), app_nil_r. reflexivity. }
  destruct (init_events apiKey before sources g Hkey)
    as (subset & tail & k & Hnd & Hin & Hlen & Hnames & Hprog & Htraffic & _ & E & _).
  destruct (rest_requests_only k) as (R1 & R2 & R3 & _).
  assert (Hreq : requested_names (events (init apiKey before sources g)) = subset).
  { rewrite E.
    change (Progress 0 10 :: tail ++ repeat RestRequest k)
      with ([Progress 0 10] ++ tail ++ repeat RestRequest k).
    rewrite !requested_names_app, R1, Hnames, app_nil_r. reflexivity. }
  rewrite Hreq. repeat (split; [assumption |]).
  split.
  { exists k'. split; [exact Hk' |]. rewrite <- Hreq, Hexact. exact Hevents. }
  rewrite E. cbn [filter is_progress is_ninja_traffic].
  rewrite !filter_app, R2, R3, !app_nil_r, Hprog, Htraffic.
  split; reflexivity.
Qed.

Lemma init_requests_are_paced_witness :
  firstn 6 (events (init "key" [] {| ninja := ninja_down; restCountries := rest_up |}
                         sample_rng))
  = [Progress 0 10; NinjaRequest "Australia"; Progress 1 10; Sleep 1100;
     NinjaRequest "Nepal"; Progress 2 10]
  /\ skipn 28 (events (init "key" [] {| ninja := ninja_down; restCountries := rest_up |}
                            sample_rng))
     = [NinjaRequest "Switzerland"; Progress 10 10; RestRequest]
  /\ filter is_progress
       (events (init "key" [] {| ninja := ninja_down; restCountries := rest_up |}
                     sample_rng))
     = map (fun j => Progress j 10) (seq 0 11).
Proof.
  destruct (init_requests_are_paced "key" []
              {| ninja := ninja_down; restCountries := rest_up |} sample_rng)
    as (_ & _ & _ & (k & _ & Hev) & Hprog & _).
  - reflexivity.
  - split; [| split; [| exact Hprog]].
    + rewrite Hev. vm_compute. reflexivity.
    + vm_compute. reflexivity.
Defined.

(** X11: how [init] with a credential ends.  If the primary source yields
    a record for at least one requested name, the failures of the other
    requests are skipped, the bulk source is not contacted, and the
    countries are those records sorted by popularity.  If it yields none,
    the bulk source is asked: its first answer, when usable, is stored
    sorted; when not, a second request is made, whose answer is stored as
    it comes, unsorted.  [init] returns [false] exactly when no requested
    name yields a record and both bulk requests fail, and then no country
    is loaded. *)
Theorem init_outcome :
  forall (apiKey : string) (before : list CountryRecord) (sources : Sources)
         (g : rng),
    nonempty apiKey = true ->
    let result := init apiKey before sources g in
    let records := ninjaRecords sources (requested_names (events result)) in
    (records <> [] ->
     success result = true
     /\ loaded result = sort byPopularity records
     /\ filter is_rest_request (events result) = [])
    /\ (records = [] ->
        forall data, restCountries sources 0 = Body data ->
        success result = true
        /\ loaded result = sort byPopularity (loadFromRestCountries data)
        /\ filter is_rest_request (events result) = [RestRequest])
    /\ (records = [] ->
        (forall data, restCountries sources 0 <> Body data) ->
        forall data, restCountries sources 1 = Body data ->
        success result = true
        /\ loaded result = loadFromRestCountries data
        /\ filter is_rest_request (events result) = [RestRequest; RestRequest])
    /\ (success result = false <->
        records = []
        /\ (forall data, restCountries sources 0 <> Body data)
        /\ (forall data, restCountries sources 1 <> Body data))
    /\ (success result = false -> loaded result = []).
Proof.
  intros apiKey before sources g Hkey result records.
  destruct (init_with_key apiKey before sources g Hkey)
    as (subset & tail & _ & _ & _ & Hnames & _ & _ & Hrest & Hinit).
  assert (Hreq : requested_names (events result) = subset).
  { subst result. rewrite Hinit.
    destruct (ninjaRecords sources subset); [unfold rest_fallback |];
      repeat match goal with
             | |- context [match restCountries ?s ?n with _ => _ end] =>
                 destruct (restCountries s n)
             end;
      cbn [events];
      change (Progress 0 10 :: tail) with ([Progress 0 10] ++ tail);
      rewrite !requested_names_app, Hnames; cbn; now rewrite ?app_nil_r. }
  subst records. rewrite Hreq. subst result. rewrite Hinit. clear Hinit Hreq.
  assert (Hfilter : forall extra,
             filter is_rest_request ((Progress 0 10 :: tail) ++ extra)
             = filter is_rest_request extra).
  { intros extra. rewrite filter_app. cbn [filter is_rest_request].
    now rewrite Hrest. }
  destruct (ninjaRecords sources subset) as [| c recs] eqn:Hrecs.
  - unfold rest_fallback.
    destruct (restCountries sources 0) as [| status | data0] eqn:H0;
      [destruct (restCountries sources 1) as [| status' | data1] eqn:H1
      | destruct (restCountries sources 1) as [| status' | data1] eqn:H1 |];
      cbn [success loaded events]; rewrite ?Hfilter;
      (split; [intros H; now elim H |]);
      (split; [intros _ data E; try discriminate;
               injection E as <-; repeat split |]);
      (split; [intros _ Hno data E; try discriminate;
               try (now elim (Hno data0));
               injection E as <-; repeat split |]);
      (split; [| first [reflexivity | discriminate]]);
      (split; [ first [ discriminate
                      | intros _; repeat split; intros; discriminate ]
              | intros (_ & Hno0 & Hno1);
                first [ reflexivity
                      | now elim (Hno0 data0)
                      | now elim (Hno1 data1) ] ]).
  - cbn [success loaded events].
    cbn [filter is_rest_request]. rewrite Hrest.
    split; [intros _; repeat split |].
    split; [discriminate |]. split; [discriminate |].
    split; [| discriminate].
    split; [discriminate | intros (H & _); discriminate].
Qed.

Lemma init_outcome_witness :
  success (init "key" [] {| ninja := ninja_down; restCountries := rest_flaky |}
                sample_rng) = true
  /\ map name (loaded (init "key" [] {| ninja := ninja_down;
                                        restCountries := rest_flaky |} sample_rng))
     = ["Bouvet Island"; "France"]
  /\ (success (init "key" [] {| ninja := ninja_down; restCountries := rest_down |}
                    sample_rng) = false).
Proof.
  pose proof (init_outcome "key" [] {| ninja := ninja_down; restCountries := rest_flaky |}
                sample_rng eq_refl) as (_ & _ & Hretry & _).
  pose proof (init_outcome "key" [] {| ninja := ninja_down; restCountries := rest_down |}
                sample_rng eq_refl) as (_ & _ & _ & Hfalse & _).
  destruct (Hretry ltac:(vm_compute; reflexivity)
                   ltac:(intros data; discriminate)
                   [rest_bare; rest_france] eq_refl) as (Hs & Hl & _).
  split; [exact Hs |]. split; [rewrite Hl; reflexivity |].
  apply Hfalse. split; [vm_compute; reflexivity |].
  split; intros data; discriminate.
Defined.

(** ** Sorting by popularity *)

Lemma insert_by_Permutation (comparator : CountryRecord -> CountryRecord -> number)
  (a : CountryRecord) (l : list CountryRecord) :
  Permutation (insert_by comparator a l) (a :: l).
Proof.
  induction l as [| b l IH]; cbn [insert_by]; [reflexivity |].
  destruct (gt (comparator a b) 0); [| reflexivity].
  rewrite IH. apply perm_swap.
Qed.

Lemma sort_Permutation (comparator : CountryRecord -> CountryRecord -> number)
  (l : list CountryRecord) :
  Permutation (sort comparator l) l.
Proof.
  induction l as [| a l IH]; cbn [sort fold_right]; [reflexivity |].
  fold (sort comparator l). rewrite insert_by_Permutation. now constructor.
Qed.

Lemma popularity_order (a b : CountryRecord) :
  finite_popularity a -> finite_popularity b ->
  if gt (byPopularity a b) 0 then at_least_as_popular b a
  else at_least_as_popular a b.
Proof.
  intros [p Hp] [q Hq]. unfold byPopularity, at_least_as_popular.
  rewrite Hp, Hq. cbn [minus gt].
  destruct (Qle_bool (q - p) 0) eqn:E; cbn [negb].
  - apply Qle_bool_iff in E. exists p, q. repeat split.
    unfold Qle, Qminus, Qplus, Qopp in *. cbn [Qnum Qden] in *. lia.
  - exists q, p. repeat split.
    destruct (Qlt_le_dec 0 (q - p)) as [H | H].
    + unfold Qlt, Qle, Qminus, Qplus, Qopp in *. cbn [Qnum Qden] in *. lia.
    + apply Qle_bool_iff in H. congruence.
Qed.

Lemma at_least_as_popular_trans (a b c : CountryRecord) :
  at_least_as_popular a b -> at_least_as_popular b c -> at_least_as_popular a c.
Proof.
  intros (p & q & Hp & Hq & Hpq) (q' & r & Hq' & Hr & Hqr).
  rewrite Hq in Hq'. injection Hq' as <-.
  exists p, r. repeat split; trivial. eapply Qle_trans; eassumption.
Qed.

Lemma insert_by_sorted (a : CountryRecord) (l : list CountryRecord) :
  finite_popularity a -> Forall finite_popularity l ->
  StronglySorted at_least_as_popular l ->
  StronglySorted at_least_as_popular (insert_by byPopularity a l).
Proof.
  intros Ha Hl Hsorted.
  induction Hsorted as [| b l Hsorted IH Hb]; cbn [insert_by].
  - repeat constructor.
  - apply Forall_cons_iff in Hl as [Hfb Hl].
    pose proof (popularity_order a b Ha Hfb) as Hcmp.
    destruct (gt (byPopularity a b) 0).
    + constructor; [now apply IH |].
      eapply Permutation_Forall; [symmetry; apply insert_by_Permutation |].
      now constructor.
    + constructor; [now constructor |].
      constructor; [exact Hcmp |].
      eapply Forall_impl; [| exact Hb].
      intros c Hc. eapply at_least_as_popular_trans; eassumption.
Qed.

Lemma sort_sorted (l : list CountryRecord) :
  Forall finite_popularity l ->
  StronglySorted at_least_as_popular (sort byPopularity l).
Proof.
  induction 1 as [| a l Ha Hl IH]; cbn [sort fold_right]; [constructor |].
  fold (sort byPopularity l). apply insert_by_sorted; trivial.
  eapply Permutation_Forall; [symmetry; apply sort_Permutation | exact Hl].
Qed.

Lemma sorted_prefix_dominates (pool rest : list CountryRecord) :
  StronglySorted at_least_as_popular (pool ++ rest) ->
  forall a b, In a pool -> In b rest -> at_least_as_popular a b.
Proof.
  induction pool as [| c pool IH]; cbn [app]; intros Hsorted a b Ha Hb;
    [contradiction |].
  apply StronglySorted_inv in Hsorted as [Hsorted Hc].
  destruct Ha as [<- | Ha].
  - rewrite Forall_forall in Hc. apply Hc, in_app_iff. now right.
  - now apply IH.
Qed.

(** C8: the pool is a prefix of the stored sequence, and [init] sorts that
    sequence by popularity on every path but one.  When the first bulk
    request fails, the [catch] block loads the second answer and returns
    without the sort the [try] block applies after the same call.  For a
    bulk answer of 31 countries in rising order of population, delivered
    at once the easy pool holds the 30 most populous; delivered at the
    retry it holds the 30 least populous, and is not a prefix of the
    popularity-sorted sequence. *)
Theorem selectPool_after_retry_unsorted :
  let at_once :=
    loaded (init "key" [] {| ninja := ninja_down; restCountries := rest_at_once |}
                 sample_rng) in
  let at_retry :=
    loaded (init "key" [] {| ninja := ninja_down; restCountries := rest_at_retry |}
                 sample_rng) in
  Permutation at_retry at_once
  /\ at_once = sort byPopularity at_retry
  /\ map popularity at_retry = map (fun k => of_Z (Z.of_nat k)) (seq 1 31)
  /\ getCountriesForDifficulty (with_countries at_once new_engine)
     = Done (firstn 30 at_once)
  /\ map popularity (firstn 30 at_once)
     = rev (map (fun k => of_Z (Z.of_nat k)) (seq 2 30))
  /\ getCountriesForDifficulty (with_countries at_retry new_engine)
     = Done (firstn 30 at_retry)
  /\ map popularity (firstn 30 at_retry)
     = map (fun k => of_Z (Z.of_nat k)) (seq 1 30)
  /\ firstn 30 at_retry <> firstn 30 (sort byPopularity at_retry).
Proof.
  intros at_once at_retry.
  assert (Hsorted : at_once = sort byPopularity at_retry)
    by (vm_compute; reflexivity).
  split; [rewrite Hsorted; symmetry; apply sort_Permutation |].
  split; [exact Hsorted |].
  split; [vm_compute; reflexivity |].
  split; [vm_compute; reflexivity |].
  split; [vm_compute; reflexivity |].
  split; [vm_compute; reflexivity |].
  split; [vm_compute; reflexivity |].
  intros H. apply (f_equal (map popularity)) in H.
  vm_compute in H. discriminate.
Qed.

(** X12: the sort [init] applies puts the countries in descending order
    of popularity without losing or adding any (popularities being
    finite numbers); so in an engine holding the sorted countries, the
    pool of each of the three difficulties is a prefix whose members are
    each at least as popular as every country left out. *)
Theorem pools_hold_the_most_popular :
  forall cs : list CountryRecord,
    Forall finite_popularity cs ->
    Permutation (sort byPopularity cs) cs
    /\ StronglySorted at_least_as_popular (sort byPopularity cs)
    /\ forall (s : Engine) (level : string) (cap : nat),
         In (level, cap) difficulty_caps ->
         difficulty s = level ->
         countries s = sort byPopularity cs ->
         exists pool rest,
           getCountriesForDifficulty s = Done pool
           /\ sort byPopularity cs = pool ++ rest
           /\ forall a b, In a pool -> In b rest -> at_least_as_popular a b.
Proof.
  intros cs Hfinite.
  pose proof (sort_sorted cs Hfinite) as Hsorted.
  split; [apply sort_Permutation |]. split; [exact Hsorted |].
  intros s level cap Hcap Hlevel Hcs.
  exists (firstn cap (countries s)), (skipn cap (countries s)).
  split; [| split].
  - unfold getCountriesForDifficulty. rewrite Hlevel.
    destruct Hcap as [E | [E | [E | []]]]; injection E as <- <-.
    + change (difficultySettings "easy") with (Some (Own 30 true)).
      cbv iota. now rewrite firstn_firstn.
    + reflexivity.
    + reflexivity.
  - rewrite Hcs. symmetry. apply firstn_skipn.
  - apply sorted_prefix_dominates. rewrite firstn_skipn, Hcs. exact Hsorted.
Qed.

Lemma pools_hold_the_most_popular_witness :
  map name (sort byPopularity (rev sample_countries))
  = ["Germany"; "France"; "Italy"; "Spain"; "Poland"]
  /\ StronglySorted at_least_as_popular (sort byPopularity (rev sample_countries)).
Proof.
  split; [vm_compute; reflexivity |].
  apply pools_hold_the_most_popular.
  repeat constructor; eexists; reflexivity.
Defined.

(** * The page *)

(** ** Generated questions and the engine under the page *)

Lemma generated_flag_leads (difficulty : string) (turns : nat) (ty : category)
  (pool : list CountryRecord) (g g' : rng) (q : Question) :
  generateMultipleChoiceQuestion difficulty turns ty pool g = Done (q, g') ->
  type q = ty /\ flag_leads q.
Proof.
  unfold generateMultipleChoiceQuestion.
  destruct (random (List.length pool) g) as [idx g1].
  destruct (nth_error pool idx) as [subject |]; [| discriminate].
  destruct (build difficulty turns ty subject pool g1)
    as [[[[[[text correct] opts] expl] med] g2] | |] eqn:Hb; try discriminate.
  destruct (shuffleArray opts g2) as [shuffled g3].
  intros H. injection H as <- _. unfold flag_leads. cbn [type media correctAnswer].
  split; [reflexivity |].
  destruct ty; cbn [build] in Hb;
    try (injection Hb as _ _ _ _ <- _; split; [discriminate | reflexivity]).
  - destruct (generateCapitalOptions subject pool g1).
    injection Hb as _ _ _ _ <- _; split; [discriminate | reflexivity].
  - destruct (generateCurrencyOptions subject pool g1).
    injection Hb as _ _ _ _ <- _; split; [discriminate | reflexivity].
  - destruct (generateLanguageOptions subject pool g1).
    injection Hb as _ _ _ _ <- _; split; [discriminate | reflexivity].
  - destruct (generateTimezoneOptions turns subject pool g1) as [[o gg] | |];
      try discriminate.
    injection Hb as _ _ _ _ <- _; split; [discriminate | reflexivity].
  - unfold generateFlagOptions in Hb.
    match type of Hb with
    | context [flag_loop ?t ?o ?l ?gg] =>
        destruct (flag_loop_picks t o l gg (le_n _)) as (picked & rest & Hres & _);
        destruct (flag_loop t o l gg) as [items g4]
    end.
    cbn [fst] in Hres. subst items.
    injection Hb as _ <- _ _ <- _.
    split; [| intros H; now elim H].
    intros _. eexists. eexists. split; [reflexivity | reflexivity].
Qed.

Lemma generateQuestion_flag_leads (turns : nat) (s : Engine) (g g' : rng)
  (q : Question) :
  generateQuestion turns s g = Done (q, g') -> flag_leads q.
Proof.
  unfold generateQuestion.
  destruct (random (List.length questionTypes) g) as [idx g1].
  destruct (getCountriesForDifficulty s) as [pool | |]; try discriminate.
  intros H. now apply generated_flag_leads in H.
Qed.

(** The three ways [nextQuestion] ends in a reachable state. *)
Lemma nextQuestion_reachable (turns : nat) (s : Engine) (g : rng) :
  reachable s ->
  (questionNumber s = 10%Z /\ nextQuestion turns s g = Returns (None, g) s)
  \/ ((questionNumber s < 10)%Z
      /\ exists s',
           reachable s'
           /\ questionNumber s' = (questionNumber s + 1)%Z
           /\ totalQuestions s' = totalQuestions s
           /\ countries s' = countries s
           /\ difficulty s' = difficulty s
           /\ score s' = score s /\ wrong s' = wrong s /\ streak s' = streak s
           /\ ((countries s = [] /\ nextQuestion turns s g = Throws s')
               \/ (countries s <> []
                   /\ exists q g',
                        nextQuestion turns s g = Returns (Some q, g') s'
                        /\ currentQuestion s' = Some q
                        /\ flag_leads q))).
Proof.
  intros Hr. pose proof (well_formed_reachable s Hr) as (Htot & Hqn & _ & _ & _ & Hd & _).
  destruct (nextQuestion turns s g) as [r s' | s' |] eqn:Hn.
  - pose proof (reach_next _ _ _ _ _ Hr Hn) as Hr'.
    revert Hn. unfold nextQuestion. rewrite Htot.
    destruct (Z.leb_spec 10 (questionNumber s)) as [Hle | Hlt].
    + intros H. injection H as <- <-. left. split; [lia | reflexivity].
    + match goal with
      | |- context [generateQuestion ?t ?s1 ?g1] =>
          destruct (generateQuestion_outcome t s1 g1 Hd) as [Hempty _];
          destruct (generateQuestion t s1 g1) as [[q g'] | |] eqn:Hq
      end; try discriminate.
      intros H. injection H as <- <-. right. split; [exact Hlt |].
      eexists. split; [exact Hr' |].
      cbn [questionNumber totalQuestions countries difficulty score wrong streak
           currentQuestion].
      repeat (split; [reflexivity |]). right. split.
      * intros E. cbn [countries] in Hempty. specialize (Hempty E). discriminate.
      * exists q, g'. split; [reflexivity |]. split; [reflexivity |].
        eapply generateQuestion_flag_leads; exact Hq.
  - pose proof (reach_next_throws _ _ _ _ Hr Hn) as Hr'.
    revert Hn. unfold nextQuestion. rewrite Htot.
    destruct (Z.leb_spec 10 (questionNumber s)) as [Hle | Hlt]; [discriminate |].
    match goal with
    | |- context [generateQuestion ?t ?s1 ?g1] =>
        destruct (generateQuestion_outcome t s1 g1 Hd) as [_ Hsome];
        destruct (generateQuestion t s1 g1) as [[q g'] | |] eqn:Hq
    end; try discriminate.
    intros H. injection H as <-. right. split; [exact Hlt |].
    eexists. split; [exact Hr' |].
    cbn [questionNumber totalQuestions countries difficulty score wrong streak
           currentQuestion].
    repeat (split; [reflexivity |]). left. split; [| reflexivity].
    destruct (countries s) as [| c cs] eqn:E; [reflexivity |].
    cbn [countries] in Hsome.
    destruct Hsome as (q & g' & subject & Hq' & _); discriminate.
  - exfalso. revert Hn. unfold nextQuestion.
    destruct (totalQuestions s <=? questionNumber s)%Z; [discriminate |].
    match goal with
    | |- context [generateQuestion ?t ?s1 ?g1] =>
        pose proof (generateQuestion_ends t s1 g1) as Hends;
        destruct (generateQuestion t s1 g1) as [[q g'] | |]
    end; try discriminate. now elim Hends.
Qed.

(** ** What every state of the page satisfies *)

Lemma pending_awaiting (ui : QuizUI) :
  awaiting_answer ui = true ->
  pending ui = 1%Z /\ question_view (page ui) = true /\ isAnswered ui = false.
Proof.
  unfold pending, awaiting_answer, question_view. intros H.
  destruct (optionsContent (page ui)); try discriminate.
  destruct (isAnswered ui); [discriminate |]. auto.
Qed.

Lemma pending_not_awaiting (ui : QuizUI) :
  awaiting_answer ui = false -> pending ui = 0%Z.
Proof. unfold pending. now intros ->. Qed.

Lemma loadNextQuestion_invariant (turns : nat) (ui ui' : QuizUI) (g g' : rng) :
  may_load ui ->
  state_after (loadNextQuestion turns ui g) = Some (ui', g') ->
  ui_invariant ui'.
Proof.
  intros (Hr & (c & b & H0 & H1 & H2 & H3 & H4 & H5) & Hempty & Hstats) H.
  unfold loadNextQuestion in H.
  destruct (nextQuestion_reachable turns (engine ui) g Hr)
    as [[Hq Hn] | (Hlt & s' & Hr' & Hqn & Htot & Hcs & _ & Hsc & Hw & Hst
                   & [[He Hn] | (Hne & q & g2 & Hn & Hcur & Hfl)])];
    rewrite Hn in H; cbn [state_after] in H; injection H as <- <-.
  - unfold ui_invariant, showSummary. cbn [engine page isAnswered].
    split; [exact Hr |]. split.
    { exists c, b. rewrite pending_not_awaiting by reflexivity.
      unfold tally. repeat (split; [assumption |]). assumption. }
    split; [reflexivity |]. intros Hne.
    unfold view_ok, shown_stats. cbn.
    split; [exact (Hstats Hq Hne) |].
    repeat (split; [first [exact Hq | reflexivity] |]). reflexivity.
  - unfold ui_invariant. cbn [engine page isAnswered].
    split; [exact Hr' |].
    assert (Hview : question_view (page ui) = false) by auto.
    split.
    { exists c, b. rewrite pending_not_awaiting.
      - unfold tally. rewrite Hsc, Hw, Hst, Hqn, Hcs.
        repeat (split; [first [assumption | lia] |]). intros E. now elim E.
      - unfold awaiting_answer. cbn [page]. unfold question_view in Hview.
        destruct (optionsContent (page ui)); try reflexivity. discriminate. }
    split; [intros _; exact Hview |]. rewrite Hcs. intros E. now elim E.
  - unfold ui_invariant. cbn [engine page isAnswered].
    split; [exact Hr' |]. split.
    { exists c, b. unfold pending, awaiting_answer. cbn.
      unfold tally. rewrite Hsc, Hw, Hst, Hqn, Hcs.
      repeat (split; [first [assumption | lia] |]). intros E. specialize (H5 E). lia. }
    split; [rewrite Hcs; intros E; now elim Hne |]. intros _.
    unfold view_ok, shown_stats. cbn.
    split; [auto |]. exists q. auto.
Qed.

(** Answering the question on display. *)
Lemma handleAnswer_awaiting (v : value) (ui : QuizUI) (g : rng) :
  ui_invariant ui ->
  awaiting_answer ui = true ->
  exists q r e,
    currentQuestion (engine ui) = Some q
    /\ flag_leads q
    /\ optionButtons (page ui) = question_buttons q
    /\ nextDisabled (page ui) = true
    /\ checkAnswer v (engine ui) = Returns r e
    /\ handleAnswer v ui g
       = Handled {| engine := e;
                    isAnswered := true;
                    page := updateStats e
                              (with_nextDisabled false
                                 (with_options
                                    (Buttons (map disable (question_buttons q)))
                                    (with_feedback
                                       (if isCorrect r
                                        then showFeedback true (result_explanation r)
                                               (result_streak r)
                                        else showFeedback false
                                               (result_explanation r) 0)
                                       (page ui)))) |} g.
Proof.
  intros (Hr & _ & Hempty & Hview) Haw.
  destruct (pending_awaiting ui Haw) as (_ & Hqv & Hans).
  assert (Hne : countries (engine ui) <> []).
  { intros E. rewrite (Hempty E) in Hqv. discriminate. }
  destruct (Hview Hne) as [_ Hshow].
  unfold question_view in Hqv. unfold optionButtons.
  destruct (optionsContent (page ui)) as [| | | buttons |] eqn:Hoc; try discriminate.
  destruct Hshow as (q & Hcur & Hfl & _ & Hbs & Hnd).
  rewrite Hans in Hbs, Hnd. cbn [negb] in Hnd.
  destruct (checkAnswer_cases v (engine ui))
    as [[Hnone _] | (q' & r & e & Hq' & Hc & _)]; [congruence |].
  exists q, r, e. repeat (split; [assumption |]).
  unfold handleAnswer. rewrite Hans, Hc. do 3 f_equal.
  unfold disable_options. cbn [optionsContent with_feedback].
  rewrite Hoc, Hbs. reflexivity.
Qed.

Lemma bonus_step (c b st : Z) :
  (0 <= st)%Z ->
  (3 * b + st mod 3 <= c)%Z ->
  (3 * (b + (if (0 <? st + 1)%Z && ((st + 1) mod 3 =? 0)%Z then 1 else 0))
   + (st + 1) mod 3 <= c + 1)%Z.
Proof.
  intros Hst H.
  destruct (Z.ltb_spec 0 (st + 1)); [| lia]. cbn [andb].
  destruct (Z.eqb_spec ((st + 1) mod 3) 0) as [E | E];
    Z.to_euclidean_division_equations; lia.
Qed.

Lemma handleAnswer_invariant (v : value) (ui ui' : QuizUI) (g g' : rng) :
  ui_invariant ui ->
  state_after (handleAnswer v ui g) = Some (ui', g') ->
  question_view (page ui) = true ->
  ui_invariant ui'.
Proof.
  intros Hinv H Hqv.
  destruct (isAnswered ui) eqn:Hans.
  { unfold handleAnswer in H. rewrite Hans in H. cbn in H. now injection H as <- _. }
  assert (Haw : awaiting_answer ui = true).
  { unfold awaiting_answer. unfold question_view in Hqv.
    destruct (optionsContent (page ui)); try discriminate. now rewrite Hans. }
  destruct (handleAnswer_awaiting v ui g Hinv Haw)
    as (q & r & e & Hcur & Hfl & _ & _ & Hc & Hh).
  rewrite Hh in H. cbn [state_after] in H. injection H as <- _.
  destruct Hinv as (Hr & (c & b & H0 & H1 & H2 & H3 & H4 & H5) & Hempty & Hview).
  destruct (pending_awaiting ui Haw) as (Hp & _ & _). rewrite Hp in H4, H5.
  pose proof (well_formed_reachable _ Hr) as (_ & _ & _ & Hst0 & _).
  assert (Hne : countries (engine ui) <> []).
  { intros E. rewrite (Hempty E) in Hqv. discriminate. }
  destruct (checkAnswer_cases v (engine ui))
    as [[Hnone _] | (q' & r' & e' & Hq' & Hc' & (Hd & Hqn & Htot & Hcs & Hcq) & Hcase)];
    [congruence |].
  rewrite Hc in Hc'. injection Hc' as <- <-.
  unfold ui_invariant. cbn [engine page isAnswered].
  split; [eapply reach_check; eassumption |]. split.
  { rewrite pending_not_awaiting
      by (unfold awaiting_answer; cbn; reflexivity).
    unfold tally. rewrite Hqn, Hcs.
    destruct Hcase as [(_ & Hst & Hw & Hsc) | (_ & Hst & Hw & Hsc)].
    - exists (c + 1)%Z,
        (b + (if (0 <? streak e)%Z && (streak e mod 3 =? 0)%Z then 1 else 0))%Z.
      rewrite Hsc, Hw. rewrite Hst.
      pose proof (bonus_step c b (streak (engine ui)) Hst0 H3) as Hb.
      destruct ((0 <? streak (engine ui) + 1)%Z
                && ((streak (engine ui) + 1) mod 3 =? 0)%Z);
        repeat (split; [lia |]); intros E; specialize (H5 E); lia.
    - exists c, b. rewrite Hsc, Hw, Hst.
      change (0 mod 3)%Z with 0%Z.
      pose proof (Z.mod_pos_bound (streak (engine ui)) 3 ltac:(lia)) as Hm.
      repeat (split; [lia |]). intros E; specialize (H5 E); lia. }
  split; [rewrite Hcs; intros E; now elim Hne |]. intros _.
  unfold view_ok, shown_stats. cbn.
  split; [auto |]. exists q. rewrite Hcq.
  destruct (Hview Hne) as [_ Hshow].
  unfold question_view in Hqv.
  destruct (optionsContent (page ui)); try discriminate.
  destruct Hshow as (q2 & Hcur2 & _ & Hqt & _).
  assert (q2 = q) by congruence. subst q2. auto.
Qed.

Lemma optionButtons_view (p : Page) (i : nat) (b : Button) :
  nth_error (optionButtons p) i = Some b -> question_view p = true.
Proof.
  unfold optionButtons, question_view.
  destruct (optionsContent p); try reflexivity; destruct i; discriminate.
Qed.

Lemma clickOption_invariant (i : nat) (ui ui' : QuizUI) (g g' : rng) :
  ui_invariant ui ->
  state_after (clickOption i ui g) = Some (ui', g') ->
  ui_invariant ui'.
Proof.
  intros Hinv. unfold clickOption.
  destruct (nth_error (optionButtons (page ui)) i) as [b |] eqn:Hb.
  - destruct (btn_disabled b).
    + intros H. now injection H as <- _.
    + intros H. eapply handleAnswer_invariant; eauto using optionButtons_view.
  - intros H. now injection H as <- _.
Qed.

Lemma keyOption_invariant (key : string) (ui ui' : QuizUI) (g g' : rng) :
  ui_invariant ui ->
  state_after (keyOption key ui g) = Some (ui', g') ->
  ui_invariant ui'.
Proof.
  intros Hinv. unfold keyOption.
  destruct (isAnswered ui); [intros H; now injection H as <- _ |].
  destruct (parseInt key) as [k |]; [| intros H; now injection H as <- _].
  destruct ((1 <=? k)%Z && (k <=? 4)%Z); [| intros H; now injection H as <- _].
  now apply clickOption_invariant.
Qed.

Lemma may_load_enabled (ui : QuizUI) :
  ui_invariant ui -> nextDisabled (page ui) = false -> may_load ui.
Proof.
  intros (Hr & (c & b & Ht) & Hempty & Hview) Hnext.
  assert (Haw : awaiting_answer ui = false).
  { destruct (awaiting_answer ui) eqn:Haw; [| reflexivity].
    destruct (pending_awaiting ui Haw) as (_ & Hqv & Hans).
    assert (Hne : countries (engine ui) <> []).
    { intros E. rewrite (Hempty E) in Hqv. discriminate. }
    destruct (Hview Hne) as [_ Hshow]. unfold question_view in Hqv.
    destruct (optionsContent (page ui)); try discriminate.
    destruct Hshow as (q & _ & _ & _ & _ & Hnd).
    rewrite Hans, Hnext in Hnd. discriminate. }
  rewrite (pending_not_awaiting ui Haw) in Ht.
  split; [exact Hr |]. split; [now exists c, b |]. split; [exact Hempty |].
  intros _ Hne. now destruct (Hview Hne).
Qed.

Lemma keyNext_invariant (turns : nat) (key : string) (ui ui' : QuizUI)
  (g g' : rng) :
  ui_invariant ui ->
  state_after (keyNext turns key ui g) = Some (ui', g') ->
  ui_invariant ui'.
Proof.
  intros Hinv. unfold keyNext, handleNext.
  destruct (nextDisabled (page ui)) eqn:Hnd.
  - rewrite andb_false_r. intros H. now injection H as <- _.
  - destruct (String.eqb key "Enter" || String.eqb key " "); cbn [andb negb].
    + apply loadNextQuestion_invariant. now apply may_load_enabled.
    + intros H. now injection H as <- _.
Qed.

Lemma state_after_and_then (first : handled) (second : QuizUI -> rng -> handled) :
  state_after (and_then first second)
  = match state_after first with
    | Some (ui, g) => state_after (second ui g)
    | None => None
    end.
Proof.
  destruct first as [ui g | ui g |]; cbn [and_then state_after]; try reflexivity.
  now destruct (second ui g).
Qed.

Lemma tally_reset (e : Engine) : tally (reset e) 0 0 0.
Proof. unfold tally, reset. cbn. repeat split; lia. Qed.

Lemma handleRestart_invariant (turns : nat) (ui ui' : QuizUI) (g g' : rng) :
  reachable (engine ui) ->
  (countries (engine ui) = [] -> question_view (page ui) = false) ->
  state_after (handleRestart turns ui g) = Some (ui', g') ->
  ui_invariant ui'.
Proof.
  intros Hr Hempty. unfold handleRestart.
  apply loadNextQuestion_invariant.
  unfold may_load. cbn [engine page].
  split; [now apply reach_reset |].
  split; [exists 0%Z, 0%Z; apply tally_reset |].
  split; [exact Hempty |]. cbn. discriminate.
Qed.

Lemma dispatch_invariant (turns : nat) (ev : UserEvent) (ui ui' : QuizUI)
  (g g' : rng) :
  ui_invariant ui ->
  state_after (dispatch turns ev ui g) = Some (ui', g') ->
  ui_invariant ui'.
Proof.
  intros Hinv. destruct ev as [i | key | | | level]; cbn [dispatch].
  - now apply clickOption_invariant.
  - rewrite state_after_and_then.
    destruct (state_after (keyOption key ui g)) as [[ui1 g1] |] eqn:H1;
      [| discriminate].
    apply keyNext_invariant. eapply keyOption_invariant; eassumption.
  - destruct (nextDisabled (page ui)) eqn:Hnd.
    + intros H. now injection H as <- _.
    + apply loadNextQuestion_invariant. now apply may_load_enabled.
  - destruct Hinv as (Hr & _ & Hempty & _). now apply handleRestart_invariant.
  - destruct Hinv as (Hr & _ & Hempty & _).
    apply handleRestart_invariant; cbn [engine page].
    + now apply reach_setDifficulty.
    + intros E. apply Hempty. revert E. unfold setDifficulty.
      destruct (difficultySettings level); trivial.
Qed.

Lemma onProgress_options (evs : list event) (p : Page) :
  optionsContent (fold_left (fun p e => onProgress e p) evs p) = optionsContent p.
Proof.
  revert p. induction evs as [| e evs IH]; intros p; [reflexivity |].
  cbn [fold_left]. rewrite IH.
  destruct e as [current total | | |]; try reflexivity.
  cbn [onProgress]. now destruct (Nat.ltb 0 total).
Qed.

Lemma ui_reachable_invariant (ui : QuizUI) : ui_reachable ui -> ui_invariant ui.
Proof.
  induction 1 as [turns apiKey sources p g g' ui Hok H | turns ev g g' ui ui' _ IH H].
  - unfold QuizUI_init in H. rewrite Hok in H.
    eapply loadNextQuestion_invariant; [| exact H].
    unfold may_load. cbn [engine page].
    split; [apply reach_init, reach_new |].
    split; [exists 0%Z, 0%Z; unfold tally; cbn; repeat split; lia |].
    split; [| cbn; discriminate].
    intros _. unfold question_view. now rewrite onProgress_options.
  - eapply dispatch_invariant; eassumption.
Qed.

Lemma run_reachable (turns : nat) (evs : list UserEvent) :
  forall (ui ui' : QuizUI) (g g' : rng),
    ui_reachable ui -> run turns evs ui g = Some (ui', g') -> ui_reachable ui'.
Proof.
  induction evs as [| ev evs IH]; intros ui ui' g g' Hr; cbn [run].
  - intros H. now injection H as <- _.
  - destruct (state_after (dispatch turns ev ui g)) as [[ui1 g1] |] eqn:H1;
      [| discriminate].
    apply IH. eapply ui_event; eassumption.
Qed.

Lemma session_reachable (turns : nat) (apiKey : string) (sources : Sources)
  (p : Page) (g g' : rng) (evs : list UserEvent) (ui : QuizUI) :
  session turns apiKey sources p g evs = Some (ui, g') -> ui_reachable ui.
Proof.
  unfold session.
  destruct (success (init apiKey [] sources g)) eqn:Hok; [| discriminate].
  destruct (state_after (QuizUI_init turns apiKey sources p g))
    as [[ui0 g0] |] eqn:H0; [| discriminate].
  apply run_reachable. eapply ui_started; eassumption.
Qed.

Lemma pending_range (ui : QuizUI) : (0 <= pending ui <= 1)%Z.
Proof. unfold pending. destruct (awaiting_answer ui); lia. Qed.

(** X13: through the page each question is scored once.  In every state
    the page reaches, the answers given since the last restart are
    [correct] correct ones and [wrong] wrong ones, one for each question
    asked except the one still open; the score is the number of correct
    answers plus at most a third of it in bonus points, so never above 13;
    and once countries are loaded the counters on display are the
    engine's. *)
Theorem page_scores_each_question_once :
  forall ui : QuizUI,
    ui_reachable ui ->
    exists correct : Z,
      (0 <= correct)%Z /\ (0 <= wrong (engine ui))%Z
      /\ (correct + wrong (engine ui) + pending ui <= questionNumber (engine ui) <= 10)%Z
      /\ (countries (engine ui) <> [] ->
          (correct + wrong (engine ui) + pending ui)%Z = questionNumber (engine ui))
      /\ (correct <= score (engine ui) <= correct + correct / 3)%Z
      /\ (score (engine ui) <= 13)%Z
      /\ (countries (engine ui) <> [] -> shown_stats ui).
Proof.
  intros ui Hr.
  destruct (ui_reachable_invariant ui Hr)
    as (He & (c & b & H0 & H1 & H2 & H3 & H4 & H5) & _ & Hview).
  pose proof (well_formed_reachable _ He) as (_ & Hqn & Hw & _).
  pose proof (pending_range ui) as Hp.
  pose proof (Z.mod_pos_bound (streak (engine ui)) 3 ltac:(lia)) as Hm.
  assert (Hb : (b <= c / 3)%Z) by (apply Z.div_le_lower_bound; lia).
  assert (Hc : (c / 3 < 4)%Z) by (apply Z.div_lt_upper_bound; lia).
  exists c. repeat (split; [first [assumption | lia] |]).
  intros Hne. now destruct (Hview Hne).
Qed.

Lemma page_scores_each_question_once_witness :
  exists (ui : QuizUI) (g : rng) (correct : Z),
    session 0 EmptyString (bulk_only rest_up) blank_page sample_rng
            [ClickOption 0; ClickOption 1; ClickNext; KeyDown "2"; KeyDown "Enter"]
    = Some (ui, g)
    /\ (correct + wrong (engine ui) + pending ui)%Z = questionNumber (engine ui)
    /\ (correct <= score (engine ui) <= correct + correct / 3)%Z.
Proof.
  destruct (session 0 EmptyString (bulk_only rest_up) blank_page sample_rng
              [ClickOption 0; ClickOption 1; ClickNext; KeyDown "2"; KeyDown "Enter"])
    as [[ui g] |] eqn:Hs; [| vm_compute in Hs; discriminate].
  destruct (page_scores_each_question_once ui)
    as (correct & _ & _ & _ & Hsum & Hscore & _).
  - eapply session_reachable; exact Hs.
  - exists ui, g, correct. split; [reflexivity |]. split; [| exact Hscore].
    apply Hsum. revert Hs. vm_compute. intros H. injection H as <- _. discriminate.
Defined.

(** ** Answering by the first button *)

Lemma keyNext_other_key (turns : nat) (key : string) (ui : QuizUI) (g : rng) :
  String.eqb key "Enter" || String.eqb key " " = false ->
  keyNext turns key ui g = Handled ui g.
Proof. unfold keyNext. now intros ->. Qed.

(** X14: the buttons of a flag question are made from [media.options],
    which is not shuffled: the first button always carries the correct
    flag, so a click on it, or the key 1, is counted as correct. *)
Theorem flag_question_first_button :
  forall (ui : QuizUI) (q : Question),
    ui_reachable ui ->
    awaiting_answer ui = true ->
    currentQuestion (engine ui) = Some q ->
    type q = Flag ->
    exists (b : Button) (rest : list Button),
      optionButtons (page ui) = b :: rest
      /\ btn_answer b = correctAnswer q
      /\ forall (turns : nat) (g : rng) (ev : UserEvent),
           In ev [ClickOption 0; KeyDown "1"] ->
           exists ui' : QuizUI,
             dispatch turns ev ui g = Handled ui' g
             /\ wrong (engine ui') = wrong (engine ui)
             /\ streak (engine ui') = (streak (engine ui) + 1)%Z
             /\ (score (engine ui) < score (engine ui'))%Z.
Proof.
  intros ui q Hr Haw Hcur Hty.
  pose proof (ui_reachable_invariant ui Hr) as Hinv.
  destruct (pending_awaiting ui Haw) as (_ & _ & Hans).
  destruct (handleAnswer_awaiting (correctAnswer q) ui (fun _ => 0) Hinv Haw)
    as (q' & _ & _ & Hcur' & Hfl & Hbs & _).
  assert (q' = q) by congruence. subst q'.
  destruct Hfl as [Hfl _]. destruct (Hfl Hty) as (item & items & Hmedia & Hitem).
  unfold question_buttons in Hbs. rewrite Hmedia in Hbs. cbn [renderFlagOptions] in Hbs.
  eexists. eexists. split; [exact Hbs |]. split; [exact Hitem |].
  intros turns g ev Hev.
  destruct (handleAnswer_awaiting (correctAnswer q) ui g Hinv Haw)
    as (q' & r & e & Hcur2 & _ & _ & _ & Hc & Hh).
  destruct (checkAnswer_correct (engine ui) q Hcur)
    as (r' & e' & Hc' & _ & Hw & Hst & Hsc).
  rewrite Hc in Hc'. injection Hc' as <- <-.
  assert (Hclick : clickOption 0 ui g = handleAnswer (correctAnswer q) ui g).
  { unfold clickOption. rewrite Hbs. cbn [nth_error btn_disabled btn_answer].
    now rewrite Hitem. }
  eexists. split.
  - destruct Hev as [<- | [<- | []]]; cbn [dispatch].
    + rewrite Hclick. exact Hh.
    + unfold keyOption. rewrite Hans.
      change (parseInt "1") with (Some 1%Z). cbn [Z.leb Z.compare Pos.compare andb].
      change (Z.to_nat (1 - 1)) with 0%nat. rewrite Hclick, Hh.
      cbn [and_then]. now apply keyNext_other_key.
  - cbn [engine]. split; [exact Hw |]. split; [exact Hst |].
    rewrite Hsc. destruct ((0 <? streak e)%Z && (streak e mod 3 =? 0)%Z); lia.
Qed.

Lemma flag_question_first_button_witness :
  exists (ui ui' : QuizUI) (g : rng),
    session 0 EmptyString (bulk_only rest_up) blank_page flag_rng [] = Some (ui, g)
    /\ dispatch 0 (KeyDown "1") ui g = Handled ui' g
    /\ score (engine ui') = 1%Z.
Proof.
  destruct (session 0 EmptyString (bulk_only rest_up) blank_page flag_rng [])
    as [[ui g] |] eqn:Hs; [| vm_compute in Hs; discriminate].
  destruct (currentQuestion (engine ui)) as [q |] eqn:Hq;
    [| revert Hs Hq; vm_compute; intros H; injection H as <- _; discriminate].
  destruct (flag_question_first_button ui q) as (b & rest & _ & _ & Hev).
  - eapply session_reachable; exact Hs.
  - revert Hs. vm_compute. intros H. now injection H as <- _.
  - exact Hq.
  - revert Hs Hq. vm_compute. intros H. injection H as <- _.
    intros H. now injection H as <-.
  - destruct (Hev 0 g (KeyDown "1")) as (ui' & Hd & _); [right; now left |].
    exists ui, ui', g. split; [reflexivity |]. split; [exact Hd |].
    revert Hd. vm_compute in Hs. injection Hs as <- <-. vm_compute.
    intros H. now injection H as <-.
Defined.

(** ** One answer for each question *)

Lemma question_buttons_enabled (q : Question) :
  Forall (fun b => btn_disabled b = false) (question_buttons q).
Proof.
  unfold question_buttons. destruct (media q) as [items |].
  - generalize 0%nat. induction items as [| item items IH]; intros n;
      cbn [renderFlagOptions]; constructor; [reflexivity | apply IH].
  - generalize 0%nat. induction (options q) as [| o os IH]; intros n;
      cbn [renderTextOptions]; constructor; [reflexivity | apply IH].
Qed.

Lemma clickOption_ignored (i : nat) (ui : QuizUI) (g : rng) :
  ui_invariant ui ->
  awaiting_answer ui = false ->
  clickOption i ui g = Handled ui g.
Proof.
  intros (_ & _ & Hempty & Hview) Haw. unfold clickOption.
  destruct (nth_error (optionButtons (page ui)) i) as [b |] eqn:Hb; [| reflexivity].
  pose proof (optionButtons_view _ _ _ Hb) as Hqv.
  assert (Hne : countries (engine ui) <> []).
  { intros E. rewrite (Hempty E) in Hqv. discriminate. }
  destruct (Hview Hne) as [_ Hshow].
  unfold awaiting_answer in Haw. unfold optionButtons in Hb.
  destruct (optionsContent (page ui)) as [| | | buttons |];
    try (destruct i; discriminate).
  destruct Hshow as (q & _ & _ & _ & Hbs & _).
  apply negb_false_iff in Haw. rewrite Haw in Hbs. subst buttons.
  rewrite nth_error_map in Hb.
  destruct (nth_error (question_buttons q) i); [| discriminate].
  injection Hb as <-. reflexivity.
Qed.

Lemma keyOption_ignored (key : string) (ui : QuizUI) (g : rng) :
  ui_invariant ui ->
  awaiting_answer ui = false ->
  keyOption key ui g = Handled ui g.
Proof.
  intros Hinv Haw. unfold keyOption.
  destruct (isAnswered ui); [reflexivity |].
  destruct (parseInt key) as [k |]; [| reflexivity].
  destruct ((1 <=? k)%Z && (k <=? 4)%Z); [| reflexivity].
  now apply clickOption_ignored.
Qed.

(** X15: while a question waits for its answer, Next is disabled, every
    option button is enabled, and Next, Enter and Space change nothing;
    once it is answered, or when no question is on display, every option
    button is disabled and neither a click on an option nor a key 1 to 4
    changes anything. *)
Theorem page_gates_answer_and_next :
  forall ui : QuizUI,
    ui_reachable ui ->
    (awaiting_answer ui = true ->
     nextDisabled (page ui) = true
     /\ Forall (fun b => btn_disabled b = false) (optionButtons (page ui))
     /\ forall (turns : nat) (g : rng) (ev : UserEvent),
          In ev [ClickNext; KeyDown "Enter"; KeyDown " "] ->
          dispatch turns ev ui g = Handled ui g)
    /\ (awaiting_answer ui = false ->
        Forall (fun b => btn_disabled b = true) (optionButtons (page ui))
        /\ forall (turns : nat) (g : rng) (i : nat) (key : string),
             In key ["1"; "2"; "3"; "4"] ->
             dispatch turns (ClickOption i) ui g = Handled ui g
             /\ dispatch turns (KeyDown key) ui g = Handled ui g).
Proof.
  intros ui Hr. pose proof (ui_reachable_invariant ui Hr) as Hinv. split.
  - intros Haw.
    destruct (pending_awaiting ui Haw) as (_ & _ & Hans).
    destruct (handleAnswer_awaiting Undefined ui (fun _ => 0) Hinv Haw)
      as (q & _ & _ & _ & _ & Hbs & Hnd & _).
    split; [exact Hnd |]. split; [rewrite Hbs; apply question_buttons_enabled |].
    intros turns g ev [<- | [<- | [<- | []]]]; cbn [dispatch].
    + now rewrite Hnd.
    + unfold keyOption. rewrite Hans. change (parseInt "Enter") with (@None Z).
      cbn [and_then]. unfold keyNext. rewrite Hnd. now rewrite andb_false_r.
    + unfold keyOption. rewrite Hans. change (parseInt " ") with (@None Z).
      cbn [and_then]. unfold keyNext. rewrite Hnd. now rewrite andb_false_r.
  - intros Haw. split.
    + destruct Hinv as (_ & _ & Hempty & Hview).
      unfold optionButtons, awaiting_answer in *.
      destruct (optionsContent (page ui)) as [| | | buttons |] eqn:Hoc;
        try constructor.
      assert (Hne : countries (engine ui) <> []).
      { intros E. specialize (Hempty E). unfold question_view in Hempty.
        rewrite Hoc in Hempty. discriminate. }
      destruct (Hview Hne) as [_ Hshow]. rewrite Hoc in Hshow.
      destruct Hshow as (q & _ & _ & _ & Hbs & _).
      apply negb_false_iff in Haw. rewrite Haw in Hbs. subst buttons.
      apply Forall_map. apply Forall_forall. reflexivity.
    + intros turns g i key Hkey. cbn [dispatch]. split.
      * now apply clickOption_ignored.
      * rewrite keyOption_ignored by assumption. cbn [and_then].
        apply keyNext_other_key.
        destruct Hkey as [<- | [<- | [<- | [<- | []]]]]; reflexivity.
Qed.

Lemma page_gates_answer_and_next_witness :
  exists (ui : QuizUI) (g : rng),
    session 0 EmptyString (bulk_only rest_up) blank_page flag_rng [] = Some (ui, g)
    /\ nextDisabled (page ui) = true
    /\ dispatch 0 (KeyDown "Enter") ui g = Handled ui g.
Proof.
  destruct (session 0 EmptyString (bulk_only rest_up) blank_page flag_rng [])
    as [[ui g] |] eqn:Hs; [| vm_compute in Hs; discriminate].
  destruct (page_gates_answer_and_next ui) as [Hopen _].
  - eapply session_reachable; exact Hs.
  - destruct Hopen as (Hnd & _ & Hev).
    + revert Hs. vm_compute. intros H. now injection H as <- _.
    + exists ui, g. split; [reflexivity |]. split; [exact Hnd |].
      apply Hev. right. now left.
Defined.

(** ** What an answer shows *)

Lemma append_empty (s : string) : (s ++ EmptyString)%string = s.
Proof. induction s as [| a s IH]; cbn; [reflexivity | now rewrite IH]. Qed.

(** X16: a click on an option of the open question is checked by the
    engine, closes the question, enables Next and shows the engine's
    counters.  The feedback names the streak bonus exactly when the answer
    earned the extra point: a correct answer adds 1 to the score, or 2 with
    the bonus text when the streak becomes a multiple of 3; a wrong one
    adds 1 to the wrong count and resets the streak. *)
Theorem answer_feedback :
  forall (ui : QuizUI) (i : nat) (b : Button) (turns : nat) (g : rng),
    ui_reachable ui ->
    awaiting_answer ui = true ->
    nth_error (optionButtons (page ui)) i = Some b ->
    exists (q : Question) (ui' : QuizUI),
      currentQuestion (engine ui) = Some q
      /\ dispatch turns (ClickOption i) ui g = Handled ui' g
      /\ awaiting_answer ui' = false
      /\ nextDisabled (page ui') = false
      /\ shown_stats ui'
      /\ questionNumber (engine ui') = questionNumber (engine ui)
      /\ (btn_answer b = correctAnswer q ->
          wrong (engine ui') = wrong (engine ui)
          /\ streak (engine ui') = (streak (engine ui) + 1)%Z
          /\ (((streak (engine ui') mod 3)%Z <> 0%Z
               /\ score (engine ui') = (score (engine ui) + 1)%Z
               /\ feedbackText (page ui')
                  = ("✅ Correct! " ++ explanation q)%string)
              \/ ((streak (engine ui') mod 3)%Z = 0%Z
                  /\ score (engine ui') = (score (engine ui) + 2)%Z
                  /\ feedbackText (page ui')
                     = ("✅ Correct! " ++ explanation q ++ " 🔥 "
                        ++ text_of_Z (streak (engine ui'))
                        ++ "-answer streak bonus!")%string)))
      /\ (btn_answer b <> correctAnswer q ->
          score (engine ui') = score (engine ui)
          /\ wrong (engine ui') = (wrong (engine ui) + 1)%Z
          /\ streak (engine ui') = 0%Z
          /\ feedbackText (page ui') = ("❌ Wrong. " ++ explanation q)%string).
Proof.
  intros ui i b turns g Hr Haw Hb.
  pose proof (ui_reachable_invariant ui Hr) as Hinv.
  destruct (handleAnswer_awaiting (btn_answer b) ui g Hinv Haw)
    as (q & r & e & Hcur & _ & Hbs & _ & Hc & Hh).
  assert (Hen : btn_disabled b = false).
  { rewrite Hbs in Hb. apply nth_error_In in Hb.
    pose proof (question_buttons_enabled q) as Hall.
    rewrite Forall_forall in Hall. now apply Hall. }
  destruct Hinv as (He & _).
  pose proof (well_formed_reachable _ He) as (_ & _ & _ & Hst0 & _).
  exists q. eexists. split; [exact Hcur |]. split.
  { cbn [dispatch]. unfold clickOption. rewrite Hb, Hen. exact Hh. }
  unfold awaiting_answer, shown_stats. cbn [engine page isAnswered].
  revert Hc. unfold checkAnswer. rewrite Hcur.
  destruct (strict_eq (btn_answer b) (correctAnswer q)) eqn:Heq;
    intros Hc; injection Hc as <- <-;
    cbn [engine page isAnswered optionsContent nextDisabled scoreText wrongText
         progressText feedbackText updateStats with_nextDisabled with_options
         with_feedback getStats stats_score stats_wrong stats_questionNumber
         stats_totalQuestions score wrong streak questionNumber totalQuestions
         isCorrect result_streak result_explanation negb];
    unfold showFeedback;
    (split; [reflexivity |]); (split; [reflexivity |]);
    (split; [repeat split |]); (split; [reflexivity |]).
  - split; [| intros Hne].
    2: { apply strict_eq_iff in Heq. contradiction. }
    intros _. split; [reflexivity |]. split; [reflexivity |].
    rewrite Z.rem_mod_nonneg by lia.
    destruct (Z.eqb_spec ((streak (engine ui) + 1) mod 3) 0) as [E | E].
    + right. assert (H3 : (3 <=? streak (engine ui) + 1)%Z = true).
      { apply Z.leb_le. Z.to_euclidean_division_equations. lia. }
      rewrite H3. cbn [andb]. split; [exact E |]. split; [lia | reflexivity].
    + left. rewrite andb_false_r. split; [exact E |].
      split; [reflexivity |]. now rewrite append_empty.
  - split.
    + intros E. apply strict_eq_iff in E. congruence.
    + intros _. repeat (split; [reflexivity |]).
      change ((3 <=? 0)%Z && (Z.rem 0 3 =? 0)%Z) with false.
      now rewrite append_empty.
Qed.

Lemma answer_feedback_witness :
  exists (ui ui' : QuizUI) (g : rng),
    session 0 EmptyString (bulk_only rest_up) blank_page flag_rng [] = Some (ui, g)
    /\ dispatch 0 (ClickOption 1) ui g = Handled ui' g
    /\ wrong (engine ui') = (wrong (engine ui) + 1)%Z.
Proof.
  destruct (session 0 EmptyString (bulk_only rest_up) blank_page flag_rng [])
    as [[ui g] |] eqn:Hs; [| vm_compute in Hs; discriminate].
  destruct (nth_error (optionButtons (page ui)) 1) as [b |] eqn:Hb;
    [| revert Hs Hb; vm_compute; intros H; injection H as <- _; discriminate].
  destruct (answer_feedback ui 1 b 0 g) as (q & ui' & Hcur & Hd & _ & _ & _ & _ & _ & Hwrong).
  - eapply session_reachable; exact Hs.
  - revert Hs. vm_compute. intros H. now injection H as <- _.
  - exact Hb.
  - exists ui, ui', g. split; [reflexivity |]. split; [exact Hd |].
    apply Hwrong. revert Hs Hb Hcur. vm_compute. intros H. injection H as <- _.
    intros H. injection H as <-. intros H. injection H as <-. discriminate.
Defined.

(** ** The summary *)

Lemma ge_of_Z (z c : Z) : ge (of_Z z) (inject_Z c) = (c <=? z)%Z.
Proof.
  unfold ge, of_Z, Qle_bool, inject_Z. cbn [Qnum Qden].
  now rewrite !Z.mul_1_r.
Qed.

Lemma summary_message_of_score (s : Z) :
  getSummaryMessage (of_Z (10 * s))
  = (if (9 <=? s)%Z then "🏆 Outstanding! You're a geography master!"
     else if (8 <=? s)%Z then "🌟 Great job! You know your world geography!"
     else if (6 <=? s)%Z then "👍 Good effort! Keep learning!"
     else if (4 <=? s)%Z then "📚 Not bad! Practice makes perfect!"
     else "💪 Keep trying! Geography is fascinating!").
Proof.
  unfold getSummaryMessage.
  change 90%Q with (inject_Z 90). change 75%Q with (inject_Z 75).
  change 60%Q with (inject_Z 60). change 40%Q with (inject_Z 40).
  rewrite !ge_of_Z.
  repeat match goal with
         | |- context [(?a <=? ?b)%Z] => destruct (Z.leb_spec a b)
         end; try reflexivity; lia.
Qed.

(** X17: the summary appears, with countries loaded, only after ten
    questions, all answered.  Its card shows the engine's score and wrong
    count; the accuracy is ten times the score, bonus points included, so
    up to 130; the message depends on the score alone, the best one from
    9 points on. *)
Theorem summary_after_ten_answers :
  forall (ui : QuizUI) (card : SummaryCard),
    ui_reachable ui ->
    countries (engine ui) <> [] ->
    optionsContent (page ui) = Summary card ->
    exists correct : Z,
      (0 <= correct)%Z /\ (0 <= wrong (engine ui))%Z
      /\ (correct + wrong (engine ui))%Z = 10%Z
      /\ questionNumber (engine ui) = 10%Z
      /\ (correct <= score (engine ui) <= correct + correct / 3)%Z
      /\ card_score card = score (engine ui)
      /\ card_wrong card = wrong (engine ui)
      /\ card_percentage card = of_Z (10 * score (engine ui))
      /\ card_message card
         = (if (9 <=? score (engine ui))%Z
            then "🏆 Outstanding! You're a geography master!"
            else if (8 <=? score (engine ui))%Z
            then "🌟 Great job! You know your world geography!"
            else if (6 <=? score (engine ui))%Z
            then "👍 Good effort! Keep learning!"
            else if (4 <=? score (engine ui))%Z
            then "📚 Not bad! Practice makes perfect!"
            else "💪 Keep trying! Geography is fascinating!")
      /\ nextHidden (page ui) = true
      /\ restartHidden (page ui) = false.
Proof.
  intros ui card Hr Hne Hoc.
  destruct (ui_reachable_invariant ui Hr)
    as (He & (c & b & H0 & H1 & H2 & H3 & H4 & H5) & _ & Hview).
  pose proof (well_formed_reachable _ He) as (_ & _ & Hw & _).
  destruct (Hview Hne) as [_ Hshow]. rewrite Hoc in Hshow.
  destruct Hshow as (Hqn & Hcs & Hcw & Hcp & Hcm & Hnh & Hrh).
  assert (Hp : pending ui = 0%Z).
  { apply pending_not_awaiting. unfold awaiting_answer. now rewrite Hoc. }
  specialize (H5 Hne). rewrite Hp in H5.
  pose proof (Z.mod_pos_bound (streak (engine ui)) 3 ltac:(lia)) as Hm.
  assert (Hb : (b <= c / 3)%Z) by (apply Z.div_le_lower_bound; lia).
  assert (Hpc : percentage (getStats (engine ui)) = of_Z (10 * score (engine ui))).
  { rewrite percentage_value by lia. rewrite Hqn. f_equal.
    replace (200 * score (engine ui) + 10)%Z
      with (10 * score (engine ui) * (2 * 10) + 10)%Z by lia.
    rewrite Z.div_add_l by lia. change (10 / (2 * 10))%Z with 0%Z. lia. }
  exists c. repeat (split; [first [assumption | lia | congruence] |]).
  split; [| split; assumption].
  rewrite Hcm, Hpc. apply summary_message_of_score.
Qed.

Lemma summary_after_ten_answers_witness :
  exists (ui : QuizUI) (g : rng) (card : SummaryCard),
    session 0 EmptyString (bulk_only rest_up) blank_page sample_rng
            (List.concat (repeat [ClickOption 0; ClickNext] 10))
    = Some (ui, g)
    /\ optionsContent (page ui) = Summary card
    /\ card_percentage card = of_Z (10 * score (engine ui)).
Proof.
  destruct (session 0 EmptyString (bulk_only rest_up) blank_page sample_rng
              (List.concat (repeat [ClickOption 0; ClickNext] 10)))
    as [[ui g] |] eqn:Hs; [| vm_compute in Hs; discriminate].
  destruct (optionsContent (page ui)) as [| | | buttons | card] eqn:Hoc;
    try (revert Hs Hoc; vm_compute; intros H; injection H as <- _; discriminate).
  destruct (summary_after_ten_answers ui card)
    as (correct & _ & _ & _ & _ & _ & _ & _ & Hp & _).
  - eapply session_reachable; exact Hs.
  - revert Hs. vm_compute. intros H. injection H as <- _. discriminate.
  - exact Hoc.
  - exists ui, g, card. auto.
Defined.

(** ** Starting and starting over *)

Lemma loadNextQuestion_asks (turns : nat) (ui : QuizUI) (g : rng) :
  reachable (engine ui) ->
  countries (engine ui) <> [] ->
  (questionNumber (engine ui) < 10)%Z ->
  exists q g' e,
    loadNextQuestion turns ui g
    = Handled {| engine := e;
                 isAnswered := false;
                 page := with_feedback EmptyString
                           (with_nextDisabled true
                              (updateStats e (renderQuestion q (page ui)))) |} g'
    /\ reachable e
    /\ currentQuestion e = Some q
    /\ questionNumber e = (questionNumber (engine ui) + 1)%Z
    /\ countries e = countries (engine ui)
    /\ difficulty e = difficulty (engine ui)
    /\ score e = score (engine ui)
    /\ wrong e = wrong (engine ui)
    /\ streak e = streak (engine ui).
Proof.
  intros Hr Hne Hlt. unfold loadNextQuestion.
  destruct (nextQuestion_reachable turns (engine ui) g Hr)
    as [[Hq _] | (_ & e & Hr' & Hqn & _ & Hcs & Hd & Hsc & Hw & Hst
                  & [[He _] | (_ & q & g' & Hn & Hcur & _)])];
    [lia | contradiction |].
  rewrite Hn. exists q, g', e. repeat (split; [first [reflexivity | assumption] |]).
  assumption.
Qed.

Lemma loadNextQuestion_throws (turns : nat) (ui : QuizUI) (g : rng) :
  reachable (engine ui) ->
  countries (engine ui) = [] ->
  (questionNumber (engine ui) < 10)%Z ->
  exists e,
    loadNextQuestion turns ui g
    = Uncaught {| engine := e; isAnswered := isAnswered ui; page := page ui |} g
    /\ questionNumber e = (questionNumber (engine ui) + 1)%Z
    /\ currentQuestion e = currentQuestion (engine ui).
Proof.
  intros Hr He Hlt. unfold loadNextQuestion.
  assert (Hcur : forall e, nextQuestion turns (engine ui) g = Throws e ->
                           currentQuestion e = currentQuestion (engine ui)).
  { intros e. unfold nextQuestion.
    destruct (totalQuestions (engine ui) <=? questionNumber (engine ui))%Z;
      [discriminate |].
    match goal with
    | |- context [generateQuestion ?t ?s1 ?g1] =>
        destruct (generateQuestion t s1 g1) as [[q g'] | |]
    end; try discriminate.
    intros H. now injection H as <-. }
  destruct (nextQuestion_reachable turns (engine ui) g Hr)
    as [[Hq _] | (_ & e & _ & Hqn & _ & _ & _ & _ & _ & _
                  & [[_ Hn] | (Hne & _)])];
    [lia | | contradiction].
  rewrite Hn. exists e. split; [reflexivity |]. split; [exact Hqn | now apply Hcur].
Qed.

(** X18: how [init] of the controller ends.  When the engine's [init]
    fails, the error note is shown.  When it succeeds with countries, the
    first question is on display, unanswered, Next disabled, the counters
    at 0 and the progress at 1 of 10.  When it succeeds without any
    country, [loadNextQuestion] throws and the loading note stays; and in
    no state the page then reaches is a question on display. *)
Theorem controller_start :
  forall (turns : nat) (apiKey : string) (sources : Sources) (p : Page) (g : rng),
    (success (init apiKey [] sources g) = false ->
     exists ui : QuizUI,
       QuizUI_init turns apiKey sources p g
       = Handled ui (draws (init apiKey [] sources g))
       /\ questionText (page ui) = "Error"
       /\ optionsContent (page ui)
          = ErrorNote "Failed to load quiz data. Please refresh the page.")
    /\ (success (init apiKey [] sources g) = true ->
        loaded (init apiKey [] sources g) <> [] ->
        exists (ui : QuizUI) (g' : rng) (q : Question),
          QuizUI_init turns apiKey sources p g = Handled ui g'
          /\ countries (engine ui) = loaded (init apiKey [] sources g)
          /\ currentQuestion (engine ui) = Some q
          /\ questionText (page ui) = question q
          /\ optionsContent (page ui) = Buttons (question_buttons q)
          /\ awaiting_answer ui = true
          /\ nextDisabled (page ui) = true
          /\ feedbackText (page ui) = EmptyString
          /\ scoreText (page ui) = 0%Z
          /\ wrongText (page ui) = 0%Z
          /\ progressText (page ui) = "1 / 10")
    /\ (success (init apiKey [] sources g) = true ->
        loaded (init apiKey [] sources g) = [] ->
        exists ui : QuizUI,
          QuizUI_init turns apiKey sources p g
          = Uncaught ui (draws (init apiKey [] sources g))
          /\ optionsContent (page ui) = LoadingNote
          /\ currentQuestion (engine ui) = None
          /\ questionNumber (engine ui) = 1%Z)
    /\ (forall ui : QuizUI,
          ui_reachable ui ->
          countries (engine ui) = [] ->
          question_view (page ui) = false
          /\ awaiting_answer ui = false
          /\ optionButtons (page ui) = []).
Proof.
  intros turns apiKey sources p g. unfold QuizUI_init.
  set (result := init apiKey [] sources g).
  set (start := {| engine := with_countries (loaded result) new_engine;
                   isAnswered := false;
                   page := fold_left (fun p e => onProgress e p) (events result)
                                     (showLoading p) |}).
  assert (Hr : reachable (engine start)) by apply reach_init, reach_new.
  split; [| split; [| split]].
  - intros ->. eexists. split; [reflexivity |]. split; reflexivity.
  - intros -> Hne.
    destruct (loadNextQuestion_asks turns start (draws result) Hr Hne ltac:(cbn; lia))
      as (q & g' & e & Hl & Hr' & Hcur & Hqn & Hcs & _ & Hsc & Hw & _).
    pose proof (well_formed_reachable _ Hr') as (Htot & _).
    rewrite Hl. eexists. exists g', q. split; [reflexivity |].
    unfold awaiting_answer.
    cbn [engine page isAnswered optionsContent nextDisabled scoreText wrongText
         progressText feedbackText questionText updateStats with_nextDisabled
         with_options with_feedback with_question renderQuestion getStats
         stats_score stats_wrong stats_questionNumber stats_totalQuestions negb].
    rewrite Hqn, Htot, Hsc, Hw. repeat (split; [first [assumption | reflexivity] |]).
    reflexivity.
  - intros -> He.
    destruct (loadNextQuestion_throws turns start (draws result) Hr He ltac:(cbn; lia))
      as (e & Hl & Hqn & Hcur).
    rewrite Hl. eexists. split; [reflexivity |]. cbn [page engine start].
    split; [now rewrite onProgress_options |]. split; [exact Hcur | exact Hqn].
  - intros ui Hui He.
    destruct (ui_reachable_invariant ui Hui) as (_ & _ & Hempty & _).
    specialize (Hempty He). split; [exact Hempty |].
    unfold question_view in Hempty. unfold awaiting_answer, optionButtons.
    destruct (optionsContent (page ui)); try discriminate; split; reflexivity.
Qed.

Lemma controller_start_witness :
  (exists ui : QuizUI,
     QuizUI_init 0 "key" (bulk_only rest_down) blank_page sample_rng
     = Handled ui (draws (init "key" [] (bulk_only rest_down) sample_rng))
     /\ questionText (page ui) = "Error")
  /\ (exists (ui : QuizUI) (g' : rng),
        QuizUI_init 0 "key" (bulk_only rest_up) blank_page sample_rng = Handled ui g'
        /\ progressText (page ui) = "1 / 10")
  /\ (exists ui : QuizUI,
        QuizUI_init 0 "key" (bulk_only rest_empty) blank_page sample_rng
        = Uncaught ui (draws (init "key" [] (bulk_only rest_empty) sample_rng))
        /\ optionsContent (page ui) = LoadingNote).
Proof.
  split; [| split].
  - destruct (controller_start 0 "key" (bulk_only rest_down) blank_page sample_rng)
      as (Hfail & _).
    destruct Hfail as (ui & Hi & Hq & _); [vm_compute; reflexivity |].
    exists ui. split; [exact Hi | exact Hq].
  - destruct (controller_start 0 "key" (bulk_only rest_up) blank_page sample_rng)
      as (_ & Hask & _).
    destruct Hask as (ui & g' & q & Hi & _ & _ & _ & _ & _ & _ & _ & _ & _ & Hp);
      [vm_compute; reflexivity | vm_compute; discriminate |].
    exists ui, g'. split; [exact Hi | exact Hp].
  - destruct (controller_start 0 "key" (bulk_only rest_empty) blank_page sample_rng)
      as (_ & _ & Hstuck & _).
    destruct Hstuck as (ui & Hi & Hoc & _);
      [vm_compute; reflexivity | vm_compute; reflexivity |].
    exists ui. split; [exact Hi | exact Hoc].
Defined.

Lemma setDifficulty_countries (level : string) (s : Engine) :
  countries (setDifficulty level s) = countries s.
Proof. unfold setDifficulty. now destruct (difficultySettings level). Qed.

(** X19: with countries loaded, Restart and every change of the
    difficulty selector start over: counters at 0, the first question of
    ten on display, Next shown and disabled, Restart hidden.  This also
    holds for a level the engine does not know, which leaves the
    difficulty as it was. *)
Theorem restart_starts_over :
  forall (ui : QuizUI) (turns : nat) (g : rng) (ev : UserEvent),
    ui_reachable ui ->
    countries (engine ui) <> [] ->
    (ev = ClickRestart \/ exists level, ev = ChangeDifficulty level) ->
    exists (ui' : QuizUI) (g' : rng),
      dispatch turns ev ui g = Handled ui' g'
      /\ awaiting_answer ui' = true
      /\ score (engine ui') = 0%Z
      /\ wrong (engine ui') = 0%Z
      /\ streak (engine ui') = 0%Z
      /\ questionNumber (engine ui') = 1%Z
      /\ countries (engine ui') = countries (engine ui)
      /\ difficulty (engine ui')
         = match ev with
           | ChangeDifficulty level =>
               match difficultySettings level with
               | Some _ => level
               | None => difficulty (engine ui)
               end
           | _ => difficulty (engine ui)
           end
      /\ scoreText (page ui') = 0%Z
      /\ wrongText (page ui') = 0%Z
      /\ progressText (page ui') = "1 / 10"
      /\ nextDisabled (page ui') = true
      /\ nextHidden (page ui') = false
      /\ restartHidden (page ui') = true.
Proof.
  intros ui turns g ev Hui Hne Hev.
  destruct (ui_reachable_invariant ui Hui) as (Hr & _).
  assert (Hgo : forall e0 : Engine,
             reachable e0 -> countries e0 = countries (engine ui) ->
             exists ui' g',
               handleRestart turns
                 {| engine := e0; isAnswered := isAnswered ui; page := page ui |} g
               = Handled ui' g'
               /\ awaiting_answer ui' = true
               /\ score (engine ui') = 0%Z
               /\ wrong (engine ui') = 0%Z
               /\ streak (engine ui') = 0%Z
               /\ questionNumber (engine ui') = 1%Z
               /\ countries (engine ui') = countries (engine ui)
               /\ difficulty (engine ui') = difficulty e0
               /\ scoreText (page ui') = 0%Z
               /\ wrongText (page ui') = 0%Z
               /\ progressText (page ui') = "1 / 10"
               /\ nextDisabled (page ui') = true
               /\ nextHidden (page ui') = false
               /\ restartHidden (page ui') = true).
  { intros e0 Hr0 Hcs0. unfold handleRestart. cbn [engine page isAnswered].
    match goal with
    | |- context [loadNextQuestion turns ?u g] =>
        destruct (loadNextQuestion_asks turns u g)
          as (q & g' & e & Hl & Hr' & Hcur & Hqn & Hcs & Hd & Hsc & Hw & Hst)
    end.
    - now apply reach_reset.
    - cbn. now rewrite Hcs0.
    - cbn. lia.
    - pose proof (well_formed_reachable _ Hr') as (Htot & _).
      rewrite Hl. eexists. exists g'. split; [reflexivity |].
      unfold awaiting_answer.
      cbn [engine page isAnswered optionsContent nextDisabled nextHidden
           restartHidden scoreText wrongText progressText feedbackText
           questionText updateStats with_nextDisabled with_options with_feedback
           with_question with_hidden renderQuestion getStats stats_score
           stats_wrong stats_questionNumber stats_totalQuestions negb] in *.
      rewrite Hqn, Htot, Hsc, Hw, Hst, Hcs, Hd.
      cbn [reset countries difficulty questionNumber score wrong streak].
      repeat (split; [first [assumption | reflexivity] |]). reflexivity. }
  destruct Hev as [-> | [level ->]]; cbn [dispatch].
  - destruct ui as [e a pg]. now apply Hgo.
  - destruct (Hgo (setDifficulty level (engine ui)))
      as (ui' & g' & Hh & H1 & H2 & H3 & H4 & H5 & H6 & H7 & H8);
      [now apply reach_setDifficulty | apply setDifficulty_countries |].
    exists ui', g'. repeat (split; [assumption |]).
    split; [| exact H8].
    rewrite H7. unfold setDifficulty.
    destruct (difficultySettings level); reflexivity.
Qed.

Lemma restart_starts_over_witness :
  exists (ui ui' : QuizUI) (g g' : rng),
    session 0 EmptyString (bulk_only rest_up) blank_page sample_rng
            [ClickOption 0; ClickNext; ClickOption 0]
    = Some (ui, g)
    /\ dispatch 0 (ChangeDifficulty "expert") ui g = Handled ui' g'
    /\ questionNumber (engine ui') = 1%Z
    /\ difficulty (engine ui') = difficulty (engine ui).
Proof.
  destruct (session 0 EmptyString (bulk_only rest_up) blank_page sample_rng
              [ClickOption 0; ClickNext; ClickOption 0])
    as [[ui g] |] eqn:Hs; [| vm_compute in Hs; discriminate].
  destruct (restart_starts_over ui 0 g (ChangeDifficulty "expert"))
    as (ui' & g' & Hd & _ & _ & _ & _ & Hqn & _ & Hlevel & _).
  - eapply session_reachable; exact Hs.
  - revert Hs. vm_compute. intros H. injection H as <- _. discriminate.
  - right. now exists "expert".
  - exists ui, ui', g, g'. split; [reflexivity |]. split; [exact Hd |].
    split; [exact Hqn | exact Hlevel].
Defined.

(** ** Keys and clicks *)

(** X20: in every state the page reaches, the keys 1 to 4 do what a click
    on the first to fourth option button does. *)
Theorem digit_key_is_click :
  forall (ui : QuizUI) (turns : nat) (g : rng) (key : string) (index : nat),
    ui_reachable ui ->
    In (key, index) [("1", 0); ("2", 1); ("3", 2); ("4", 3)] ->
    dispatch turns (KeyDown key) ui g = dispatch turns (ClickOption index) ui g.
Proof.
  intros ui turns g key index Hr Hkey.
  pose proof (ui_reachable_invariant ui Hr) as Hinv.
  assert (Hnext : forall ui' g', keyNext turns key ui' g' = Handled ui' g').
  { intros ui' g'. apply keyNext_other_key.
    destruct Hkey as [E | [E | [E | [E | []]]]]; injection E as <- _; reflexivity. }
  assert (Hthen : forall h, and_then h (keyNext turns key) = h).
  { intros [ui' g' | ui' g' |]; cbn [and_then]; now rewrite ?Hnext. }
  cbn [dispatch].
  destruct (awaiting_answer ui) eqn:Haw.
  - destruct (pending_awaiting ui Haw) as (_ & _ & Hans).
    rewrite <- (Hthen (clickOption index ui g)). f_equal.
    unfold keyOption. rewrite Hans.
    destruct Hkey as [E | [E | [E | [E | []]]]]; injection E as <- <-; reflexivity.
  - rewrite keyOption_ignored, clickOption_ignored by assumption.
    apply Hthen.
Qed.

Lemma digit_key_is_click_witness :
  exists (ui : QuizUI) (g : rng),
    session 0 EmptyString (bulk_only rest_up) blank_page sample_rng [] = Some (ui, g)
    /\ dispatch 0 (KeyDown "2") ui g = dispatch 0 (ClickOption 1) ui g.
Proof.
  destruct (session 0 EmptyString (bulk_only rest_up) blank_page sample_rng [])
    as [[ui g] |] eqn:Hs; [| vm_compute in Hs; discriminate].
  exists ui, g. split; [reflexivity |].
  apply digit_key_is_click.
  - eapply session_reachable; exact Hs.
  - right. now left.
Defined.

(** * Flags of the countries of the primary source *)

Lemma candidate_flags_distinct :
  NoDup (map flag_url countryList)
  /\ Forall (fun n => getCountryCode n <> "un") countryList.
Proof.
  split.
  - apply (NoDup_map_inv Str), distinctb_NoDup. vm_compute. reflexivity.
  - apply Forall_forall. intros n Hn.
    assert (H : forallb (fun n => negb (String.eqb (getCountryCode n) "un"))
                        countryList = true) by (vm_compute; reflexivity).
    rewrite forallb_forall in H. specialize (H n Hn).
    apply negb_true_iff in H. now apply String.eqb_neq in H.
Qed.

Lemma distinct_images {A B : Type} (f : A -> B) (big l : list A) :
  NoDup (map f big) -> NoDup l -> incl l big -> NoDup (map f l).
Proof.
  intros Hbig Hl Hincl. induction Hl as [| x l Hx _ IH]; cbn [map]; constructor.
  - intros H. apply in_map_iff in H as (y & E & Hy). apply Hx.
    assert (y = x); [| now subst].
    apply (NoDup_map_injective f big); auto using in_eq, in_cons.
  - apply IH. intros y Hy. apply Hincl. now right.
Qed.

Lemma mapNinjaCountry_flag (data : ninja_data) (countryName : string)
  (mapped : CountryRecord) :
  mapNinjaCountry data countryName = Some mapped ->
  flag mapped = flag_url countryName
  /\ flagAlt mapped = ("Flag of " ++ countryName)%string.
Proof.
  unfold mapNinjaCountry. destruct data as [| [| country rows]]; try discriminate.
  intros H. injection H as <-. split; reflexivity.
Qed.

Lemma ninjaRecords_flags (sources : Sources) (subset : list string) :
  (forall c, In c (ninjaRecords sources subset) ->
             exists n, In n subset /\ flag c = flag_url n
                       /\ flagAlt c = ("Flag of " ++ n)%string)
  /\ (NoDup (map flag_url subset) ->
      NoDup (map flag (ninjaRecords sources subset))).
Proof.
  induction subset as [| n subset [IHin IHnd]]; cbn [ninjaRecords flat_map map].
  - split; [intros c [] | constructor].
  - assert (Hhead : forall c,
               In c (match ninja sources n with
                     | Body data =>
                         match mapNinjaCountry data n with
                         | Some mapped => [mapped]
                         | None => []
                         end
                     | _ => []
                     end) ->
               flag c = flag_url n /\ flagAlt c = ("Flag of " ++ n)%string).
    { intros c. destruct (ninja sources n) as [| status | data]; try contradiction.
      destruct (mapNinjaCountry data n) as [mapped |] eqn:Hm; [| contradiction].
      intros [<- | []]. now apply mapNinjaCountry_flag in Hm. }
    split.
    + intros c Hc. apply in_app_iff in Hc as [Hc | Hc].
      * exists n. split; [now left | now apply Hhead].
      * destruct (IHin c Hc) as (m & Hm & E). exists m. split; [now right | exact E].
    + intros Hnd. apply NoDup_cons_iff in Hnd as [Hn Hnd].
      rewrite map_app.
      destruct (ninja sources n) as [| status | data]; try now apply IHnd.
      destruct (mapNinjaCountry data n) as [mapped |] eqn:Hm; [| now apply IHnd].
      cbn [map app]. constructor; [| now apply IHnd].
      intros H. apply in_map_iff in H as (c & E & Hc).
      destruct (IHin c Hc) as (m & Hm' & Ef & _).
      apply Hn. apply in_map_iff. exists m. split; [| exact Hm'].
      destruct (Hhead mapped (or_introl eq_refl)) as [Ehead _]. congruence.
Qed.

(** X21: the countries [init] stores from the primary source carry
    pairwise distinct flag references.  Each one is built from the code of
    the requested name, every candidate name has a code of its own, and
    none falls back to the placeholder code; so the pool of every
    difficulty holds no flag twice. *)
Theorem primary_source_flags_distinct :
  forall (apiKey : string) (before : list CountryRecord) (sources : Sources)
         (g : rng),
    nonempty apiKey = true ->
    ninjaRecords sources (requested_names (events (init apiKey before sources g)))
    <> [] ->
    NoDup (map flag (loaded (init apiKey before sources g)))
    /\ (forall c,
          In c (loaded (init apiKey before sources g)) ->
          exists n,
            In n countryList
            /\ getCountryCode n <> "un"
            /\ flag c = ("https://flagcdn.com/w320/" ++ getCountryCode n
                          ++ ".png")%string
            /\ flagAlt c = ("Flag of " ++ n)%string)
    /\ (forall (s : Engine) (pool : list CountryRecord),
          countries s = loaded (init apiKey before sources g) ->
          getCountriesForDifficulty s = Done pool ->
          NoDup (map flag pool)).
Proof.
  intros apiKey before sources g Hkey Hrecords.
  destruct (init_with_key apiKey before sources g Hkey)
    as (subset & tail & Hnd & Hincl & _ & Hnames & _ & _ & _ & Hinit).
  assert (Hreq : requested_names (events (init apiKey before sources g)) = subset).
  { rewrite Hinit. destruct (ninjaRecords sources subset) as [| r rs] eqn:E.
    - unfold rest_fallback.
      destruct (restCountries sources 0); [| | ];
        try destruct (restCountries sources 1); cbn [events];
        change (Progress 0 10 :: tail) with ([Progress 0 10] ++ tail);
        rewrite <- ?app_assoc, !requested_names_app, Hnames;
        cbn; now rewrite app_nil_r.
    - cbn [events]. change (Progress 0 10 :: tail) with ([Progress 0 10] ++ tail).
      rewrite requested_names_app, Hnames. reflexivity. }
  rewrite Hreq in Hrecords.
  assert (Hloaded : loaded (init apiKey before sources g)
                    = sort byPopularity (ninjaRecords sources subset)).
  { rewrite Hinit. destruct (ninjaRecords sources subset); [now elim Hrecords |].
    reflexivity. }
  rewrite Hloaded.
  destruct candidate_flags_distinct as [Hall Hcodes].
  destruct (ninjaRecords_flags sources subset) as [Hin Hdistinct].
  pose proof (sort_Permutation byPopularity (ninjaRecords sources subset)) as HP.
  assert (Hflags : NoDup (map flag (sort byPopularity (ninjaRecords sources subset)))).
  { eapply Permutation_NoDup; [apply Permutation_map; symmetry; exact HP |].
    apply Hdistinct. now apply (distinct_images flag_url countryList). }
  split; [exact Hflags |]. split.
  - intros c Hc. apply (Permutation_in _ HP) in Hc.
    destruct (Hin c Hc) as (n & Hn & Ef & Ea).
    exists n. rewrite Forall_forall in Hcodes. auto.
  - intros s pool Hcs. unfold getCountriesForDifficulty. rewrite Hcs.
    assert (Hcut : forall n (l : list CountryRecord),
               NoDup (map flag l) -> NoDup (map flag (firstn n l))).
    { intros n l Hl. rewrite <- firstn_map. now apply firstn_distinct. }
    destruct (difficultySettings (difficulty s)) as [[cap popularOnly |] |];
      [| | discriminate]; intros H;
      apply (f_equal (fun o => match o with Done p => p | _ => [] end)) in H;
      cbv beta iota zeta in H; subst pool.
    + apply Hcut. destruct popularOnly; [apply Hcut |]; exact Hflags.
    + exact Hflags.
Qed.

Lemma primary_source_flags_distinct_witness :
  List.length (loaded (init "key" []
                          {| ninja := ninja_everywhere; restCountries := rest_down |}
                          sample_rng)) = 10
  /\ NoDup (map flag (loaded (init "key" []
                                {| ninja := ninja_everywhere;
                                   restCountries := rest_down |}
                                sample_rng))).
Proof.
  destruct (primary_source_flags_distinct "key" []
              {| ninja := ninja_everywhere; restCountries := rest_down |}
              sample_rng) as [H _].
  - reflexivity.
  - vm_compute. discriminate.
  - split; [vm_compute; reflexivity | exact H].
Defined.
